(** * Chat-export converter: a shallow embedding and its verified properties

    The development follows [intelligent_converter.py] (class
    [IntelligentConverter]) and [batch_processor.py]
    ([process_multiple_files]).

    Conventions of the embedding:
    - a Python [str] is a list of Unicode code points ([list N]); [py] turns
      an ASCII literal into such a list;
    - a Python [float] is an IEEE-754 binary64 number (primitive floats);
    - a call that can raise returns an [outcome];
    - functions of Python's runtime whose tables are not part of the
      repository (case mapping, the classes behind \s, \d and \w, the
      Unicode name table, MD5, [float()], [json.loads], the local time zone,
      the iteration order of a [set]) are fields of the class [Runtime];
      the instance [ascii_runtime] gives them on ASCII text and in UTC. *)

From Stdlib Require Import Ascii String.
From Stdlib Require Import List Bool Arith ZArith NArith Lia.
From Stdlib Require Import Floats Permutation Sorted.
Import ListNotations.

Set Warnings "-inexact-float".

Set Implicit Arguments.

(** ** Text *)

Definition char := N.
Definition str := list char.

Definition chr (a : ascii) : char := N_of_ascii a.

Definition py (s : string) : str := map chr (list_ascii_of_string s).

Fixpoint str_eqb (a b : str) : bool :=
  match a, b with
  | [], [] => true
  | x :: a', y :: b' => N.eqb x y && str_eqb a' b'
  | _, _ => false
  end.

(** [x in xs] for a list of strings. *)
Definition str_in (x : str) (xs : list str) : bool := existsb (str_eqb x) xs.

(** [a == b] for two lists of strings. *)
Fixpoint strs_eqb (a b : list str) : bool :=
  match a, b with
  | [], [] => true
  | x :: a', y :: b' => str_eqb x y && strs_eqb a' b'
  | _, _ => false
  end.

(** [s.startswith(p)] *)
Fixpoint startswith (p s : str) : bool :=
  match p, s with
  | [], _ => true
  | x :: p', y :: s' => N.eqb x y && startswith p' s'
  | _ :: _, [] => false
  end.

(** [p in s] for two strings: [p] occurs as a contiguous slice of [s]. *)
Fixpoint contains (p s : str) : bool :=
  startswith p s ||
  match s with
  | [] => false
  | _ :: s' => contains p s'
  end.

(** [sep.join(xs)] *)
Fixpoint join (sep : str) (xs : list str) : str :=
  match xs with
  | [] => []
  | [x] => x
  | x :: rest => x ++ sep ++ join sep rest
  end.

(** [xs[-n:]], the last [n] items (all of them when there are fewer). *)
Definition lastn {A} (n : nat) (xs : list A) : list A :=
  skipn (length xs - n) xs.

(** ** Floating point *)

Open Scope float_scope.

(** Python's two-argument [max] and [min]: the first argument is returned
    unless the second is strictly greater (smaller). *)
Definition py_max (a b : float) : float := if PrimFloat.ltb a b then b else a.
Definition py_min (a b : float) : float := if PrimFloat.ltb b a then b else a.

(** ** Relevance score ([calculate_relevance_score]) *)

Section Relevance.

Definition calculate_relevance_score (title description : str)
    (categories tags messages : list str) : float :=
  let score := 0.5 in
  let score :=
    if existsb (fun cat => contains (py "Project") cat) categories
    then score + 0.2 else score in
  let score :=
    if existsb (fun tag => str_in tag tags)
               [py "Framework"; py "Template"; py "System"]
    then score + 0.15 else score in
  let score :=
    if existsb (fun tag => str_in tag tags)
               [py "Email Sequence"; py "Landing Page"; py "Sales Page"]
    then score + 0.15 else score in
  let score := if Nat.ltb 10 (length messages) then score + 0.1 else score in
  let score :=
    if str_in (py "Business Strategy") categories
       || str_in (py "Analysis") tags
    then score + 0.1 else score in
  let score :=
    if strs_eqb categories [py "General Chat"]
    then score - 0.2 else score in
  let score := if Nat.ltb (length messages) 3 then score - 0.1 else score in
  py_min (py_max score 0.1) 1.0.

(** The formula as the specification words it: a base, five optional
    bonuses and two optional penalties, summed in the order listed and
    clamped. *)
Definition term (applies : bool) (amount : float) : float :=
  if applies then amount else 0.

Definition clamp (lo hi x : float) : float :=
  if PrimFloat.ltb x lo then lo else if PrimFloat.ltb hi x then hi else x.

Definition one_of (options : list str) (x : str) : bool := str_in x options.

Definition spec_relevance (categories tags messages : list str) : float :=
  clamp 0.1 1.0
    (0.5
     + term (existsb (contains (py "Project")) categories) 0.2
     + term (existsb (one_of [py "Framework"; py "Template"; py "System"])
                     tags) 0.15
     + term (existsb (one_of [py "Email Sequence"; py "Landing Page";
                              py "Sales Page"]) tags) 0.15
     + term (Nat.ltb 10 (length messages)) 0.1
     + term (str_in (py "Business Strategy") categories
             || str_in (py "Analysis") tags) 0.1
     - term (strs_eqb categories [py "General Chat"]) 0.2
     - term (Nat.ltb (length messages) 3) 0.1).

End Relevance.

Close Scope float_scope.

(** ** Exceptions *)

(** A call either raises or returns a value. *)
Inductive outcome (A : Type) : Type :=
| Raises
| Returns (a : A).
Arguments Raises {A}.
Arguments Returns {A} a.

Definition bind {A B} (m : outcome A) (k : A -> outcome B) : outcome B :=
  match m with
  | Raises => Raises
  | Returns a => k a
  end.

Notation "x <- m ;; k" := (bind m (fun x => k))
  (at level 61, m at next level, right associativity).

(** ** The runtime the converter relies on *)

(** A timestamp as Python holds it after parsing: an [int] or a [float]. *)
Inductive number : Type :=
| Int (z : Z)
| Float (f : float).

(** A calendar date: year, month, day. *)
Record calendar : Type := Calendar { year : Z; month : Z; day : Z }.

(** The value found under [create_time] or [update_time]: nothing, a number,
    or some other JSON value, of which only the truth value matters. *)
Inductive time_value : Type :=
| No_time
| Time (n : number)
| Not_a_number (truthy : bool).

(** The dictionary of one conversation as [extract_conversation_details]
    reads it; [None] is an absent key. *)
Record conv_data : Type := Conversation {
  conv_title : option str;
  conv_create_time : time_value;
  conv_update_time : time_value;
  conv_messages : option (list str);
  conv_raw_text : option str
}.

(** What [json.loads] gives for an export in JSON: an array of conversation
    dictionaries or a single one. *)
Inductive json_value : Type :=
| Json_array (data : list conv_data)
| Json_object (data : conv_data).

Class Runtime : Type := {
  (** [str.lower()] *)
  lower : str -> str;
  (** the character classes \s, \d and \w of [re] *)
  is_space : char -> bool;
  is_digit : char -> bool;
  is_word : char -> bool;
  (** [re.IGNORECASE]: does the text character match the pattern's? *)
  same_letter : char -> char -> bool;
  (** the table behind the escape \N{NAME} *)
  unicode_name : str -> option char;
  (** [float(s)]; it raises [ValueError] *)
  float_of_str : str -> outcome float;
  (** [datetime.fromtimestamp(t)] in the local zone, as a calendar date; it
      raises [OverflowError], [OSError] or [ValueError] *)
  fromtimestamp : number -> outcome calendar;
  (** [json.loads(content)]; it raises [JSONDecodeError] *)
  json_loads : str -> outcome json_value;
  (** [hashlib.md5(bytes).hexdigest()] *)
  md5_hexdigest : list N -> str;
  (** [list(s)] for a set [s] whose members, in insertion order, are the
      given list: the members in the order the hash table yields them *)
  set_order : list str -> list str;
  set_order_perm : forall members, Permutation (set_order members) members
}.

(** ** Regular expressions

    The fragment of [re] the converter uses: character classes, sequence,
    alternation, greedy repetition and one capturing group, matched by
    backtracking as [re] does (the first alternative and the longest
    repetition are tried first). *)

Inductive regex : Type :=
| Class (p : char -> bool)
| Empty
| Then (a b : regex)
| Or (a b : regex)
| Star (a : regex)
| Group (a : regex).

Definition Plus (a : regex) : regex := Then a (Star a).
Definition Opt (a : regex) : regex := Or a Empty.

Fixpoint Lit (s : str) : regex :=
  match s with
  | [] => Empty
  | c :: s' => Then (Class (N.eqb c)) (Lit s')
  end.

(** [run r s cap k]: match [r] at the start of [s]; on success hand the rest
    of the text and the captured group to the continuation [k], whose
    failure makes the matcher backtrack. *)
Fixpoint run {A} (r : regex) (s : str) (cap : option str)
    (k : str -> option str -> option A) {struct r} : option A :=
  match r with
  | Class p =>
      match s with
      | c :: s' => if p c then k s' cap else None
      | [] => None
      end
  | Empty => k s cap
  | Then a b => run a s cap (fun s' cap' => run b s' cap' k)
  | Or a b =>
      match run a s cap k with
      | Some x => Some x
      | None => run b s cap k
      end
  | Star a =>
      (fix loop (fuel : nat) (s : str) (cap : option str) {struct fuel}
         : option A :=
         match fuel with
         | O => k s cap
         | S fuel' =>
             match run a s cap
                     (fun s' cap' =>
                        if Nat.ltb (length s') (length s)
                        then loop fuel' s' cap' else None) with
             | Some x => Some x
             | None => k s cap
             end
         end) (length s) s cap
  | Group a =>
      run a s cap
          (fun s' _ => k s' (Some (firstn (length s - length s') s)))
  end.

(** [re.match(r, s)]: the captured group and the text after the match. *)
Definition re_match (r : regex) (s : str) : option (option str * str) :=
  run r s None (fun rest cap => Some (cap, rest)).

(** [m.group(1)] *)
Definition group1 (m : option str * str) : str :=
  match fst m with Some g => g | None => [] end.

(** [re.search(r, s)]: the leftmost match. *)
Fixpoint re_search (r : regex) (s : str) : option (option str * str) :=
  match re_match r s with
  | Some m => Some m
  | None =>
      match s with
      | [] => None
      | _ :: s' => re_search r s'
      end
  end.

(** [re.findall(r, s)] for a pattern with one group: the group of every
    match, scanning from the left and resuming after each match. *)
Fixpoint findall_from (fuel : nat) (r : regex) (s : str) : list str :=
  match fuel with
  | O => []
  | S fuel' =>
      match re_match r s with
      | Some (cap, rest) =>
          group1 (cap, rest) ::
          (if Nat.ltb (length rest) (length s)
           then findall_from fuel' r rest
           else match s with
                | [] => []
                | _ :: s' => findall_from fuel' r s'
                end)
      | None =>
          match s with
          | [] => []
          | _ :: s' => findall_from fuel' r s'
          end
      end
  end.

Definition re_findall (r : regex) (s : str) : list str :=
  findall_from (S (length s)) r s.

(** [re.split(r, s)] for a pattern without group that matches no empty
    text: the pieces between the matches. [piece] holds, reversed, the text
    read since the last match. *)
Fixpoint split_from (fuel : nat) (r : regex) (s piece : str) : list str :=
  match fuel with
  | O => [rev piece]
  | S fuel' =>
      match s with
      | [] => [rev piece]
      | c :: s' =>
          match re_match r s with
          | Some (_, rest) =>
              if Nat.ltb (length rest) (length s)
              then rev piece :: split_from fuel' r rest []
              else split_from fuel' r s' (c :: piece)
          | None => split_from fuel' r s' (c :: piece)
          end
      end
  end.

Definition re_split (r : regex) (s : str) : list str :=
  split_from (S (length s)) r s [].

(** ** Encoding and the [unicode_escape] codec *)

Open Scope N_scope.

(** [c.encode()] for one code point: its UTF-8 bytes. A surrogate cannot be
    encoded. *)
Definition utf8_char (c : char) : outcome (list N) :=
  if c <? 128 then Returns [c]
  else if c <? 2048 then Returns [192 + c / 64; 128 + c mod 64]
  else if c <? 65536 then
    if (55296 <=? c) && (c <=? 57343) then Raises
    else Returns [224 + c / 4096; 128 + (c / 64) mod 64; 128 + c mod 64]
  else if c <? 1114112 then
    Returns [240 + c / 262144; 128 + (c / 4096) mod 64;
             128 + (c / 64) mod 64; 128 + c mod 64]
  else Raises.

(** [s.encode()] *)
Fixpoint encode (s : str) : outcome (list N) :=
  match s with
  | [] => Returns []
  | c :: s' =>
      bytes <- utf8_char c ;;
      rest <- encode s' ;;
      Returns (bytes ++ rest)
  end.

Definition backslash : char := 92.
Definition dq : char := 34.

(** The value of a hexadecimal digit. *)
Definition hex_value (c : N) : option N :=
  if (48 <=? c) && (c <=? 57) then Some (c - 48)
  else if (97 <=? c) && (c <=? 102) then Some (c - 87)
  else if (65 <=? c) && (c <=? 70) then Some (c - 55)
  else None.

Definition is_octal (c : N) : bool := (48 <=? c) && (c <=? 55).

(** Exactly [count] hexadecimal digits, as \x, \u and \U require. *)
Fixpoint hex_escape (count : nat) (acc : N) (s : list N)
    : outcome (N * list N) :=
  match count with
  | O => Returns (acc, s)
  | S count' =>
      match s with
      | [] => Raises
      | c :: s' =>
          match hex_value c with
          | Some v => hex_escape count' (acc * 16 + v) s'
          | None => Raises
          end
      end
  end.

(** Up to two further octal digits after the first. *)
Definition octal_escape (first : N) (s : list N) : N * list N :=
  match s with
  | c1 :: s1 =>
      if is_octal c1 then
        match s1 with
        | c2 :: s2 =>
            if is_octal c2
            then ((first * 8 + (c1 - 48)) * 8 + (c2 - 48), s2)
            else (first * 8 + (c1 - 48), s1)
        | [] => (first * 8 + (c1 - 48), s1)
        end
      else (first, s)
  | [] => (first, s)
  end.

(** The one-letter escapes. *)
Definition simple_escape (c : N) : option char :=
  if c =? 92 then Some 92          (* backslash *)
  else if c =? 39 then Some 39     (* single quote *)
  else if c =? 34 then Some 34     (* double quote *)
  else if c =? 98 then Some 8      (* b: backspace *)
  else if c =? 102 then Some 12    (* f: form feed *)
  else if c =? 116 then Some 9     (* t: tab *)
  else if c =? 110 then Some 10    (* n: line feed *)
  else if c =? 114 then Some 13    (* r: carriage return *)
  else if c =? 118 then Some 11    (* v: vertical tab *)
  else if c =? 97 then Some 7      (* a: bell *)
  else None.

(** The text up to a closing brace, and what follows the brace. *)
Fixpoint upto_brace (s : list N) : option (list N * list N) :=
  match s with
  | [] => None
  | c :: s' =>
      if c =? 125 then Some ([], s')
      else match upto_brace s' with
           | Some (name, rest) => Some (c :: name, rest)
           | None => None
           end
  end.

Close Scope N_scope.

Section Codec.

Context {R : Runtime}.

Open Scope N_scope.

(** [bytes.decode('unicode_escape')]: a byte that is not a backslash
    stands for the code point of the same number; a backslash starts an
    escape; an unknown escape is kept as it is written; a truncated or
    malformed one raises [UnicodeDecodeError]. *)
Fixpoint unicode_escape_from (fuel : nat) (s : list N) : outcome str :=
  match fuel with
  | O => match s with [] => Returns [] | _ :: _ => Raises end
  | S fuel' =>
      match s with
      | [] => Returns []
      | c :: s1 =>
          if negb (c =? backslash) then
            rest <- unicode_escape_from fuel' s1 ;; Returns (c :: rest)
          else
            match s1 with
            | [] => Raises
            | e :: s2 =>
                if e =? 10 then unicode_escape_from fuel' s2
                else
                  match simple_escape e with
                  | Some ch =>
                      rest <- unicode_escape_from fuel' s2 ;;
                      Returns (ch :: rest)
                  | None =>
                      if is_octal e then
                        let '(ch, s3) := octal_escape (e - 48) s2 in
                        rest <- unicode_escape_from fuel' s3 ;;
                        Returns (ch :: rest)
                      else if (e =? 120) || (e =? 117) || (e =? 85) then
                        let count :=
                          if e =? 120 then 2%nat
                          else if e =? 117 then 4%nat else 8%nat in
                        digits <- hex_escape count 0 s2 ;;
                        if 1114111 <? fst digits then Raises
                        else
                          rest <- unicode_escape_from fuel' (snd digits) ;;
                          Returns (fst digits :: rest)
                      else if e =? 78 then
                        match s2 with
                        | b :: s3 =>
                            if b =? 123 then
                              match upto_brace s3 with
                              | Some (name, s4) =>
                                  match name with
                                  | [] => Raises
                                  | _ :: _ =>
                                      match unicode_name name with
                                      | Some ch =>
                                          rest <-
                                            unicode_escape_from fuel' s4 ;;
                                          Returns (ch :: rest)
                                      | None => Raises
                                      end
                                  end
                              | None => Raises
                              end
                            else Raises
                        | [] => Raises
                        end
                      else
                        rest <- unicode_escape_from fuel' s2 ;;
                        Returns (backslash :: e :: rest)
                  end
            end
      end
  end.

Definition unicode_escape (bytes : list N) : outcome str :=
  unicode_escape_from (S (length bytes)) bytes.

(** [s.encode().decode('unicode_escape')] *)
Definition unescape (s : str) : outcome str :=
  bytes <- encode s ;; unicode_escape bytes.

End Codec.

(** ** Extractor: the raw-text dialect *)

(** A key with its quotes, as it is written in the export. *)
Definition quoted (key : string) : str := dq :: py key ++ [dq].

Definition not_quote : regex := Class (fun c => negb (N.eqb c dq)).

Section Extractor.

Context {R : Runtime}.

Definition spaces : regex := Star (Class is_space).

(** [\x22title\x22:\s*\x22], the boundary of a conversation (in these
    comments \x22 is the double quote) *)
Definition title_boundary : regex :=
  Then (Lit (quoted "title" ++ py ":")) (Then spaces (Lit [dq])).

(** [([^\x22]+)\x22] *)
Definition title_text : regex :=
  Then (Group (Plus not_quote)) (Lit [dq]).

(** [\x22KEY\x22:\s*([\d.]+)] *)
Definition number_field (key : string) : regex :=
  Then (Lit (quoted key ++ py ":"))
       (Then spaces
             (Group (Plus (Class (fun c => is_digit c || N.eqb c 46))))).

(** [\x22parts\x22:\s*\[\x22([^\x22]+)\x22] *)
Definition parts_field : regex :=
  Then (Lit (quoted "parts" ++ py ":"))
       (Then spaces
             (Then (Lit (py "[" ++ [dq]))
                   (Then (Group (Plus not_quote)) (Lit [dq])))).

(** [\x22KEY\x22:\s*\x22([^\x22]+)\x22] *)
Definition string_field (key : string) : regex :=
  Then (Lit (quoted key ++ py ":"))
       (Then spaces
             (Then (Lit [dq])
                   (Then (Group (Plus not_quote)) (Lit [dq])))).

(** The three passes of [extract_messages_from_raw], each extending the
    list [messages]. *)
Definition candidate_messages (conv_text : str) : list str :=
  let messages := [] in
  let content_matches := re_findall parts_field conv_text in
  let messages := messages ++ content_matches in
  let text_matches := re_findall (string_field "value") conv_text in
  let messages := messages ++ text_matches in
  let msg_matches := re_findall (string_field "content") conv_text in
  let messages := messages ++ msg_matches in
  messages.

(** The test that keeps a decoded message. *)
Definition substantial (msg : str) : bool :=
  Nat.ltb 20 (length msg) && negb (startswith (py "You are") msg).

(** The cleaning loop of [extract_messages_from_raw]. *)
Fixpoint clean_messages (messages : list str) : outcome (list str) :=
  match messages with
  | [] => Returns []
  | msg :: rest =>
      msg' <- unescape msg ;;
      cleaned <- clean_messages rest ;;
      Returns (if substantial msg' then msg' :: cleaned else cleaned)
  end.

Definition extract_messages_from_raw (conv_text : str)
    : outcome (list str) :=
  clean_messages (candidate_messages conv_text).

(** A timestamp of the block: the first number after the key. *)
Definition timestamp_of (key : string) (conv_text : str)
    : outcome time_value :=
  match re_search (number_field key) conv_text with
  | Some m => f <- float_of_str (group1 m) ;; Returns (Time (Float f))
  | None => Returns No_time
  end.

(** The body of the loop of [parse_raw_text_export] for one block;
    [Returns None] is its [continue]. *)
Definition parse_block (conv_text : str) : outcome (option conv_data) :=
  match re_match title_text conv_text with
  | None => Returns None
  | Some title_match =>
      let title := group1 title_match in
      create_time <- timestamp_of "create_time" conv_text ;;
      update_time <- timestamp_of "update_time" conv_text ;;
      messages <- extract_messages_from_raw conv_text ;;
      Returns (Some {| conv_title := Some title;
                       conv_create_time := create_time;
                       conv_update_time := update_time;
                       conv_messages := Some messages;
                       conv_raw_text := Some (firstn 5000 conv_text) |})
  end.

(** The loop over the blocks: a block that raises is skipped. *)
Fixpoint parse_blocks (blocks : list str) : list conv_data :=
  match blocks with
  | [] => []
  | conv_text :: rest =>
      match parse_block conv_text with
      | Returns (Some conversation) => conversation :: parse_blocks rest
      | Returns None => parse_blocks rest
      | Raises => parse_blocks rest
      end
  end.

Definition parse_raw_text_export (content : str) : list conv_data :=
  let conv_splits := re_split title_boundary content in
  parse_blocks (tl conv_splits).

End Extractor.

(** ** Classifier *)

Definition en_dash : char := 8211%N.
Definition em_dash : char := 8212%N.

(** A project category: "Project", an en dash, the project's name. *)
Definition project (name : string) : str :=
  py "Project " ++ [en_dash] ++ py (" " ++ name)%string.

(** [category_patterns], in the order of the dictionary literal. *)
Definition category_patterns : list (str * list str) :=
  [ (project "Get The Receipts (GTR)",
     map py ["valentina"; "sage"; "receipts"; "gtr"; "ofm";
             "quiz funnel"; "personality test"; "archetype"]%string);
    (project "TNT Media",
     map py ["emma"; "tnt"; "tom clayson"; "media buying";
             "acquisition"; "creative strategy"]%string);
    (project "PaleoHacks / David Sinick",
     map py ["paleohacks"; "david sinick"; "health funnel"; "vsl";
             "keto"; "paleo"; "supplement"]%string);
    (py "AI Bot Configurations",
     map py ["system prompt"; "personality"; "voice"; "tone";
             "character"; "persona"; "chatbot"; "assistant config"]%string);
    (py "Job - Copywriting",
     map py ["portfolio"; "writing sample"; "application"; "cover letter";
             "resume"; "job posting"; "interview prep"]%string);
    (py "Job - AI Consultant",
     map py ["ai consulting"; "ai strategy"; "implementation";
             "ai advisor"]%string);
    (py "Health - Therapy",
     map py ["trauma"; "healing"; "therapy"; "emotional"; "anxiety";
             "depression"; "coping"; "mental health"; "processing"]%string);
    (py "Prompt Engineering",
     map py ["prompt"; "few-shot"; "zero-shot"; "chain of thought";
             "system message"; "instruction"; "template"]%string);
    (py "Copywriting - Emails",
     map py ["email sequence"; "subject line"; "email campaign";
             "newsletter"; "broadcast"; "autoresponder"]%string);
    (py "Copywriting - Sales Page",
     map py ["sales page"; "long form"; "sales letter"; "checkout";
             "order form"; "guarantee"; "testimonial"]%string);
    (py "Business Strategy",
     map py ["strategy"; "planning"; "roadmap"; "framework";
             "analysis"; "competitive"; "positioning"]%string);
    (py "Customer Research",
     map py ["customer research"; "avatar"; "persona"; "survey";
             "interview"; "voice of customer"; "market research"]%string) ].

(** [tag_patterns], in the order of the dictionary literal. *)
Definition tag_patterns : list (str * list str) :=
  [ (py "tools",
     map py ["claude"; "gpt"; "chatgpt"; "n8n"; "cursor"; "zapier";
             "make"; "airtable"; "notion"; "figma"; "canva"]%string);
    (py "techniques",
     map py ["aida"; "pas"; "fab"; "storytelling"; "urgency";
             "scarcity"; "social proof"; "authority";
             "reciprocity"]%string);
    (py "deliverables",
     map py ["email sequence"; "landing page"; "sales page";
             "vsl script"; "ad copy"; "headline"; "hook";
             "lead magnet"; "webinar"; "funnel"]%string);
    (py "clients",
     map py ["valentina"; "sage"; "emma"; "tom"; "david sinick";
             "pauline"; "stefan georgi"; "luka mills"]%string);
    (py "work_types",
     map py ["research"; "strategy"; "copywriting"; "automation";
             "analysis"; "optimization"; "testing";
             "implementation"]%string) ].

(** [str.title()] on the ASCII keywords of [tag_patterns]: a letter that
    follows a letter is made lower case, any other letter upper case. *)
Definition is_upper (c : char) : bool := (65 <=? c)%N && (c <=? 90)%N.
Definition is_lower (c : char) : bool := (97 <=? c)%N && (c <=? 122)%N.

Fixpoint title_from (after_letter : bool) (s : str) : str :=
  match s with
  | [] => []
  | c :: s' =>
      if is_lower c then
        (if after_letter then c else (c - 32)%N) :: title_from true s'
      else if is_upper c then
        (if after_letter then (c + 32)%N else c) :: title_from true s'
      else c :: title_from false s'
  end.

Definition title_case (s : str) : str := title_from false s.

(** A Python [set] of strings, kept as the list of its members in the order
    they were first added. *)
Definition set_add (x : str) (members : list str) : list str :=
  if str_in x members then members else members ++ [x].

(** [sorted(items, key=..., reverse=...)]: Python's sort is stable, so the
    result is fixed by which items must come strictly before which; an item
    is inserted behind exactly those. *)
Fixpoint insert_sorted {A} (before : A -> A -> bool) (x : A) (l : list A)
    : list A :=
  match l with
  | [] => [x]
  | y :: l' =>
      if before y x then y :: insert_sorted before x l' else x :: y :: l'
  end.

Definition stable_sort {A} (before : A -> A -> bool) (l : list A) : list A :=
  fold_right (insert_sorted before) [] l.

(** [any(word in content for word in words)] *)
Definition any_in (words : list string) (content : str) : bool :=
  existsb (fun word => contains (py word) content) words.

Section Classifier.

Context {R : Runtime}.

(** A literal of a pattern compiled with [re.IGNORECASE]. *)
Fixpoint LitI (s : str) : regex :=
  match s with
  | [] => Empty
  | c :: s' => Then (Class (same_letter c)) (LitI s')
  end.

Definition space1 : regex := Plus (Class is_space).

(** [re.search(pattern, text, re.IGNORECASE)] as a truth value. *)
Definition found (pattern : regex) (text : str) : bool :=
  match re_search pattern text with Some _ => true | None => false end.

(** [extract_deliverables] *)
Definition deliverable_patterns : list (str * regex) :=
  [ (py "email sequence",
     Then (LitI (py "email")) (Then space1 (LitI (py "sequence"))));
    (py "landing page",
     Then (LitI (py "landing")) (Then space1 (LitI (py "page"))));
    (py "sales page",
     Then (LitI (py "sales")) (Then space1 (LitI (py "page"))));
    (py "VSL script",
     Then (LitI (py "vsl")) (Then space1 (LitI (py "script"))));
    (py "ad copy",
     Then (LitI (py "ad")) (Then space1 (LitI (py "copy"))));
    (py "headline", LitI (py "headline"));
    (py "hook", LitI (py "hook"));
    (py "framework", LitI (py "framework"));
    (py "template", LitI (py "template")) ].

Definition names_found (patterns : list (str * regex)) (text : str)
    : list str :=
  map fst (filter (fun entry => found (snd entry) text) patterns).

Definition extract_deliverables (text : str) : list str :=
  let deliverables := names_found deliverable_patterns text in
  firstn 3 deliverables.

(** [extract_tools] *)
Definition tool_patterns : list (str * regex) :=
  [ (py "Claude", LitI (py "claude"));
    (py "ChatGPT", Or (LitI (py "chatgpt")) (LitI (py "gpt")));
    (py "n8n", LitI (py "n8n"));
    (py "Cursor", LitI (py "cursor"));
    (py "Zapier", LitI (py "zapier"));
    (py "Airtable", LitI (py "airtable")) ].

Definition extract_tools (text : str) : list str :=
  let tools := names_found tool_patterns text in
  firstn 3 tools.

(** [[^.!?]+] in a group *)
Definition phrase : regex :=
  Group (Plus (Class (fun c =>
    negb (N.eqb c 46 || N.eqb c 33 || N.eqb c 63)))).

(** [how to ([^.!?]+)] *)
Definition how_to : regex := Then (LitI (py "how to ")) phrase.

(** [(?:create|build)\s+(?:a\s+)?([^.!?]+)] *)
Definition create_or_build : regex :=
  Then (Or (LitI (py "create")) (LitI (py "build")))
       (Then space1
             (Then (Opt (Then (LitI (py "a")) space1)) phrase)).

(** The phrases one message contributes in [extract_key_phrases]. *)
Definition key_phrases_of (msg : str) : list str :=
  (if contains (py "how to") (lower msg) then
     match re_search how_to msg with
     | Some m => [firstn 30 (group1 m)]
     | None => []
     end
   else [])
  ++
  (if contains (py "create") (lower msg) || contains (py "build") (lower msg)
   then
     match re_search create_or_build msg with
     | Some m => [firstn 30 (group1 m)]
     | None => []
     end
   else []).

Definition extract_key_phrases (messages : list str) : list str :=
  flat_map key_phrases_of (firstn 3 messages).

(** The topic phrase of [create_intelligent_description]: the first rule
    of the chain that applies. *)
Definition topic_parts (content : str) (messages : list str) : list str :=
  if contains (py "valentina") content || contains (py "sage") content
  then [py "AI persona development for GTR quiz funnel"]
  else if contains (py "emma") content || contains (py "tnt") content
  then [py "TNT Media brand and acquisition strategy"]
  else if contains (py "resume") content || contains (py "portfolio") content
  then [py "Job application materials and portfolio development"]
  else if contains (py "prompt") content
  then [py "Prompt engineering and template development"]
  else if contains (py "email") content && contains (py "sequence") content
  then [py "Email sequence copywriting and optimization"]
  else if contains (py "landing") content
          || contains (py "sales page") content
  then [py "Landing/sales page copy and conversion optimization"]
  else if contains (py "research") content
  then [py "Market and customer research analysis"]
  else if contains (py "strategy") content
  then [py "Strategic planning and framework development"]
  else
    let key_phrases := extract_key_phrases messages in
    match key_phrases with
    | [] => []
    | _ :: _ =>
        [py "Discussion of " ++ join (py ", ") (firstn 3 key_phrases)]
    end.

(** The text the description rules look at: the lower-cased title and,
    when there are messages, the first two and the last two. *)
Definition description_content (title : str) (messages : list str) : str :=
  let content := lower title in
  match messages with
  | [] => content
  | _ :: _ =>
      content ++ py " "
              ++ join (py " ") (firstn 2 messages ++ lastn 2 messages)
  end.

(** The description before the fallback: the parts joined by ". ". *)
Definition combined_description (title : str) (messages : list str) : str :=
  let content := description_content title messages in
  let description_parts := topic_parts content messages in
  let deliverables := extract_deliverables content in
  let description_parts :=
    match deliverables with
    | [] => description_parts
    | _ :: _ =>
        description_parts ++ [py "Created: " ++ join (py ", ") deliverables]
    end in
  let tools := extract_tools content in
  let description_parts :=
    match tools with
    | [] => description_parts
    | _ :: _ => description_parts ++ [py "Using: " ++ join (py ", ") tools]
    end in
  join (py ". ") description_parts.

(** The loop that looks for a message of more than 100 characters. *)
Fixpoint snippet (description : str) (messages : list str) : str :=
  match messages with
  | [] => description
  | msg :: rest =>
      if Nat.ltb 100 (length msg) then firstn 200 msg ++ py "..."
      else snippet description rest
  end.

Definition create_intelligent_description (title : str)
    (messages : list str) : str :=
  let description := combined_description title messages in
  let description :=
    if Nat.ltb (length description) 50
       && negb (match messages with [] => true | _ :: _ => false end)
    then snippet description messages
    else description in
  firstn 300 description.

End Classifier.

(** ** Record Builder *)

(** The dictionary [extract_conversation_details] returns. The keys the
    batch processor reads with [get] and a default may be absent, so they
    are options; [source_file] is set by the batch processor only. *)
Record conversation_record : Type := Row {
  name : str;
  description : str;
  category : list str;
  tags : list str;
  date : option str;
  date_source : str;
  relevance_score : float;
  message_volume : nat;
  creator : str;
  type : str;
  url : str;
  source_file : option str
}.

(** Two decimal digits. *)
Definition digit (n : Z) : char := (48 + Z.to_N (n mod 10))%N.
Definition two_digits (n : Z) : str := [digit (n / 10); digit n].

(** The decimal digits of a number, without leading zeros. *)
Fixpoint decimal_from (fuel : nat) (n : N) : str :=
  match fuel with
  | O => []
  | S fuel' =>
      if (n <? 10)%N then [(48 + n)%N]
      else decimal_from fuel' (n / 10)%N ++ [(48 + n mod 10)%N]
  end.

Definition decimal (n : N) : str := decimal_from (S (N.to_nat (N.log2 n))) n.

(** [d.strftime('%Y-%m-%d')] as CPython 3.11 gives it with the C library of
    Linux: month and day on two digits, but the year without leading
    zeros, so that a year below 1000 takes fewer than four characters (the
    25th of July 385 is 385-07-25). The year of a [datetime] lies between
    1 and 9999. *)
Definition strftime_ymd (d : calendar) : str :=
  decimal (Z.to_N (year d)) ++ py "-" ++ two_digits (month d) ++ py "-"
          ++ two_digits (day d).

(** The truth value of a timestamp in [if create_time:]. *)
Definition truthy (t : time_value) : bool :=
  match t with
  | No_time => false
  | Time (Int z) => negb (Z.eqb z 0)
  | Time (Float f) => negb (PrimFloat.eqb f 0%float)
  | Not_a_number b => b
  end.

Section Builder.

Context {R : Runtime}.

Definition count_hits (patterns : list str) (content : str) : nat :=
  length (filter (fun pattern => contains pattern content) patterns).

(** [category_scores]: the categories with at least one hit, in the order
    of [category_patterns]. *)
Definition category_scores (content : str) : list (str * nat) :=
  filter (fun entry => Nat.ltb 0 (snd entry))
         (map (fun entry => (fst entry, count_hits (snd entry) content))
              category_patterns).

Definition determine_categories (title description : str)
    (messages : list str) : list str :=
  let content :=
    lower (title ++ py " " ++ description ++ py " "
                 ++ join (py " ") (firstn 5 messages)) in
  let scores := category_scores content in
  let sorted_categories :=
    stable_sort (fun a b => Nat.ltb (snd b) (snd a)) scores in
  let categories := map fst (firstn 3 sorted_categories) in
  match categories with
  | _ :: _ => categories
  | [] =>
      if any_in ["prompt"; "template"; "system"]%string content
      then [py "Prompt Engineering"]
      else if any_in ["email"; "sequence"; "newsletter"]%string content
      then [py "Copywriting - Emails"]
      else if any_in ["strategy"; "planning"; "framework"]%string content
      then [py "Business Strategy"]
      else if any_in ["research"; "customer"; "avatar"]%string content
      then [py "Customer Research"]
      else [py "General Chat"]
  end.

(** [word in content] *)
Definition mentions (content : str) (word : string) : bool :=
  contains (py word) content.

(** [if test: tags.add(tag)] *)
Definition add_if (test : bool) (tag : string) (members : list str)
    : list str :=
  if test then set_add (py tag) members else members.

Definition generate_specific_tags (title description : str)
    (messages : list str) : list str :=
  let content :=
    lower (title ++ py " " ++ description ++ py " "
                 ++ join (py " ") (firstn 3 messages)) in
  let tags :=
    fold_left
      (fun tags pattern =>
         if contains pattern content
         then set_add (title_case pattern) tags else tags)
      (flat_map snd tag_patterns) [] in
  let tags :=
    add_if (mentions content "gtr" || mentions content "receipts")
           "GTR" tags in
  let tags := add_if (mentions content "tnt") "TNT" tags in
  let tags := add_if (mentions content "paleohacks") "PaleoHacks" tags in
  let tags := add_if (mentions content "framework") "Framework" tags in
  let tags := add_if (mentions content "template") "Template" tags in
  let tags :=
    add_if (mentions content "automation" || mentions content "n8n")
           "Automation" tags in
  let tags :=
    add_if (mentions content "analysis" || mentions content "audit")
           "Analysis" tags in
  let tags :=
    add_if (mentions content "email sequence") "Email Sequence" tags in
  let tags :=
    add_if (mentions content "landing page") "Landing Page" tags in
  let tags := add_if (mentions content "sales page") "Sales Page" tags in
  let tags := add_if (mentions content "vsl") "VSL" tags in
  match tags with
  | [] => [py "General"]
  | _ :: _ => firstn 5 (set_order tags)
  end.

(** The characters [clean_title] keeps: \w, \s and - : , . ( ) with the
    en and em dashes. *)
Definition kept_in_title (c : char) : bool :=
  is_word c || is_space c
  || existsb (N.eqb c) [45; en_dash; em_dash; 58; 44; 46; 40; 41]%N.

Definition clean_title (title : str) : outcome str :=
  title <- unescape title ;;
  let title := filter kept_in_title title in
  Returns (firstn 100 title).

Definition generate_id (title : str) : outcome str :=
  bytes <- encode title ;;
  Returns (firstn 12 (md5_hexdigest bytes)).

(** The conversion of the timestamp: the date string, if any, and the
    date source. *)
Definition convert_timestamp (create_time : time_value)
    : option str * str :=
  let date_str := None in
  let date_source := py "missing" in
  if truthy create_time then
    match create_time with
    | Time n =>
        match fromtimestamp n with
        | Returns date_obj => (Some (strftime_ymd date_obj), py "exact")
        | Raises => (date_str, date_source)
        end
    | _ => (date_str, date_source)
    end
  else (date_str, date_source).

Definition extract_conversation_details (conv_data : conv_data)
    : outcome (option conversation_record) :=
  let title :=
    match conv_title conv_data with Some t => t | None => [] end in
  if match title with [] => true | _ :: _ => false end
     || str_eqb title (py "New conversation")
  then Returns None
  else
    let create_time := conv_create_time conv_data in
    let '(date_str, date_source) := convert_timestamp create_time in
    let messages :=
      match conv_messages conv_data with Some l => l | None => [] end in
    messages <-
      match messages, conv_raw_text conv_data with
      | [], Some raw_text => extract_messages_from_raw raw_text
      | _, _ => Returns messages
      end ;;
    let description := create_intelligent_description title messages in
    let categories := determine_categories title description messages in
    let tags := generate_specific_tags title description messages in
    let relevance_score :=
      calculate_relevance_score title description categories tags
                                messages in
    let message_volume := length messages in
    name <- clean_title title ;;
    id <- generate_id title ;;
    Returns (Some {|
      name := name;
      description := description;
      category := categories;
      tags := tags;
      date := Some (match date_str with Some d => d | None => [] end);
      date_source := date_source;
      relevance_score := relevance_score;
      message_volume := message_volume;
      creator := py "Piet Weinman";
      type := py "chatgpt";
      url := py "https://chat.openai.com/c/" ++ id;
      source_file := None |}).

End Builder.

(** ** Reading one export ([parse_chatgpt_export]) *)

Section Reader.

Context {R : Runtime}.

(** The loop over the conversations read: a conversation for which
    [extract_conversation_details] returns [None] is left out, and an
    exception leaves the loop. *)
Fixpoint parse_conversations (data : list conv_data)
    : outcome (list conversation_record) :=
  match data with
  | [] => Returns []
  | conv_data :: rest =>
      parsed <- extract_conversation_details conv_data ;;
      conversations <- parse_conversations rest ;;
      Returns (match parsed with
               | Some record => record :: conversations
               | None => conversations
               end)
  end.

(** [parse_chatgpt_export], from the content of the file. *)
Definition parse_chatgpt_export (content : str)
    : outcome (list conversation_record) :=
  data <-
    (if startswith (py "[") content then
       loaded <- json_loads content ;;
       match loaded with
       | Json_array data => Returns data
       | Json_object _ => Raises
       end
     else if startswith (py "{") content then
       loaded <- json_loads content ;;
       match loaded with
       | Json_object data => Returns [data]
       | Json_array _ => Raises
       end
     else Returns (parse_raw_text_export content)) ;;
  parse_conversations data.

End Reader.

(** ** Batch processor ([process_multiple_files]) *)

(** [a < b] on strings: lexicographic on the code points. *)
Fixpoint str_ltb (a b : str) : bool :=
  match a, b with
  | _, [] => false
  | [], _ :: _ => true
  | x :: a', y :: b' => N.ltb x y || (N.eqb x y && str_ltb a' b')
  end.

(** [os.path.basename(path)]: what follows the last slash. *)
Fixpoint basename (path : str) : str :=
  match path with
  | [] => []
  | c :: rest =>
      if existsb (N.eqb 47%N) rest then basename rest
      else if N.eqb c 47%N then rest else path
  end.

(** [conv['source_file'] = file] *)
Definition set_source_file (file : str) (conv : conversation_record)
    : conversation_record :=
  {| name := name conv; description := description conv;
     category := category conv; tags := tags conv; date := date conv;
     date_source := date_source conv;
     relevance_score := relevance_score conv;
     message_volume := message_volume conv; creator := creator conv;
     type := type conv; url := url conv; source_file := Some file |}.

(** [conv.get('date', default)] *)
Definition get_date (conv : conversation_record) (default : string) : str :=
  match date conv with
  | Some d => d
  | None => py default
  end.

(** The key of the duplicate check: [(conv['name'], conv.get('date', ''))]. *)
Definition dedup_key (conv : conversation_record) : str * str :=
  (name conv, get_date conv "").

Definition key_eqb (a b : str * str) : bool :=
  str_eqb (fst a) (fst b) && str_eqb (snd a) (snd b).

(** One turn of the duplicate loop on its state, the set [seen] and the
    list [unique_conversations]. *)
Definition dedup_step
    (state : list (str * str) * list conversation_record)
    (conv : conversation_record)
    : list (str * str) * list conversation_record :=
  let '(seen, unique_conversations) := state in
  let key := dedup_key conv in
  if negb (existsb (key_eqb key) seen)
  then (key :: seen, unique_conversations ++ [conv])
  else (seen, unique_conversations).

Definition remove_duplicates (all_conversations : list conversation_record)
    : list conversation_record :=
  snd (fold_left dedup_step all_conversations ([], [])).

(** The key of the final sort: [x.get('date', '9999-99-99')]. *)
Definition sort_key (x : conversation_record) : str :=
  get_date x "9999-99-99".

(** [unique_conversations.sort(key=...)] *)
Definition sort_by_date (unique_conversations : list conversation_record)
    : list conversation_record :=
  stable_sort (fun a b => str_ltb (sort_key a) (sort_key b))
              unique_conversations.

Section Batch.

Context {R : Runtime}.

(** The conversations of one file, each marked with the file's name; a
    file whose reading raises contributes nothing. *)
Definition conversations_of (file : str * str)
    : list conversation_record :=
  let '(file_path, content) := file in
  match parse_chatgpt_export content with
  | Returns conversations =>
      map (set_source_file (basename file_path)) conversations
  | Raises => []
  end.

End Batch.

(** ** A concrete runtime

    CPython's behaviour on ASCII text, for a process whose local time zone
    is UTC. Outside that domain the instance is a simplification: letters
    beyond ASCII have no case and belong to no class, no character name is
    known to \N{...}, [float] reads unsigned decimals only (the only
    strings the converter passes to it), no file is accepted as JSON, and a
    set yields its members in insertion order (one of the orders a hash
    table can produce). *)

Module Ascii_runtime.

Open Scope N_scope.

Definition lower_char (c : char) : char :=
  if is_upper c then c + 32 else c.

Definition ascii_space (c : char) : bool :=
  ((9 <=? c) && (c <=? 13)) || ((28 <=? c) && (c <=? 32)).

Definition ascii_digit (c : char) : bool := (48 <=? c) && (c <=? 57).

Definition ascii_word (c : char) : bool :=
  ascii_digit c || is_upper c || is_lower c || (c =? 95).

Definition ascii_same_letter (pattern c : char) : bool :=
  lower_char pattern =? lower_char c.

(** *** [float] on an unsigned decimal *)

Fixpoint digits_value (acc : Z) (s : str) : option Z :=
  match s with
  | [] => Some acc
  | c :: s' =>
      if ascii_digit c
      then digits_value (acc * 10 + Z.of_N (c - 48))%Z s'
      else None
  end.

Fixpoint split_at_dot (s : str) : str * option str :=
  match s with
  | [] => ([], None)
  | c :: s' =>
      if c =? 46 then ([], Some s')
      else let '(whole, fraction) := split_at_dot s' in
           (c :: whole, fraction)
  end.

(** The binary64 number nearest to [m / 10 ^ k]. *)
Definition nearest_float (m : Z) (k : nat) : float :=
  match m with
  | Zpos p =>
      SF2Prim (SFdiv prec emax (S754_finite false p 0)
                     (S754_finite false (Z.to_pos (10 ^ Z.of_nat k)) 0))
  | _ => 0%float
  end.

Definition ascii_float (s : str) : outcome float :=
  let '(whole, fraction) := split_at_dot s in
  let fraction := match fraction with Some f => f | None => [] end in
  match whole ++ fraction with
  | [] => Raises
  | digits =>
      match digits_value 0 digits with
      | Some m => Returns (nearest_float m (length fraction))
      | None => Raises
      end
  end.

(** *** [datetime.fromtimestamp] in UTC *)

Open Scope Z_scope.

(** The timestamp in microseconds, rounded half to even. *)
Definition microseconds (t : number) : outcome Z :=
  match t with
  | Int z => Returns (z * 1000000)
  | Float f =>
      match Prim2SF f with
      | S754_zero _ => Returns 0
      | S754_finite negative m e =>
          let n := (if negative then - Zpos m else Zpos m) * 1000000 in
          if 0 <=? e then Returns (n * 2 ^ e)
          else
            let d := 2 ^ (- e) in
            let q := n / d in
            let r := n mod d in
            if (d <? 2 * r) || ((d =? 2 * r) && Z.odd q)
            then Returns (q + 1) else Returns q
      | _ => Raises
      end
  end.

(** The proleptic Gregorian date of a day counted from 1970-01-01. *)
Definition civil_from_days (days : Z) : calendar :=
  let z := days + 719468 in
  let era := z / 146097 in
  let doe := z - era * 146097 in
  let yoe := (doe - doe / 1460 + doe / 36524 - doe / 146096) / 365 in
  let doy := doe - (365 * yoe + yoe / 4 - yoe / 100) in
  let mp := (5 * doy + 2) / 153 in
  let d := doy - (153 * mp + 2) / 5 + 1 in
  let m := if mp <? 10 then mp + 3 else mp - 9 in
  let y := yoe + era * 400 + (if m <=? 2 then 1 else 0) in
  {| year := y; month := m; day := d |}.

Definition utc_fromtimestamp (t : number) : outcome calendar :=
  us <- microseconds t ;;
  let date := civil_from_days (us / 86400000000) in
  if (1 <=? year date) && (year date <=? 9999)
  then Returns date else Raises.

Close Scope Z_scope.

(** *** MD5 (RFC 1321) *)

Definition word (x : N) : N := x mod 4294967296.

Definition rotate_left (x : N) (s : N) : N :=
  word (N.lor (N.shiftl x s) (N.shiftr x (32 - s))).

Definition sines : list N :=
  [3614090360; 3905402710; 606105819; 3250441966;
   4118548399; 1200080426; 2821735955; 4249261313;
   1770035416; 2336552879; 4294925233; 2304563134;
   1804603682; 4254626195; 2792965006; 1236535329;
   4129170786; 3225465664; 643717713; 3921069994;
   3593408605; 38016083; 3634488961; 3889429448;
   568446438; 3275163606; 4107603335; 1163531501;
   2850285829; 4243563512; 1735328473; 2368359562;
   4294588738; 2272392833; 1839030562; 4259657740;
   2763975236; 1272893353; 4139469664; 3200236656;
   681279174; 3936430074; 3572445317; 76029189;
   3654602809; 3873151461; 530742520; 3299628645;
   4096336452; 1126891415; 2878612391; 4237533241;
   1700485571; 2399980690; 4293915773; 2240044497;
   1873313359; 4264355552; 2734768916; 1309151649;
   4149444226; 3174756917; 718787259; 3951481745].

Definition shifts : list N :=
  [7; 12; 17; 22; 7; 12; 17; 22; 7; 12; 17; 22; 7; 12; 17; 22;
   5; 9; 14; 20; 5; 9; 14; 20; 5; 9; 14; 20; 5; 9; 14; 20;
   4; 11; 16; 23; 4; 11; 16; 23; 4; 11; 16; 23; 4; 11; 16; 23;
   6; 10; 15; 21; 6; 10; 15; 21; 6; 10; 15; 21; 6; 10; 15; 21].

(** Little-endian bytes of a number, and back. *)
Fixpoint le_bytes (count : nat) (x : N) : list N :=
  match count with
  | O => []
  | S count' => x mod 256 :: le_bytes count' (x / 256)
  end.

Fixpoint le_value (bytes : list N) : N :=
  match bytes with
  | [] => 0
  | b :: rest => b + 256 * le_value rest
  end.

Definition pad (message : list N) : list N :=
  let len := N.of_nat (length message) in
  let zeros := N.to_nat ((119 - len mod 64) mod 64) in
  message ++ [128] ++ repeat 0 zeros ++ le_bytes 8 (8 * len).

(** The sixteen words of a 64-byte block. *)
Fixpoint words (count : nat) (block : list N) : list N :=
  match count with
  | O => []
  | S count' => le_value (firstn 4 block) :: words count' (skipn 4 block)
  end.

Definition round (m : list N) (state : N * N * N * N) (i : N)
    : N * N * N * N :=
  let '(a, b, c, d) := state in
  let not_b := N.lxor b 4294967295 in
  let not_d := N.lxor d 4294967295 in
  let '(f, g) :=
    if i <? 16 then (N.lor (N.land b c) (N.land not_b d), i)
    else if i <? 32
    then (N.lor (N.land d b) (N.land not_d c), (5 * i + 1) mod 16)
    else if i <? 48
    then (N.lxor b (N.lxor c d), (3 * i + 5) mod 16)
    else (N.lxor c (N.lor b not_d), (7 * i) mod 16) in
  let f := word (f + a + nth (N.to_nat i) sines 0 + nth (N.to_nat g) m 0) in
  (d, word (b + rotate_left f (nth (N.to_nat i) shifts 0)), b, c).

Definition compress (state : N * N * N * N) (block : list N)
    : N * N * N * N :=
  let m := words 16 block in
  let '(a0, b0, c0, d0) := state in
  let '(a, b, c, d) :=
    fold_left (round m) (map N.of_nat (seq 0 64)) state in
  (word (a0 + a), word (b0 + b), word (c0 + c), word (d0 + d)).

Fixpoint blocks (count : nat) (bytes : list N) : list (list N) :=
  match count with
  | O => []
  | S count' => firstn 64 bytes :: blocks count' (skipn 64 bytes)
  end.

Definition hex_digit (x : N) : char := if x <? 10 then 48 + x else 87 + x.

Definition hex_byte (b : N) : str := [hex_digit (b / 16); hex_digit (b mod 16)].

Definition md5 (message : list N) : str :=
  let padded := pad message in
  let '(a, b, c, d) :=
    fold_left compress (blocks (length padded / 64) padded)
              (1732584193, 4023233417, 2562383102, 271733878) in
  flat_map hex_byte
           (le_bytes 4 a ++ le_bytes 4 b ++ le_bytes 4 c ++ le_bytes 4 d).

Close Scope N_scope.

End Ascii_runtime.

#[export] Instance ascii_runtime : Runtime := {|
  lower := map Ascii_runtime.lower_char;
  is_space := Ascii_runtime.ascii_space;
  is_digit := Ascii_runtime.ascii_digit;
  is_word := Ascii_runtime.ascii_word;
  same_letter := Ascii_runtime.ascii_same_letter;
  unicode_name := fun _ => None;
  float_of_str := Ascii_runtime.ascii_float;
  fromtimestamp := Ascii_runtime.utc_fromtimestamp;
  json_loads := fun _ => Raises;
  md5_hexdigest := Ascii_runtime.md5;
  set_order := fun members => members;
  set_order_perm := fun members => Permutation_refl members
|}.

(** ** Sample inputs *)

(** The block of the specification's extraction example. *)
Definition literal_block : str :=
  quoted "title" ++ py ": " ++ quoted "Test" ++ py ", "
    ++ quoted "create_time" ++ py ": 1700000000, "
    ++ quoted "parts" ++ py ": ["
    ++ quoted "A message over twenty chars long for sure" ++ py "]".

(** ** Specification-side notions for the batch processor *)

(** Does the record have this key? *)
Definition has_key (key : str * str) (conv : conversation_record) : bool :=
  key_eqb (dedup_key conv) key.

(** "First occurrence wins": the first record stays and every later record
    with its key goes; so on for the records that remain. *)
Fixpoint first_occurrences (records : list conversation_record)
    : list conversation_record :=
  match records with
  | [] => []
  | conv :: rest =>
      conv :: filter (fun later => negb (has_key (dedup_key conv) later))
                     (first_occurrences rest)
  end.

(** The loop of [remove_duplicates], started with the keys [seen]. *)
Fixpoint unseen (seen : list (str * str))
    (records : list conversation_record) : list conversation_record :=
  match records with
  | [] => []
  | conv :: rest =>
      if existsb (key_eqb (dedup_key conv)) seen then unseen seen rest
      else conv :: unseen (dedup_key conv :: seen) rest
  end.

(** [a <= b] on sort keys. *)
Definition key_le (a b : conversation_record) : Prop :=
  str_ltb (sort_key b) (sort_key a) = false.

(** [subsequence a b]: [a] is [b] with some items left out, the others
    unchanged and in the same order. *)
Inductive subsequence {A : Type} : list A -> list A -> Prop :=
| subsequence_nil : subsequence [] []
| subsequence_keep x a b : subsequence a b -> subsequence (x :: a) (x :: b)
| subsequence_skip x a b : subsequence a b -> subsequence a (x :: b).

(** A record as the record builder makes it, with the given name and date. *)
Definition sample_record (title date_str source : string)
    : conversation_record :=
  {| name := py title; description := []; category := [py "General Chat"];
     tags := [py "General"]; date := Some (py date_str);
     date_source := py (if String.eqb date_str "" then "missing" else "exact");
     relevance_score := 0.19999999999999998%float; message_volume := 0;
     creator := py "Piet Weinman"; type := py "chatgpt";
     url := py "https://chat.openai.com/c/000000000000";
     source_file := Some (py source) |}.

(** An export with three conversations: one of 2024-03-01, one without a
    creation time, one of 2024-01-01. *)
Definition three_conversations : str :=
  quoted "title" ++ py ": " ++ quoted "March" ++ py ", "
    ++ quoted "create_time" ++ py ": 1709251200, "
    ++ quoted "title" ++ py ": " ++ quoted "Undated" ++ py ", "
    ++ quoted "title" ++ py ": " ++ quoted "January" ++ py ", "
    ++ quoted "create_time" ++ py ": 1704067200".

(** The conversation read from [literal_block], and the record built from
    it. *)
Definition sample_conversation : conv_data :=
  {| conv_title := Some (py "Test");
     conv_create_time := Time (Float 1700000000%float);
     conv_update_time := No_time;
     conv_messages := Some [py "A message over twenty chars long for sure"];
     conv_raw_text := Some (skipn 10 literal_block) |}.

Definition sample_built : conversation_record :=
  {| name := py "Test";
     description := py "AI persona development for GTR quiz funnel";
     category := [project "Get The Receipts (GTR)";
                  py "AI Bot Configurations"; py "Customer Research"];
     tags := [py "Funnel"; py "Sage"; py "GTR"];
     date := Some (py "2023-11-14");
     date_source := py "exact";
     relevance_score := 0.59999999999999998%float;
     message_volume := 1;
     creator := py "Piet Weinman";
     type := py "chatgpt";
     url := py "https://chat.openai.com/c/0cbc6611f554";
     source_file := None |}.

(** The first message of more than 100 characters, if any. *)
Definition first_long (messages : list str) : option str :=
  find (fun msg => Nat.ltb 100 (length msg)) messages.

(** A message of 120 letters. *)
Definition long_message : str := repeat (chr "a") 120.

(** ** What a regular expression matches

    [Matches r text before after]: the expression matches exactly [text];
    [before] is the group captured so far and [after] the group once
    [text] is matched. *)
Inductive Matches : regex -> str -> option str -> option str -> Prop :=
| Matches_class p c cap :
    p c = true -> Matches (Class p) [c] cap cap
| Matches_empty cap : Matches Empty [] cap cap
| Matches_then a b m1 m2 c0 c1 c2 :
    Matches a m1 c0 c1 -> Matches b m2 c1 c2 ->
    Matches (Then a b) (m1 ++ m2) c0 c2
| Matches_or_left a b m c0 c1 :
    Matches a m c0 c1 -> Matches (Or a b) m c0 c1
| Matches_or_right a b m c0 c1 :
    Matches b m c0 c1 -> Matches (Or a b) m c0 c1
| Matches_star_stop a cap : Matches (Star a) [] cap cap
| Matches_star_more a m1 m2 c0 c1 c2 :
    m1 <> [] -> Matches a m1 c0 c1 -> Matches (Star a) m2 c1 c2 ->
    Matches (Star a) (m1 ++ m2) c0 c2
| Matches_group a m c0 c1 :
    Matches a m c0 c1 -> Matches (Group a) m c0 (Some m).

(** [Scan r text groups]: reading [text] from the left, [groups] are the
    groups of the successive matches of [r]: a position where [r] does not
    match is passed over, and after a match the reading resumes behind it. *)
Inductive Scan (r : regex) : str -> list str -> Prop :=
| Scan_end : Scan r [] []
| Scan_pass c text groups :
    re_match r (c :: text) = None ->
    Scan r text groups -> Scan r (c :: text) groups
| Scan_match matched rest cap groups :
    matched <> [] ->
    re_match r (matched ++ rest) = Some (cap, rest) ->
    Matches r matched None cap ->
    Scan r rest groups ->
    Scan r (matched ++ rest) (group1 (cap, rest) :: groups).

(** A conversation with a title and nothing else. *)
Definition bare_conversation : conv_data :=
  {| conv_title := Some (py "Hello");
     conv_create_time := No_time;
     conv_update_time := No_time;
     conv_messages := None;
     conv_raw_text := None |}.

(** A title with a Windows path: the characters after the backslash are no
    escape. *)
Definition windows_title : str := py "C:\Users".

(** A conversation with that title. *)
Definition windows_conversation : conv_data :=
  {| conv_title := Some windows_title;
     conv_create_time := No_time;
     conv_update_time := No_time;
     conv_messages := Some [];
     conv_raw_text := None |}.

(** An export with two conversations, the second with that title. *)
Definition windows_export : str :=
  quoted "title" ++ py ": " ++ quoted "Plan" ++ py ", "
    ++ quoted "title" ++ py ": " ++ quoted "C:\Users" ++ py ", ".

(** The character class of a phrase: anything but a full stop, an
    exclamation mark or a question mark. *)
Definition in_phrase (c : char) : bool :=
  negb (N.eqb c 46 || N.eqb c 33 || N.eqb c 63).

(** What is asked of a key phrase. *)
Definition well_cut (p : str) : Prop :=
  p <> [] /\ length p <= 30 /\ Forall (fun c => in_phrase c = true) p.

(** The words of the fallback chain of [determine_categories]. *)
Definition fallback_words : list string :=
  ["prompt"; "template"; "system"; "email"; "sequence"; "newsletter";
   "strategy"; "planning"; "framework"; "research"; "customer";
   "avatar"]%string.

(** The categories the fallback chain can give. *)
Definition fallback_categories : list str :=
  map py ["Prompt Engineering"; "Copywriting - Emails"; "Business Strategy";
          "Customer Research"; "General Chat"]%string.

(** ** Writing the table ([convert_to_csv]) *)

(** [round(x, 2)]: the decimal with two places nearest to the exact value
    of [x], ties to the even one, read back as a float; an infinity or a
    NaN is returned as it is. *)
Definition round_half_even (n d : Z) : Z :=
  let q := (n / d)%Z in
  let r := (n mod d)%Z in
  if ((d <? 2 * r) || ((d =? 2 * r) && Z.odd q))%Z then (q + 1)%Z else q.

Definition py_round2 (x : float) : float :=
  match Prim2SF x with
  | S754_finite negative m e =>
      let hundredths :=
        if (0 <=? e)%Z then (Zpos m * 2 ^ e * 100)%Z
        else round_half_even (Zpos m * 100) (2 ^ (- e)) in
      let rounded := Ascii_runtime.nearest_float hundredths 2 in
      if negative then PrimFloat.opp rounded else rounded
  | _ => x
  end.

(** One line of the table. *)
Record csv_row : Type := Csv_row {
  row_name : str;
  row_description : str;
  row_category : str;
  row_tags : str;
  row_date : str;
  row_date_source : str;
  row_relevance_score : float;
  row_message_volume : nat;
  row_creator : str;
  row_type : str;
  row_url : str
}.

(** The dictionary appended to [csv_data]; [conv['date']] raises [KeyError]
    when the key is absent. *)
Definition csv_row_of (conv : conversation_record) : outcome csv_row :=
  match date conv with
  | None => Raises
  | Some d =>
      Returns {| row_name := name conv;
                 row_description := description conv;
                 row_category := join (py "|") (category conv);
                 row_tags := join (py ",") (tags conv);
                 row_date := d;
                 row_date_source := date_source conv;
                 row_relevance_score := py_round2 (relevance_score conv);
                 row_message_volume := message_volume conv;
                 row_creator := creator conv;
                 row_type := type conv;
                 row_url := url conv |}
  end.

Fixpoint csv_rows (chunk : list conversation_record)
    : outcome (list csv_row) :=
  match chunk with
  | [] => Returns []
  | conv :: rest =>
      row <- csv_row_of conv ;;
      rows <- csv_rows rest ;;
      Returns (row :: rows)
  end.

(** The format [03d]: at least three digits, zeros in front. *)
Definition pad3 (n : N) : str :=
  repeat 48%N (3 - length (decimal n)) ++ decimal n.

(** The name of a chunk's file. *)
Definition chunk_filename (output_path : str) (chunk_num : nat) : str :=
  output_path ++ py "_chunk_" ++ pad3 (N.of_nat chunk_num) ++ py ".csv".

(** The turns of [for i in range(0, len(conversations), chunk_size)], of
    which there are [count]: each takes [conversations[i:i+chunk_size]]. *)
Fixpoint chunks_from {A} (count i chunk_size : nat) (conversations : list A)
    : list (nat * list A) :=
  match count with
  | O => []
  | S count' =>
      (i, firstn chunk_size (skipn i conversations))
        :: chunks_from count' (i + chunk_size) chunk_size conversations
  end.

(** What [to_csv] asks of a text: the file is written as UTF-8, which has
    no encoding for a surrogate code point ([UnicodeEncodeError]). *)
Definition encodable (s : str) : bool :=
  match encode s with
  | Returns _ => true
  | Raises => false
  end.

(** The texts of a line. *)
Definition row_texts (row : csv_row) : list str :=
  [row_name row; row_description row; row_category row; row_tags row;
   row_date row; row_date_source row; row_creator row; row_type row;
   row_url row].

(** [df.to_csv(filename, index=False, quoting=csv.QUOTE_MINIMAL)] on the
    lines of a chunk. The file system is taken to accept the file; what is
    left to fail is the encoding of the texts. *)
Definition to_csv (csv_data : list csv_row) : outcome unit :=
  if forallb (fun row => forallb encodable (row_texts row)) csv_data
  then Returns tt
  else Raises.

(** The files [convert_to_csv] writes, each with its lines; the function
    returns their names. *)
Fixpoint write_chunks (output_path : str) (chunk_size : nat)
    (chunks : list (nat * list conversation_record))
    : outcome (list (str * list csv_row)) :=
  match chunks with
  | [] => Returns []
  | (i, chunk) :: rest =>
      csv_data <- csv_rows chunk ;;
      let chunk_num := i / chunk_size + 1 in
      let filename := chunk_filename output_path chunk_num in
      written <- to_csv csv_data ;;
      files <- write_chunks output_path chunk_size rest ;;
      Returns ((filename, csv_data) :: files)
  end.

(** [range(0, len(conversations), chunk_size)] raises on a step of zero
    and is empty for a negative step: no file is written then. *)
Definition convert_to_csv (conversations : list conversation_record)
    (output_path : str) (chunk_size : Z)
    : outcome (list (str * list csv_row)) :=
  if (chunk_size =? 0)%Z then Raises
  else if (chunk_size <? 0)%Z then Returns []
  else
    let size := Z.to_nat chunk_size in
    let count := (length conversations + size - 1) / size in
    write_chunks output_path size (chunks_from count 0 size conversations).

(** The scores that one line of the table can show. *)
Definition table_scores : list float :=
  [0.2; 0.3; 0.35; 0.4; 0.45; 0.5; 0.55; 0.6; 0.65; 0.7; 0.75; 0.8; 0.85;
   0.9; 0.95; 1.0]%float.

(** The number a text of decimal digits stands for. *)
Definition digits_value (s : str) : N :=
  fold_left (fun acc c => (acc * 10 + (c - 48))%N) s 0%N.

(** ** Reports ([create_summary_report], [create_batch_report]) *)

(** [d[k] = d.get(k, 0) + 1] on a dictionary; the keys of a dictionary
    stay in the order of their first insertion. *)
Fixpoint count_one (d : list (str * nat)) (k : str) : list (str * nat) :=
  match d with
  | [] => [(k, 1)]
  | (k', n) :: rest =>
      if str_eqb k' k then (k', S n) :: rest
      else (k', n) :: count_one rest k
  end.

(** [d.get(k, 0)] *)
Fixpoint get_count (d : list (str * nat)) (k : str) : nat :=
  match d with
  | [] => 0
  | (k', n) :: rest => if str_eqb k' k then n else get_count rest k
  end.

(** How often a key occurs in a list. *)
Definition occurrences (k : str) (keys : list str) : nat :=
  length (filter (str_eqb k) keys).

(** The keys of a list, each once, in the order of their first
    occurrence. *)
Fixpoint first_seen (keys : list str) : list str :=
  match keys with
  | [] => []
  | k :: rest => k :: filter (fun x => negb (str_eqb k x)) (first_seen rest)
  end.

(** The dictionary after a loop that counts every key of a list;
    [Counter(keys)] is the same dictionary. *)
Definition counts (keys : list str) : list (str * nat) :=
  fold_left count_one keys [].

(** [dict(counter.most_common(n))]: the [n] largest counts, the largest
    first, keys with the same count in the order of the counter. *)
Definition most_common (n : nat) (counter : list (str * nat))
    : list (str * nat) :=
  firstn n (stable_sort (fun a b => Nat.ltb (snd b) (snd a)) counter).

(** The three counters of the relevance distribution. *)
Record relevance_distribution : Type := Relevance_distribution {
  high : nat;
  medium : nat;
  low : nat
}.

Definition count_relevance (distribution : relevance_distribution)
    (score : float) : relevance_distribution :=
  if PrimFloat.leb 0.8 score then
    {| high := S (high distribution); medium := medium distribution;
       low := low distribution |}
  else if PrimFloat.leb 0.5 score then
    {| high := high distribution; medium := S (medium distribution);
       low := low distribution |}
  else
    {| high := high distribution; medium := medium distribution;
       low := S (low distribution) |}.

Definition relevance_counts (scores : list float) : relevance_distribution :=
  fold_left count_relevance scores {| high := 0; medium := 0; low := 0 |}.

(** [[c['date'] for c in conversations if c['date']]] *)
Fixpoint nonempty_dates (conversations : list conversation_record)
    : outcome (list str) :=
  match conversations with
  | [] => Returns []
  | c :: rest =>
      match date c with
      | None => Raises
      | Some d =>
          dates <- nonempty_dates rest ;;
          Returns (match d with [] => dates | _ :: _ => d :: dates end)
      end
  end.

(** The dates that are there and not empty, in the order of the records. *)
Definition dates_present (conversations : list conversation_record)
    : list str :=
  flat_map (fun conv =>
              match date conv with
              | Some (c :: d) => [c :: d]
              | _ => []
              end)
           conversations.

(** [min] and [max] of a list of strings: [ValueError] on an empty list,
    and the first of several equal items otherwise. *)
Definition min_str (l : list str) : outcome str :=
  match l with
  | [] => Raises
  | x :: rest =>
      Returns (fold_left (fun m y => if str_ltb y m then y else m) rest x)
  end.

Definition max_str (l : list str) : outcome str :=
  match l with
  | [] => Raises
  | x :: rest =>
      Returns (fold_left (fun m y => if str_ltb m y then y else m) rest x)
  end.

(** [sum(1 for c in conversations if not c['date'])] *)
Fixpoint count_missing_dates (conversations : list conversation_record)
    : outcome nat :=
  match conversations with
  | [] => Returns 0
  | c :: rest =>
      match date c with
      | None => Raises
      | Some d =>
          n <- count_missing_dates rest ;;
          Returns (match d with [] => S n | _ :: _ => n end)
      end
  end.

(** The report of [create_summary_report], as it is written to the file. *)
Record summary_report : Type := Summary_report {
  total_conversations : nat;
  earliest : str;
  latest : str;
  categories_distribution : list (str * nat);
  top_tags : list (str * nat);
  relevance : relevance_distribution;
  missing_dates : nat
}.

Definition create_summary_report (conversations : list conversation_record)
    : outcome summary_report :=
  dates <- nonempty_dates conversations ;;
  earliest <- min_str dates ;;
  dates <- nonempty_dates conversations ;;
  latest <- max_str dates ;;
  let categories_distribution := counts (flat_map category conversations) in
  let all_tags := flat_map tags conversations in
  let top_tags := most_common 20 (counts all_tags) in
  let relevance := relevance_counts (map relevance_score conversations) in
  missing_dates <- count_missing_dates conversations ;;
  Returns {| total_conversations := length conversations;
             earliest := earliest;
             latest := latest;
             categories_distribution := categories_distribution;
             top_tags := top_tags;
             relevance := relevance;
             missing_dates := missing_dates |}.

(** The report of [create_batch_report]; [now] is the rendered time of the
    call. The function uses [get] with a default throughout and raises on
    no list of records. *)
Module Batch_report.

Record statistics : Type := Statistics {
  by_source_file : list (str * nat);
  by_date : list (str * nat);
  by_category : list (str * nat);
  by_relevance : relevance_distribution;
  top_tags : list (str * nat);
  top_projects : list (str * nat)
}.

Record report : Type := Report {
  processing_date : str;
  source_files : list str;
  total_conversations : nat;
  stats : statistics
}.

End Batch_report.

(** [conv.get('source_file', 'unknown')] *)
Definition get_source_file (conv : conversation_record) : str :=
  match source_file conv with
  | Some source => source
  | None => py "unknown"
  end.

(** The months counted under [by_date]: [conv['date'][:7]] of every record
    whose date is there and not empty. *)
Definition months (conversations : list conversation_record) : list str :=
  flat_map (fun conv =>
              match date conv with
              | Some (c :: d) => [firstn 7 (c :: d)]
              | _ => []
              end)
           conversations.

Definition create_batch_report (now : str)
    (conversations : list conversation_record) (source_files : list str)
    : Batch_report.report :=
  let all_tags := flat_map tags conversations in
  let project_cats :=
    filter (contains (py "Project")) (flat_map category conversations) in
  {| Batch_report.processing_date := now;
     Batch_report.source_files := source_files;
     Batch_report.total_conversations := length conversations;
     Batch_report.stats :=
       {| Batch_report.by_source_file :=
            counts (map get_source_file conversations);
          Batch_report.by_date := counts (months conversations);
          Batch_report.by_category :=
            counts (flat_map category conversations);
          Batch_report.by_relevance :=
            relevance_counts (map relevance_score conversations);
          Batch_report.top_tags := most_common 20 (counts all_tags);
          Batch_report.top_projects :=
            most_common 10 (counts project_cats) |} |}.

(** ** The batch processor, whole ([process_multiple_files])

    [files] are the matching files, path and content, in the order they
    are processed; [now] is the rendered time at which the report is made.
    Nothing is returned when there is nothing to process. Otherwise the
    conversations are collected, the duplicates removed, the list sorted,
    the table written under the name complete_archive with the default
    chunk size, the batch report made of the same list, and the list
    returned; an exception of [convert_to_csv] is not caught. *)
Section Batch_processor.

Context {R : Runtime}.

Definition process_multiple_files (now : str) (files : list (str * str))
    : outcome (option (list conversation_record)) :=
  match files with
  | [] => Returns None
  | _ :: _ =>
      let all_conversations := flat_map conversations_of files in
      match all_conversations with
      | [] => Returns None
      | _ :: _ =>
          let unique_conversations :=
            sort_by_date (remove_duplicates all_conversations) in
          output_files <-
            convert_to_csv unique_conversations (py "complete_archive")
                           500%Z ;;
          let report :=
            create_batch_report now unique_conversations (map fst files) in
          Returns (Some unique_conversations)
      end
  end.

End Batch_processor.

(** ** The command line ([main])

    [main] on the content of the input file: the conversations are read,
    the table is written with the default chunk size, then the report. *)
Section Main.

Context {R : Runtime}.

Definition main (content : str) (output_prefix : str)
    : outcome (list (str * list csv_row) * summary_report) :=
  conversations <- parse_chatgpt_export content ;;
  csv_files <- convert_to_csv conversations output_prefix 500%Z ;;
  report <- create_summary_report conversations ;;
  Returns (csv_files, report).

End Main.

(** One file for the batch processor, and what is read from it. *)
Definition sample_files : list (str * str) :=
  [(py "exports/conv_part_aa.txt", literal_block)].

Definition sample_batch : list conversation_record :=
  [set_source_file (py "conv_part_aa.txt") sample_built].

(** The set [tags] of [generate_specific_tags] before it is cut to five,
    from the lower-cased text. *)
Definition found_tags (content : str) : list str :=
  let tags :=
    fold_left
      (fun tags pattern =>
         if contains pattern content
         then set_add (title_case pattern) tags else tags)
      (flat_map snd tag_patterns) [] in
  let tags :=
    add_if (mentions content "gtr" || mentions content "receipts")
           "GTR" tags in
  let tags := add_if (mentions content "tnt") "TNT" tags in
  let tags := add_if (mentions content "paleohacks") "PaleoHacks" tags in
  let tags := add_if (mentions content "framework") "Framework" tags in
  let tags := add_if (mentions content "template") "Template" tags in
  let tags :=
    add_if (mentions content "automation" || mentions content "n8n")
           "Automation" tags in
  let tags :=
    add_if (mentions content "analysis" || mentions content "audit")
           "Analysis" tags in
  let tags :=
    add_if (mentions content "email sequence") "Email Sequence" tags in
  let tags :=
    add_if (mentions content "landing page") "Landing Page" tags in
  let tags := add_if (mentions content "sales page") "Sales Page" tags in
  add_if (mentions content "vsl") "VSL" tags.

(** The words that [generate_specific_tags] looks for one by one, and the
    tags they add. *)
Definition tag_words : list string :=
  ["gtr"; "receipts"; "tnt"; "paleohacks"; "framework"; "template";
   "automation"; "n8n"; "analysis"; "audit"; "email sequence";
   "landing page"; "sales page"; "vsl"]%string.

Definition fixed_tags : list str :=
  map py ["GTR"; "TNT"; "PaleoHacks"; "Framework"; "Template";
          "Automation"; "Analysis"; "Email Sequence"; "Landing Page";
          "Sales Page"; "VSL"]%string.

(** [sorted(glob.glob(pattern))], from the paths that match. *)
Definition sorted_files (matching : list str) : list str :=
  stable_sort str_ltb matching.

(** Every item of a list comes strictly before the next. *)
Fixpoint ascending (l : list str) : bool :=
  match l with
  | [] => true
  | x :: rest =>
      match rest with
      | [] => true
      | y :: _ => str_ltb x y && ascending rest
      end
  end.

(** Whether a record gets its line into the table: it has a date, and every
    text of its line can be encoded. *)
Definition can_be_written (conv : conversation_record) : bool :=
  match csv_row_of conv with
  | Returns row => forallb encodable (row_texts row)
  | Raises => false
  end.

(** A message of twenty characters, one of them an accented letter, and a
    block of an export that holds it. *)
Definition accented_message : str :=
  py "caf" ++ [233%N] ++ py " au lait is nice".

Definition accented_block : str :=
  quoted "parts" ++ py ": [" ++ [dq] ++ accented_message ++ [dq] ++ py "]".

(** ** Facts about text *)

Lemma str_eqb_eq (a b : str) : str_eqb a b = true <-> a = b.
Proof.
  revert b; induction a as [|x a IH]; intros [|y b]; simpl;
    try (split; congruence).
  rewrite andb_true_iff, N.eqb_eq, IH. split.
  - intros [-> ->]; reflexivity.
  - intros [= -> ->]; auto.
Qed.

Lemma str_eqb_refl (a : str) : str_eqb a a = true.
Proof. apply str_eqb_eq; reflexivity. Qed.

Lemma str_in_In (x : str) (xs : list str) : str_in x xs = true <-> In x xs.
Proof.
  unfold str_in. rewrite existsb_exists. split.
  - intros (y & Hy & E). apply str_eqb_eq in E. subst; assumption.
  - intros H. exists x. split; [assumption | apply str_eqb_refl].
Qed.

Lemma strs_eqb_eq (a b : list str) : strs_eqb a b = true <-> a = b.
Proof.
  revert b; induction a as [|x a IH]; intros [|y b]; simpl;
    try (split; congruence).
  rewrite andb_true_iff, str_eqb_eq, IH. split.
  - intros [-> ->]; reflexivity.
  - intros [= -> ->]; auto.
Qed.

Lemma startswith_prefix (p s : str) :
  startswith p s = true <-> exists t, s = p ++ t.
Proof.
  revert s; induction p as [|x p IH]; intros s; simpl.
  - split; [intros _; exists s; reflexivity | reflexivity].
  - destruct s as [|y s].
    + split; [discriminate | intros [t [=]]].
    + rewrite andb_true_iff, N.eqb_eq, IH. split.
      * intros [-> [t ->]]. exists t; reflexivity.
      * intros [t [= -> ->]]. split; [reflexivity | exists t; reflexivity].
Qed.

(** [contains] is the substring test: some text before, the pattern, some
    text after. *)
Lemma contains_substring (p s : str) :
  contains p s = true <-> exists a b, s = a ++ p ++ b.
Proof.
  induction s as [|y s IH].
  - simpl. rewrite orb_false_r, startswith_prefix. split.
    + intros [t E]. exists [], t. exact E.
    + intros (a & b & E). destruct a as [|? a]; [|discriminate].
      exists b. exact E.
  - cbn [contains]. rewrite orb_true_iff, startswith_prefix, IH. split.
    + intros [[t E] | (a & b & E)].
      * exists [], t. exact E.
      * exists (y :: a), b. rewrite E. reflexivity.
    + intros (a & b & E). destruct a as [|z a].
      * left. exists b. exact E.
      * right. injection E as _ E. exists a, b. exact E.
Qed.

(** Iterating over the fixed options and asking [option in tags] finds the
    same thing as iterating over the tags and asking whether each is one of
    the options. *)
Lemma any_option_in_tags (options tags : list str) :
  existsb (fun tag => str_in tag tags) options
  = existsb (one_of options) tags.
Proof.
  apply eq_true_iff_eq. rewrite !existsb_exists. split.
  - intros (o & Ho & Hin). apply str_in_In in Hin.
    exists o. split; [assumption|]. apply str_in_In. assumption.
  - intros (t & Ht & Hin). apply str_in_In in Hin.
    exists t. split; [assumption|]. apply str_in_In. assumption.
Qed.

(** ** Properties of the relevance score *)

(** C2: for every title, description, category list, tag list and message
    list, [calculate_relevance_score] returns 0.5, plus 0.2 if a category
    contains "Project", plus 0.15 if a tag is one of Framework / Template /
    System, plus 0.15 if a tag is one of Email Sequence / Landing Page /
    Sales Page, plus 0.1 if there are more than 10 messages, plus 0.1 if
    "Business Strategy" is a category or "Analysis" a tag, minus 0.2 if the
    categories are exactly ["General Chat"], minus 0.1 if there are fewer
    than 3 messages, the sum clamped to [0.1, 1.0]. *)
Theorem relevance_score_formula :
  forall title description categories tags messages,
    calculate_relevance_score title description categories tags messages
    = spec_relevance categories tags messages.
Proof.
  intros title description categories tags messages.
  unfold calculate_relevance_score, spec_relevance.
  rewrite !any_option_in_tags.
  destruct (existsb (contains (py "Project")) categories) eqn:E1.
  all: replace (existsb (fun cat => contains (py "Project") cat) categories)
         with (existsb (contains (py "Project")) categories) by reflexivity.
  all: rewrite ?E1.
  all: destruct (existsb (one_of [py "Framework"; py "Template"; py "System"])
                         tags);
       destruct (existsb (one_of [py "Email Sequence"; py "Landing Page";
                                  py "Sales Page"]) tags);
       destruct (Nat.ltb 10 (length messages));
       destruct (str_in (py "Business Strategy") categories
                 || str_in (py "Analysis") tags);
       destruct (strs_eqb categories [py "General Chat"]);
       destruct (Nat.ltb (length messages) 3);
       vm_compute; reflexivity.
Qed.

(** Case analysis on the seven tests of [calculate_relevance_score]; each of
    the 128 cases is then a closed floating-point computation. *)
Ltac relevance_cases categories tags messages :=
  unfold calculate_relevance_score;
  destruct (existsb (fun cat => contains (py "Project") cat) categories);
  destruct (existsb (fun tag => str_in tag tags)
                    [py "Framework"; py "Template"; py "System"]);
  destruct (existsb (fun tag => str_in tag tags)
                    [py "Email Sequence"; py "Landing Page"; py "Sales Page"]);
  destruct (Nat.ltb 10 (length messages));
  destruct (str_in (py "Business Strategy") categories
            || str_in (py "Analysis") tags);
  destruct (strs_eqb categories [py "General Chat"]);
  destruct (Nat.ltb (length messages) 3).

(** The score always lies in the closed interval [0.1, 1.0]. *)
Lemma relevance_score_range title description categories tags messages :
  let score :=
    calculate_relevance_score title description categories tags messages in
  PrimFloat.leb 0.1 score = true /\ PrimFloat.leb score 1.0 = true.
Proof.
  relevance_cases categories tags messages; vm_compute; split; reflexivity.
Qed.

(** A conversation filed under "General Chat" alone, with no message: the
    two penalties leave 0.5 - 0.2 - 0.1, which in binary64 arithmetic is
    0.19999999999999998. *)
Example relevance_general_chat_empty :
  calculate_relevance_score (py "Hello") [] [py "General Chat"]
                            [py "General"] []
  = 0.19999999999999998%float.
Proof. vm_compute. reflexivity. Qed.

(** C10 as stated fails: the score of a "General Chat" conversation without
    messages is below 0.2. *)
Lemma relevance_below_one_fifth :
  ~ (forall title description categories tags messages,
        PrimFloat.leb 0.2
          (calculate_relevance_score title description categories tags
                                     messages) = true).
Proof.
  intros H.
  specialize (H (py "Hello") [] [py "General Chat"] [py "General"] []).
  vm_compute in H. discriminate H.
Qed.

(** C10 (amended): for every title, description, category list, tag list
    and message list the score is at least 0.19999999999999998, the binary64
    value of 0.5 - 0.2 - 0.1, and strictly above 0.1; the lower clamp bound
    is never attained. *)
Theorem relevance_score_floor :
  forall title description categories tags messages,
    let score :=
      calculate_relevance_score title description categories tags messages in
    PrimFloat.leb 0.19999999999999998 score = true
    /\ PrimFloat.ltb 0.1 score = true.
Proof.
  intros title description categories tags messages.
  relevance_cases categories tags messages; vm_compute; split; reflexivity.
Qed.

(** ** The matcher is sound for the declarative reading of the patterns *)

(** Whatever [run] hands to its continuation is what is left of the text
    after a match of the expression. *)
Lemma run_sound {A} (r : regex) :
  forall (s : str) (cap : option str)
         (k : str -> option str -> option A) (x : A),
    run r s cap k = Some x ->
    exists m rest cap',
      s = m ++ rest /\ Matches r m cap cap' /\ k rest cap' = Some x.
Proof.
  induction r as [p| |a IHa b IHb|a IHa b IHb|a IHa|a IHa];
    intros s cap k x H.
  - destruct s as [|c s]; [discriminate|]. cbn [run] in H.
    destruct (p c) eqn:Hp; [|discriminate].
    exists [c], s, cap. repeat split; [constructor; exact Hp | exact H].
  - exists [], s, cap. repeat split; [constructor | exact H].
  - cbn [run] in H.
    apply IHa in H. destruct H as (m1 & rest1 & c1 & -> & Ha & H).
    apply IHb in H. destruct H as (m2 & rest2 & c2 & -> & Hb & H).
    exists (m1 ++ m2), rest2, c2. rewrite app_assoc.
    repeat split; [econstructor; eassumption | exact H].
  - cbn [run] in H.
    destruct (run a s cap k) as [y|] eqn:Ea.
    + injection H as ->. apply IHa in Ea.
      destruct Ea as (m & rest & c1 & -> & Ha & H).
      exists m, rest, c1. repeat split; [constructor; exact Ha | exact H].
    + apply IHb in H. destruct H as (m & rest & c1 & -> & Hb & H).
      exists m, rest, c1.
      repeat split; [apply Matches_or_right; exact Hb | exact H].
  - cbn [run] in H. revert H. generalize (length s) at 1. intros fuel.
    revert s cap. induction fuel as [|fuel IH]; intros s cap H.
    + exists [], s, cap. repeat split; [constructor | exact H].
    + match type of H with
      | match ?e with _ => _ end = _ => destruct e as [y|] eqn:Ea
      end.
      * injection H as ->. apply IHa in Ea.
        destruct Ea as (m1 & rest1 & c1 & -> & Ha & H).
        destruct (Nat.ltb (length rest1) (length (m1 ++ rest1))) eqn:Hlt;
          [|discriminate].
        apply IH in H. destruct H as (m2 & rest2 & c2 & -> & Hs & H).
        exists (m1 ++ m2), rest2, c2. rewrite app_assoc.
        repeat split; [|exact H].
        apply Matches_star_more with (c1 := c1); try assumption.
        intros ->. cbn [app] in Hlt. rewrite Nat.ltb_irrefl in Hlt.
        discriminate.
      * exists [], s, cap. repeat split; [constructor | exact H].
  - cbn [run] in H. apply IHa in H.
    destruct H as (m & rest & c1 & -> & Ha & H).
    exists m, rest, (Some m). split; [reflexivity|].
    split; [econstructor; exact Ha|].
    rewrite length_app, Nat.add_sub in H.
    rewrite firstn_app, firstn_all, Nat.sub_diag in H.
    cbn [firstn] in H. rewrite app_nil_r in H. exact H.
Qed.

(** [re.match] returns the rest of the text behind a match. *)
Lemma re_match_sound (r : regex) (s rest : str) (cap : option str) :
  re_match r s = Some (cap, rest) ->
  exists m, s = m ++ rest /\ Matches r m None cap.
Proof.
  unfold re_match. intros H. apply run_sound in H.
  destruct H as (m & rest' & cap' & -> & Hm & [= -> ->]).
  exists m. split; [reflexivity | exact Hm].
Qed.

Lemma Matches_Then_inv (a b : regex) (m : str) (c0 c2 : option str) :
  Matches (Then a b) m c0 c2 ->
  exists m1 m2 c1,
    m = m1 ++ m2 /\ Matches a m1 c0 c1 /\ Matches b m2 c1 c2.
Proof. inversion 1; subst; eauto 7. Qed.

Lemma Matches_Class_inv (p : char -> bool) (m : str) (c0 c1 : option str) :
  Matches (Class p) m c0 c1 -> exists c, m = [c] /\ p c = true /\ c1 = c0.
Proof. inversion 1; subst; eauto. Qed.

Lemma Matches_Group_inv (a : regex) (m : str) (c0 c1 : option str) :
  Matches (Group a) m c0 c1 -> c1 = Some m /\ exists c, Matches a m c0 c.
Proof. inversion 1; subst; eauto. Qed.

Lemma Matches_Lit (p m : str) (c0 c1 : option str) :
  Matches (Lit p) m c0 c1 -> m = p /\ c1 = c0.
Proof.
  revert m c0 c1. induction p as [|c p IH]; intros m c0 c1 H; cbn [Lit] in H.
  - inversion H; subst. auto.
  - apply Matches_Then_inv in H. destruct H as (m1 & m2 & d & -> & Ha & Hb).
    apply Matches_Class_inv in Ha. destruct Ha as (c' & -> & Hc & ->).
    apply N.eqb_eq in Hc. subst c'.
    apply IH in Hb. destruct Hb as [-> ->]. auto.
Qed.

Lemma Matches_Star_Class (p : char -> bool) (m : str) (c0 c1 : option str) :
  Matches (Star (Class p)) m c0 c1 ->
  Forall (fun c => p c = true) m /\ c1 = c0.
Proof.
  intros H. remember (Star (Class p)) as r eqn:Er.
  induction H as [| | | | | |a m1 m2 d0 d1 d2 Hne Ha _ Hs IH|];
    try discriminate.
  - auto.
  - injection Er as ->.
    apply Matches_Class_inv in Ha. destruct Ha as (c & -> & Hc & ->).
    destruct (IH eq_refl) as [Hall ->].
    split; [constructor; assumption | reflexivity].
Qed.

Lemma Matches_Plus_Class (p : char -> bool) (m : str) (c0 c1 : option str) :
  Matches (Plus (Class p)) m c0 c1 ->
  m <> [] /\ Forall (fun c => p c = true) m /\ c1 = c0.
Proof.
  intros H. unfold Plus in H.
  apply Matches_Then_inv in H. destruct H as (m1 & m2 & d & -> & Ha & Hb).
  apply Matches_Class_inv in Ha. destruct Ha as (c & -> & Hc & ->).
  apply Matches_Star_Class in Hb. destruct Hb as [Hall ->].
  split; [discriminate|]. split; [constructor; assumption | reflexivity].
Qed.

(** A quoted string without quote inside. *)
Lemma Matches_quoted_text (m : str) (c0 c1 : option str) :
  Matches (Then (Group (Plus not_quote)) (Lit [dq])) m c0 c1 ->
  exists text,
    m = text ++ [dq] /\ c1 = Some text /\ text <> [] /\ ~ In dq text.
Proof.
  intros H.
  apply Matches_Then_inv in H. destruct H as (m1 & m2 & d & -> & Ha & Hb).
  apply Matches_Lit in Hb. destruct Hb as [-> ->].
  apply Matches_Group_inv in Ha. destruct Ha as (-> & d' & Hg).
  apply Matches_Plus_Class in Hg. destruct Hg as (Hne & Hall & _).
  exists m1. repeat split; try assumption.
  intros Hin. rewrite Forall_forall in Hall. specialize (Hall dq Hin).
  cbn in Hall. discriminate.
Qed.

(** A field: the quoted key, a colon, white space, an opening, and a quoted
    text, which is the group. *)
Lemma field_match `{R : Runtime} (key : string) (opening s rest : str)
    (cap : option str) :
  re_match
    (Then (Lit (quoted key ++ py ":"))
          (Then spaces
                (Then (Lit opening)
                      (Then (Group (Plus not_quote)) (Lit [dq])))))
    s = Some (cap, rest) ->
  exists ws text,
    s = (quoted key ++ py ":") ++ ws ++ opening ++ text ++ [dq] ++ rest
    /\ cap = Some text
    /\ Forall (fun c => is_space c = true) ws
    /\ text <> [] /\ ~ In dq text.
Proof.
  intros H. apply re_match_sound in H. destruct H as (m & -> & H).
  apply Matches_Then_inv in H. destruct H as (m1 & m2 & d1 & -> & Hkey & H).
  apply Matches_Lit in Hkey. destruct Hkey as [-> ->].
  apply Matches_Then_inv in H. destruct H as (ws & m3 & d2 & -> & Hws & H).
  apply Matches_Star_Class in Hws. destruct Hws as [Hws ->].
  apply Matches_Then_inv in H. destruct H as (m4 & m5 & d3 & -> & Hopen & H).
  apply Matches_Lit in Hopen. destruct Hopen as [-> ->].
  apply Matches_quoted_text in H.
  destruct H as (text & -> & -> & Hne & Hnq).
  exists ws, text. repeat split; try assumption.
  rewrite <- !app_assoc. reflexivity.
Qed.

(** What a match of the "value" or "content" pattern looks like. *)
Lemma string_field_match `{R : Runtime} (key : string) (s rest : str)
    (cap : option str) :
  re_match (string_field key) s = Some (cap, rest) ->
  exists ws text,
    s = (quoted key ++ py ":") ++ ws ++ [dq] ++ text ++ [dq] ++ rest
    /\ cap = Some text
    /\ Forall (fun c => is_space c = true) ws
    /\ text <> [] /\ ~ In dq text.
Proof. apply (field_match key [dq]). Qed.

(** The same for the "parts" pattern, whose text opens an array. *)
Lemma parts_field_match `{R : Runtime} (s rest : str) (cap : option str) :
  re_match parts_field s = Some (cap, rest) ->
  exists ws text,
    s = (quoted "parts" ++ py ":") ++ ws ++ (py "[" ++ [dq]) ++ text
        ++ [dq] ++ rest
    /\ cap = Some text
    /\ Forall (fun c => is_space c = true) ws
    /\ text <> [] /\ ~ In dq text.
Proof. apply (field_match "parts" (py "[" ++ [dq])). Qed.

(** A field pattern consumes text: its match is never empty. *)
Lemma field_match_consumes `{R : Runtime} (key : string)
    (opening s rest : str) (cap : option str) :
  re_match
    (Then (Lit (quoted key ++ py ":"))
          (Then spaces
                (Then (Lit opening)
                      (Then (Group (Plus not_quote)) (Lit [dq])))))
    s = Some (cap, rest) ->
  length rest < length s.
Proof.
  intros H. apply field_match in H.
  destruct H as (ws & text & -> & _).
  rewrite !length_app. cbn [quoted length]. lia.
Qed.

(** [re.findall] reads the text from the left: for a pattern whose matches
    are never empty, its result is the scan of the text. *)
Lemma findall_scan (r : regex) :
  (forall s cap rest,
      re_match r s = Some (cap, rest) -> length rest < length s) ->
  forall s, Scan r s (re_findall r s).
Proof.
  intros Hconsumes s. unfold re_findall.
  assert (Hfuel : length s < S (length s)) by lia.
  revert Hfuel. generalize (S (length s)) as fuel. intros fuel. revert s.
  induction fuel as [|fuel IH]; intros s Hfuel; [lia|].
  cbn [findall_from].
  destruct (re_match r s) as [[cap rest]|] eqn:Em.
  - pose proof (Hconsumes _ _ _ Em) as Hlt.
    destruct (re_match_sound _ _ Em) as (m & -> & Hm).
    apply Nat.ltb_lt in Hlt as Hltb. rewrite Hltb.
    apply Scan_match; try assumption.
    + intros ->. cbn [app] in Hlt. lia.
    + apply IH. lia.
  - destruct s as [|c s]; [constructor|].
    apply Scan_pass; [exact Em|]. apply IH. cbn [length] in Hfuel. lia.
Qed.

(** A text has one scan only. *)
Lemma Scan_unique (r : regex) (s : str) (groups groups' : list str) :
  Scan r s groups -> Scan r s groups' -> groups = groups'.
Proof.
  intros H. revert groups'.
  induction H as [|c text groups Hnone _ IH
                  |matched rest cap groups Hne Hmatch _ _ IH];
    intros groups' H'.
  - remember [] as s eqn:Es.
    destruct H' as [|c text gs Hnone Hs
                    |matched' rest' cap' gs Hne' Hmatch' _ Hs].
    + reflexivity.
    + discriminate Es.
    + destruct matched'; [contradiction Hne'; reflexivity | discriminate Es].
  - remember (c :: text) as s eqn:Es.
    destruct H' as [|c' text' gs Hnone' Hs
                    |matched' rest' cap' gs Hne' Hmatch' _ Hs].
    + discriminate Es.
    + injection Es as -> ->. apply IH. exact Hs.
    + congruence.
  - remember (matched ++ rest) as s eqn:Es.
    destruct H' as [|c text gs Hnone Hs
                    |matched' rest' cap' gs Hne' Hmatch' _ Hs].
    + destruct matched; [contradiction Hne; reflexivity | discriminate Es].
    + congruence.
    + rewrite Hmatch in Hmatch'.
      injection Hmatch' as <- <-. f_equal. apply IH. exact Hs.
Qed.

(** ** Properties of the raw-text extractor *)

(** A message that was kept is neither short nor a system prompt. *)
Lemma substantial_iff (msg : str) :
  substantial msg = true
  <-> 20 < length msg /\ ~ (exists rest, msg = py "You are" ++ rest).
Proof.
  unfold substantial.
  rewrite andb_true_iff, Nat.ltb_lt, negb_true_iff.
  rewrite <- startswith_prefix, not_true_iff_false. reflexivity.
Qed.

(** The cleaning loop decodes every message and keeps the substantial ones,
    in order. *)
Lemma clean_messages_filter `{R : Runtime} (messages cleaned : list str) :
  clean_messages messages = Returns cleaned ->
  exists decoded,
    Forall2 (fun msg d => unescape msg = Returns d) messages decoded
    /\ cleaned = filter substantial decoded.
Proof.
  revert cleaned; induction messages as [|msg rest IH]; intros cleaned H.
  - injection H as <-. exists []. split; [constructor | reflexivity].
  - cbn [clean_messages] in H.
    destruct (unescape msg) as [|d] eqn:Ed; [discriminate|].
    cbn [bind] in H.
    destruct (clean_messages rest) as [|tail] eqn:Et; [discriminate|].
    cbn [bind] in H. injection H as <-.
    destruct (IH tail eq_refl) as (decoded & Hall & ->).
    exists (d :: decoded). split; [constructor; assumption | reflexivity].
Qed.

(** The loop returns as soon as every message can be decoded. *)
Lemma clean_messages_returns `{R : Runtime} (messages : list str) :
  Forall (fun msg => exists d, unescape msg = Returns d) messages ->
  exists cleaned, clean_messages messages = Returns cleaned.
Proof.
  induction 1 as [|msg rest [d Hd] _ [tail IH]].
  - exists []. reflexivity.
  - cbn [clean_messages]. rewrite Hd, IH. cbn [bind]. eauto.
Qed.

(** C5: the candidate list of [extract_messages_from_raw] is the list of the
    matches of the "parts" pattern, followed by those of the "value"
    pattern, followed by those of the "content" pattern; each of the three
    lists holds the groups of the matches in the order they appear in the
    block, and nothing is removed; the length and prefix filter runs on
    that list. *)
Theorem candidates_in_pass_order `{R : Runtime} (conv_text : str) :
  let parts := re_findall parts_field conv_text in
  let values := re_findall (string_field "value") conv_text in
  let contents := re_findall (string_field "content") conv_text in
  candidate_messages conv_text = parts ++ values ++ contents
  /\ Scan parts_field conv_text parts
  /\ Scan (string_field "value") conv_text values
  /\ Scan (string_field "content") conv_text contents
  /\ extract_messages_from_raw conv_text
     = clean_messages (parts ++ values ++ contents).
Proof.
  cbn zeta.
  assert (E : candidate_messages conv_text
              = re_findall parts_field conv_text
                ++ re_findall (string_field "value") conv_text
                ++ re_findall (string_field "content") conv_text).
  { unfold candidate_messages. cbn zeta. rewrite app_nil_l.
    symmetry. apply app_assoc. }
  split; [exact E|].
  split; [apply findall_scan; intros s cap rest;
          apply (field_match_consumes "parts" (py "[" ++ [dq]))|].
  split; [apply findall_scan; intros s cap rest;
          apply (field_match_consumes "value" [dq])|].
  split; [apply findall_scan; intros s cap rest;
          apply (field_match_consumes "content" [dq])|].
  unfold extract_messages_from_raw. rewrite E. reflexivity.
Qed.

(** The same text under "parts" and under "value" is listed twice. *)
Example candidates_keep_duplicates :
  @candidate_messages ascii_runtime
    (quoted "parts" ++ py ": [" ++ quoted "The same text, in two fields"
       ++ py "], " ++ quoted "value" ++ py ": "
       ++ quoted "The same text, in two fields")
  = [ py "The same text, in two fields";
      py "The same text, in two fields" ].
Proof. vm_compute. reflexivity. Qed.

(** What the cleaning loop does, in terms of the decoding the code
    performs: when [extract_messages_from_raw] returns, its result is made
    of the decoded candidates, in order, that are longer than 20 characters
    and do not start with "You are": a decoded candidate is in the result
    exactly when it passes both tests. *)
Theorem kept_iff_long_and_not_prompt `{R : Runtime}
    (conv_text : str) (messages : list str) :
  extract_messages_from_raw conv_text = Returns messages ->
  exists decoded,
    Forall2 (fun candidate d => unescape candidate = Returns d)
            (candidate_messages conv_text) decoded
    /\ messages
       = filter (fun d => Nat.ltb 20 (length d)
                          && negb (startswith (py "You are") d)) decoded
    /\ forall d, In d decoded ->
         (In d messages
          <-> 20 < length d /\ ~ (exists rest, d = py "You are" ++ rest)).
Proof.
  intros H. apply clean_messages_filter in H.
  destruct H as (decoded & Hall & ->).
  exists decoded. split; [exact Hall|]. split; [reflexivity|].
  intros d Hd. rewrite filter_In, substantial_iff. tauto.
Qed.

Lemma kept_iff_long_and_not_prompt_witness :
  exists decoded,
    Forall2 (fun candidate d => unescape candidate = Returns d)
            (candidate_messages literal_block) decoded
    /\ [py "A message over twenty chars long for sure"]
       = filter (fun d => Nat.ltb 20 (length d)
                          && negb (startswith (py "You are") d)) decoded
    /\ forall d, In d decoded ->
         (In d [py "A message over twenty chars long for sure"]
          <-> 20 < length d /\ ~ (exists rest, d = py "You are" ++ rest)).
Proof.
  apply (@kept_iff_long_and_not_prompt ascii_runtime literal_block).
  vm_compute. reflexivity.
Defined.

(** C6 (the code departs from it): the decoding is meant to unescape
    backslash sequences, but it also reads every character beyond ASCII as
    the bytes of its UTF-8 form. A message of twenty characters without any
    backslash, which its length should exclude, is therefore kept when one
    of its letters has an accent: it is stored with 21 characters, the
    accented letter replaced by two others. *)
Theorem accented_message_kept :
  length accented_message = 20
  /\ ~ In backslash accented_message
  /\ (forall R : Runtime,
        @clean_messages R [accented_message]
        = Returns [py "caf" ++ [195%N; 169%N] ++ py " au lait is nice"])
  /\ @extract_messages_from_raw ascii_runtime accented_block
     = Returns [py "caf" ++ [195%N; 169%N] ++ py " au lait is nice"]
  /\ length (py "caf" ++ [195%N; 169%N] ++ py " au lait is nice") = 21.
Proof.
  split; [reflexivity|].
  split; [cbv; intuition discriminate|].
  split; [intros R; vm_compute; reflexivity|].
  split; [vm_compute; reflexivity | reflexivity].
Qed.

(** C8: the raw-text extractor, applied to the literal block of the
    specification, yields exactly one conversation; its title is "Test",
    its creation time the float 1700000000.0, and one message survives the
    length and prefix filter. *)
Theorem literal_block_extracted :
  @parse_raw_text_export ascii_runtime literal_block
  = [ {| conv_title := Some (py "Test");
         conv_create_time := Time (Float 1700000000%float);
         conv_update_time := No_time;
         conv_messages :=
           Some [py "A message over twenty chars long for sure"];
         conv_raw_text := Some (skipn 10 literal_block) |} ].
Proof. vm_compute. reflexivity. Qed.

(** ** Properties of the batch processor: duplicates *)

Lemma key_eqb_eq (a b : str * str) : key_eqb a b = true <-> a = b.
Proof.
  destruct a as [a1 a2], b as [b1 b2]. unfold key_eqb; cbn [fst snd].
  rewrite andb_true_iff, !str_eqb_eq. split.
  - intros [-> ->]; reflexivity.
  - intros [= -> ->]; auto.
Qed.

Lemma has_key_iff (key : str * str) (conv : conversation_record) :
  has_key key conv = true <-> dedup_key conv = key.
Proof. apply key_eqb_eq. Qed.

Lemma seen_iff (key : str * str) (seen : list (str * str)) :
  existsb (key_eqb key) seen = true <-> In key seen.
Proof.
  rewrite existsb_exists. split.
  - intros (k & Hk & E). apply key_eqb_eq in E. subst; assumption.
  - intros H. exists key. split; [assumption | apply key_eqb_eq; reflexivity].
Qed.

Lemma dedup_loop (records : list conversation_record) :
  forall seen unique,
    snd (fold_left dedup_step records (seen, unique))
    = unique ++ unseen seen records.
Proof.
  induction records as [|conv rest IH]; intros seen unique.
  - cbn. symmetry. apply app_nil_r.
  - cbn [fold_left unseen]. unfold dedup_step at 2.
    destruct (existsb (key_eqb (dedup_key conv)) seen); cbn [negb].
    + apply IH.
    + rewrite IH, <- app_assoc. reflexivity.
Qed.

Lemma unseen_first_occurrences (records : list conversation_record) :
  forall seen,
    unseen seen records
    = filter (fun conv => negb (existsb (key_eqb (dedup_key conv)) seen))
             (first_occurrences records).
Proof.
  induction records as [|conv rest IH]; intros seen; [reflexivity|].
  cbn [unseen first_occurrences filter].
  destruct (existsb (key_eqb (dedup_key conv)) seen) eqn:Eseen; cbn [negb].
  - rewrite IH. clear IH.
    induction (first_occurrences rest) as [|c l IHl]; [reflexivity|].
    cbn [filter].
    destruct (has_key (dedup_key conv) c) eqn:Ec; cbn [negb].
    + apply has_key_iff in Ec. rewrite Ec, Eseen. cbn [negb]. exact IHl.
    + cbn [filter].
      destruct (negb (existsb (key_eqb (dedup_key c)) seen));
        [f_equal|]; exact IHl.
  - f_equal. rewrite IH. clear IH.
    induction (first_occurrences rest) as [|c l IHl]; [reflexivity|].
    cbn [filter existsb].
    destruct (has_key (dedup_key conv) c) eqn:Ec.
    + unfold has_key in Ec. rewrite Ec. cbn [orb negb]. exact IHl.
    + unfold has_key in Ec. rewrite Ec. cbn [orb negb filter].
      destruct (negb (existsb (key_eqb (dedup_key c)) seen));
        [f_equal|]; exact IHl.
Qed.

Lemma filter_all {A} (l : list A) : filter (fun _ => true) l = l.
Proof. induction l as [|x l IH]; cbn; [|rewrite IH]; reflexivity. Qed.

(** The loop with its set computes "first occurrence wins". *)
Lemma remove_duplicates_first_occurrences
    (records : list conversation_record) :
  remove_duplicates records = first_occurrences records.
Proof.
  unfold remove_duplicates. rewrite dedup_loop, unseen_first_occurrences.
  cbn [app existsb negb]. apply filter_all.
Qed.

Lemma subsequence_refl {A} (l : list A) : subsequence l l.
Proof. induction l; constructor; assumption. Qed.

Lemma subsequence_filter {A} (f : A -> bool) (a b : list A) :
  subsequence a b -> subsequence (filter f a) b.
Proof.
  induction 1 as [|x a b _ IH|x a b _ IH]; cbn [filter].
  - constructor.
  - destruct (f x); constructor; assumption.
  - constructor; assumption.
Qed.

Lemma subsequence_In {A} (a b : list A) (x : A) :
  subsequence a b -> In x a -> In x b.
Proof.
  induction 1 as [|y a b _ IH|y a b _ IH]; cbn; intros Hin; auto.
  destruct Hin; auto.
Qed.

Lemma first_occurrences_subsequence (records : list conversation_record) :
  subsequence (first_occurrences records) records.
Proof.
  induction records as [|conv rest IH]; cbn [first_occurrences].
  - constructor.
  - constructor. apply subsequence_filter. exact IH.
Qed.

Lemma NoDup_keys_filter (f : conversation_record -> bool)
    (l : list conversation_record) :
  NoDup (map dedup_key l) -> NoDup (map dedup_key (filter f l)).
Proof.
  induction l as [|c l IH]; cbn [map filter]; intros H; [constructor|].
  inversion H as [|k ks Hnotin Hnodup]; subst.
  destruct (f c); cbn [map]; [constructor|]; auto.
  intros Hin. apply Hnotin.
  apply in_map_iff in Hin. destruct Hin as (c' & E & Hc').
  apply filter_In in Hc'. apply in_map_iff. exists c'. tauto.
Qed.

Lemma first_occurrences_NoDup (records : list conversation_record) :
  NoDup (map dedup_key (first_occurrences records)).
Proof.
  induction records as [|conv rest IH]; cbn [first_occurrences map].
  - constructor.
  - constructor.
    + intros Hin. apply in_map_iff in Hin. destruct Hin as (c & E & Hc).
      apply filter_In in Hc. destruct Hc as [_ Hc].
      apply negb_true_iff in Hc.
      apply has_key_iff in E. congruence.
    + apply NoDup_keys_filter. exact IH.
Qed.

(** Every record has its key represented by the first record of that key. *)
Lemma first_occurrences_first (records : list conversation_record) :
  forall conv, In conv records ->
    exists kept,
      find (has_key (dedup_key conv)) records = Some kept
      /\ In kept (first_occurrences records)
      /\ dedup_key kept = dedup_key conv.
Proof.
  induction records as [|c rest IH]; intros conv Hin; [contradiction|].
  cbn [find first_occurrences].
  destruct (has_key (dedup_key conv) c) eqn:Ec.
  - exists c. split; [reflexivity|]. split; [left; reflexivity|].
    apply has_key_iff. exact Ec.
  - destruct Hin as [-> | Hin].
    + exfalso. assert (H : has_key (dedup_key conv) conv = true)
        by (apply has_key_iff; reflexivity). congruence.
    + destruct (IH conv Hin) as (kept & Hfind & Hkept & Hkey).
      exists kept. split; [exact Hfind|]. split; [|exact Hkey].
      right. apply filter_In. split; [exact Hkept|].
      apply negb_true_iff. apply not_true_iff_false. intros E.
      apply has_key_iff in E.
      assert (H : has_key (dedup_key conv) c = true)
        by (apply has_key_iff; congruence). congruence.
Qed.

Lemma find_first (key : str * str)
    (earlier later : list conversation_record) (conv : conversation_record) :
  (forall c, In c earlier -> dedup_key c <> key) ->
  dedup_key conv = key ->
  find (has_key key) (earlier ++ conv :: later) = Some conv.
Proof.
  intros Hearlier Hconv.
  induction earlier as [|c earlier IH]; cbn [app find].
  - apply has_key_iff in Hconv. rewrite Hconv. reflexivity.
  - destruct (has_key key c) eqn:Ec.
    + apply has_key_iff in Ec. exfalso.
      apply (Hearlier c); [left; reflexivity | exact Ec].
    + apply IH. intros c' Hc'. apply Hearlier. right. exact Hc'.
Qed.

(** C7: the duplicate step keeps, for every (name, date) key, exactly one
    record, the first one met in processing order; a record whose key was
    not seen earlier is kept unchanged, and the records kept stay in their
    original relative order. *)
Theorem dedup_first_wins (all_conversations : list conversation_record) :
  let unique_conversations := remove_duplicates all_conversations in
  unique_conversations = first_occurrences all_conversations
  /\ subsequence unique_conversations all_conversations
  /\ NoDup (map dedup_key unique_conversations)
  /\ (forall conv, In conv all_conversations ->
        exists kept,
          find (has_key (dedup_key conv)) all_conversations = Some kept
          /\ In kept unique_conversations
          /\ dedup_key kept = dedup_key conv)
  /\ (forall earlier conv later,
        all_conversations = earlier ++ conv :: later ->
        (forall c, In c earlier -> dedup_key c <> dedup_key conv) ->
        In conv unique_conversations).
Proof.
  cbn zeta. rewrite remove_duplicates_first_occurrences.
  split; [reflexivity|].
  split; [apply first_occurrences_subsequence|].
  split; [apply first_occurrences_NoDup|].
  split; [apply first_occurrences_first|].
  intros earlier conv later -> Hearlier.
  destruct (first_occurrences_first (earlier ++ conv :: later) conv)
    as (kept & Hfind & Hkept & _).
  { apply in_elt. }
  rewrite (find_first earlier later Hearlier eq_refl) in Hfind.
  injection Hfind as <-. exact Hkept.
Qed.

(** Two records with the same name and date from two files: the one of the
    first file survives, alone. *)
Example dedup_two_files :
  remove_duplicates
    [ sample_record "Plan" "2024-01-01" "conv_part_aa.txt";
      sample_record "Other" "2024-01-01" "conv_part_aa.txt";
      sample_record "Plan" "2024-01-01" "conv_part_ab.txt" ]
  = [ sample_record "Plan" "2024-01-01" "conv_part_aa.txt";
      sample_record "Other" "2024-01-01" "conv_part_aa.txt" ].
Proof. vm_compute. reflexivity. Qed.

(** ** Properties of the batch processor: the final sort *)

Lemma str_ltb_irrefl (a : str) : str_ltb a a = false.
Proof.
  induction a as [|x a IH]; [reflexivity|].
  cbn [str_ltb]. rewrite N.ltb_irrefl, N.eqb_refl, IH. reflexivity.
Qed.

Lemma str_ltb_trans (a b c : str) :
  str_ltb a b = true -> str_ltb b c = true -> str_ltb a c = true.
Proof.
  revert b c; induction a as [|x a IH]; intros [|y b] [|z c]; cbn [str_ltb];
    try discriminate; auto.
  rewrite !orb_true_iff, !andb_true_iff, !N.ltb_lt, !N.eqb_eq.
  intros [Hxy | [-> Hab]] [Hyz | [-> Hbc]].
  - left. lia.
  - left. exact Hxy.
  - left. exact Hyz.
  - right. split; [reflexivity | eapply IH; eassumption].
Qed.

Lemma str_ltb_total (a b : str) :
  str_ltb a b = false -> str_ltb b a = false -> a = b.
Proof.
  revert b; induction a as [|x a IH]; intros [|y b]; cbn [str_ltb];
    try discriminate; auto.
  rewrite !orb_false_iff, !andb_false_iff, !N.ltb_ge, !N.eqb_neq.
  intros [Hxy Hab] [Hyx Hba].
  assert (x = y) by lia. subst y.
  f_equal. apply IH.
  - destruct Hab as [Hne | Hab]; [congruence | exact Hab].
  - destruct Hba as [Hne | Hba]; [congruence | exact Hba].
Qed.

Lemma key_le_trans (a b c : conversation_record) :
  key_le a b -> key_le b c -> key_le a c.
Proof.
  unfold key_le. intros Hab Hbc.
  destruct (str_ltb (sort_key c) (sort_key a)) eqn:Hca; [|reflexivity].
  destruct (str_ltb (sort_key b) (sort_key c)) eqn:Hbc'.
  - rewrite (str_ltb_trans _ _ _ Hbc' Hca) in Hab. discriminate.
  - rewrite (str_ltb_total _ _ Hbc' Hbc) in Hab. congruence.
Qed.

Lemma key_lt_le (a b : conversation_record) :
  str_ltb (sort_key a) (sort_key b) = true -> key_le a b.
Proof.
  unfold key_le. intros Hab.
  destruct (str_ltb (sort_key b) (sort_key a)) eqn:Hba; [|reflexivity].
  rewrite <- (str_ltb_irrefl (sort_key a)).
  symmetry. eapply str_ltb_trans; eassumption.
Qed.

Section Stable_sort.

Context {A : Type} (before : A -> A -> bool).

Lemma insert_sorted_perm (x : A) (l : list A) :
  Permutation (insert_sorted before x l) (x :: l).
Proof.
  induction l as [|y l IH]; cbn [insert_sorted]; [reflexivity|].
  destruct (before y x); [|reflexivity].
  rewrite IH. apply perm_swap.
Qed.

Lemma stable_sort_perm (l : list A) : Permutation (stable_sort before l) l.
Proof.
  induction l as [|x l IH]; cbn; [constructor|].
  fold (stable_sort before l). rewrite insert_sorted_perm.
  constructor. exact IH.
Qed.

End Stable_sort.

Lemma insert_keeps_sorted (x : conversation_record)
    (l : list conversation_record) :
  StronglySorted key_le l ->
  StronglySorted key_le
    (insert_sorted (fun a b => str_ltb (sort_key a) (sort_key b)) x l).
Proof.
  induction 1 as [|y l Hsorted IH Hall]; cbn [insert_sorted].
  - repeat constructor.
  - destruct (str_ltb (sort_key y) (sort_key x)) eqn:Hyx.
    + constructor; [exact IH|].
      apply Forall_forall. intros z Hz.
      apply (Permutation_in _ (insert_sorted_perm _ x l)) in Hz.
      destruct Hz as [<- | Hz].
      * apply key_lt_le. exact Hyx.
      * rewrite Forall_forall in Hall. apply Hall. exact Hz.
    + constructor; [constructor; assumption|].
      constructor; [exact Hyx|].
      eapply Forall_impl; [|exact Hall].
      intros z Hz. eapply key_le_trans; [exact Hyx | exact Hz].
Qed.

(** The sort returns the same records, in ascending order of their key. *)
Lemma sort_by_date_sorted (l : list conversation_record) :
  Permutation (sort_by_date l) l /\ StronglySorted key_le (sort_by_date l).
Proof.
  split; [apply stable_sort_perm|].
  unfold sort_by_date. induction l as [|x l IH]; cbn; [constructor|].
  apply insert_keeps_sorted. exact IH.
Qed.

(** What a record returned by [extract_conversation_details] is made of. *)
Lemma built_record `{R : Runtime} (conv_data : conv_data)
    (record : conversation_record) :
  extract_conversation_details conv_data = Returns (Some record) ->
  exists title messages,
    conv_title conv_data = Some title
    /\ title <> [] /\ title <> py "New conversation"
    /\ description record = create_intelligent_description title messages
    /\ category record
       = determine_categories title (description record) messages
    /\ tags record
       = generate_specific_tags title (description record) messages
    /\ relevance_score record
       = calculate_relevance_score title (description record)
           (category record) (tags record) messages
    /\ message_volume record = length messages
    /\ date record
       = Some (match fst (convert_timestamp (conv_create_time conv_data)) with
               | Some d => d
               | None => []
               end)
    /\ date_source record
       = snd (convert_timestamp (conv_create_time conv_data))
    /\ source_file record = None.
Proof.
  unfold extract_conversation_details.
  destruct (conv_title conv_data) as [title|]; [|discriminate].
  destruct title as [|c title]; [discriminate|].
  cbn [orb].
  destruct (str_eqb (c :: title) (py "New conversation")) eqn:Enew;
    [discriminate|].
  destruct (convert_timestamp (conv_create_time conv_data))
    as [date_str src].
  match goal with
  | |- bind ?m _ = _ -> _ => destruct m as [|messages]; [discriminate|]
  end.
  cbn [bind].
  destruct (clean_title (c :: title)) as [|cleaned]; [discriminate|].
  cbn [bind].
  destruct (generate_id (c :: title)) as [|id]; [discriminate|].
  cbn [bind]. intros [= <-].
  exists (c :: title), messages.
  cbn [description category tags relevance_score message_volume date
       date_source source_file fst snd].
  repeat split; try reflexivity; try discriminate.
  intros E. apply str_eqb_eq in E. congruence.
Qed.

(** The record builder always sets the key [date], so the default of the
    sort key is never used: a conversation without date has the key "". *)
Lemma sort_key_of_built `{R : Runtime} (conv_data : conv_data)
    (record : conversation_record) (file : str) :
  extract_conversation_details conv_data = Returns (Some record) ->
  sort_key (set_source_file file record) = get_date record "".
Proof.
  intros H. apply built_record in H.
  destruct H as (title & messages & _ & _ & _ & _ & _ & _ & _ & _ & Hd & _).
  unfold sort_key, get_date. cbn [set_source_file date]. rewrite Hd.
  reflexivity.
Qed.

(** In the sorted list no dated record comes before an undated one: the
    records with the empty date are at the front. *)
Lemma undated_sort_first (l front back : list conversation_record)
    (dated undated : conversation_record) :
  sort_by_date l = front ++ dated :: back ->
  In undated back ->
  date undated = Some [] ->
  date dated = Some [].
Proof.
  intros Hsplit Hin Hundated.
  destruct (sort_by_date_sorted l) as [_ Hsorted].
  rewrite Hsplit in Hsorted.
  assert (Hle : key_le dated undated).
  { clear Hsplit. induction front as [|f front IH]; cbn [app] in Hsorted.
    - inversion Hsorted as [|? ? _ Hall]; subst.
      rewrite Forall_forall in Hall. apply Hall. exact Hin.
    - inversion Hsorted; subst. auto. }
  unfold key_le, sort_key, get_date in Hle. rewrite Hundated in Hle.
  destruct (date dated) as [[|c d]|]; [reflexivity | discriminate Hle |].
  discriminate Hle.
Qed.

(** C3 (the code departs from it): on records dated 2024-03-01, "" and
    2024-01-01 the sort yields "", 2024-01-01, 2024-03-01: the undated
    record comes first, not last. *)
Theorem empty_date_sorts_first :
  map (fun conv => get_date conv "")
      (sort_by_date [ sample_record "March" "2024-03-01" "conv_part_aa.txt";
                      sample_record "Undated" "" "conv_part_aa.txt";
                      sample_record "January" "2024-01-01"
                                    "conv_part_aa.txt" ])
  = [ py ""; py "2024-01-01"; py "2024-03-01" ].
Proof. vm_compute. reflexivity. Qed.

(** The same through the whole batch, from the text of an export. *)
Example batch_puts_undated_first :
  match @process_multiple_files ascii_runtime (py "2024-05-01 09:30")
          [(py "exports/conv_part_aa.txt", three_conversations)] with
  | Returns result =>
      option_map (map (fun conv => (name conv, get_date conv ""))) result
  | Raises => None
  end
  = Some [ (py "Undated", py "");
           (py "January", py "2024-01-01");
           (py "March", py "2024-03-01") ].
Proof. vm_compute. reflexivity. Qed.

(** ** Properties of the record builder *)

Example sample_is_built :
  @extract_conversation_details ascii_runtime sample_conversation
  = Returns (Some sample_built).
Proof. vm_compute. reflexivity. Qed.

Lemma determine_categories_length `{R : Runtime} (title description : str)
    (messages : list str) :
  1 <= length (determine_categories title description messages) <= 3.
Proof.
  unfold determine_categories. cbn zeta.
  match goal with
  | |- context [map fst (firstn 3 ?l)] =>
      assert (Hlen : length (map fst (firstn 3 l)) <= 3)
        by (rewrite length_map; apply firstn_le_length);
      destruct (map fst (firstn 3 l)) as [|c cs]
  end.
  - repeat match goal with
           | |- context [if ?b then _ else _] => destruct b
           end; cbn; lia.
  - cbn [length] in *. lia.
Qed.

Lemma generate_specific_tags_length `{R : Runtime} (title description : str)
    (messages : list str) :
  1 <= length (generate_specific_tags title description messages) <= 5.
Proof.
  unfold generate_specific_tags. cbn zeta.
  match goal with
  | |- context [match ?t with
                | [] => _
                | _ :: _ => firstn 5 (set_order ?t)
                end] =>
      generalize t
  end.
  intros [|tag members]; [cbn; lia|].
  pose proof (Permutation_length (set_order_perm (tag :: members))) as Hlen.
  rewrite length_firstn. cbn [length] in Hlen. lia.
Qed.

(** C1: every record that [extract_conversation_details] returns has a
    relevance score in [0.1, 1.0], between one and three categories and
    between one and five tags. *)
Theorem built_record_invariants `{R : Runtime} (conv_data : conv_data)
    (record : conversation_record) :
  extract_conversation_details conv_data = Returns (Some record) ->
  PrimFloat.leb 0.1 (relevance_score record) = true
  /\ PrimFloat.leb (relevance_score record) 1.0 = true
  /\ 1 <= length (category record) <= 3
  /\ 1 <= length (tags record) <= 5.
Proof.
  intros H. apply built_record in H.
  destruct H as (title & messages & _ & _ & _ & _ & Hcat & Htags & Hscore & _).
  rewrite Hscore.
  destruct (relevance_score_range title (description record)
              (category record) (tags record) messages) as [Hlo Hhi].
  split; [exact Hlo|]. split; [exact Hhi|].
  rewrite Hcat, Htags.
  split; [apply determine_categories_length
         | apply generate_specific_tags_length].
Qed.

Lemma built_record_invariants_witness :
  PrimFloat.leb 0.1 (relevance_score sample_built) = true
  /\ PrimFloat.leb (relevance_score sample_built) 1.0 = true
  /\ 1 <= length (category sample_built) <= 3
  /\ 1 <= length (tags sample_built) <= 5.
Proof.
  apply (@built_record_invariants ascii_runtime sample_conversation).
  vm_compute. reflexivity.
Defined.

Lemma convert_timestamp_cases `{R : Runtime} (create_time : time_value) :
  convert_timestamp create_time = (None, py "missing")
  \/ exists n date_obj,
       create_time = Time n
       /\ fromtimestamp n = Returns date_obj
       /\ convert_timestamp create_time
          = (Some (strftime_ymd date_obj), py "exact").
Proof.
  unfold convert_timestamp.
  destruct (truthy create_time); [|left; reflexivity].
  destruct create_time as [|n|b]; try (left; reflexivity).
  destruct (fromtimestamp n) as [|date_obj] eqn:E; [left; reflexivity|].
  right. exists n, date_obj. auto.
Qed.

(** The digits of a number: one digit below ten, and one more digit for
    every further factor of ten. *)
Lemma decimal_from_small (fuel : nat) (n : N) :
  (n < 10)%N -> decimal_from (S fuel) n = [(48 + n)%N].
Proof.
  intros Hn. cbn [decimal_from].
  destruct (N.ltb_spec n 10) as [_ | Hge]; [reflexivity | lia].
Qed.

Lemma decimal_from_step (fuel : nat) (n : N) :
  (10 <= n)%N ->
  decimal_from (S fuel) n
  = decimal_from fuel (n / 10)%N ++ [(48 + n mod 10)%N].
Proof.
  intros Hn. cbn [decimal_from].
  destruct (N.ltb_spec n 10) as [Hlt | _]; [lia | reflexivity].
Qed.

Lemma decimal_nonempty (n : N) : 1 <= length (decimal n).
Proof.
  unfold decimal. cbn [decimal_from].
  destruct (n <? 10)%N; [cbn [length]; lia|].
  rewrite length_app. cbn [length]. lia.
Qed.

Lemma decimal_four_digits (n : N) :
  (1000 <= n <= 9999)%N -> length (decimal n) = 4.
Proof.
  intros [Hlo Hhi]. unfold decimal.
  assert (Hlog : (9 <= N.log2 n)%N)
    by (change 9%N with (N.log2 512); apply N.log2_le_mono; lia).
  destruct (N.to_nat (N.log2 n)) as [|[|[|fuel]]] eqn:Efuel; try lia.
  assert (H1 : (100 <= n / 10 <= 999)%N).
  { split; [apply N.div_le_lower_bound; lia|].
    apply N.lt_succ_r. apply N.Div0.div_lt_upper_bound. lia. }
  assert (H2 : (10 <= n / 10 / 10 <= 99)%N).
  { split; [apply N.div_le_lower_bound; lia|].
    apply N.lt_succ_r. apply N.Div0.div_lt_upper_bound. lia. }
  assert (H3 : (n / 10 / 10 / 10 < 10)%N)
    by (apply N.Div0.div_lt_upper_bound; lia).
  rewrite !decimal_from_step by lia.
  rewrite decimal_from_small by exact H3.
  rewrite !length_app. reflexivity.
Qed.

(** A rendered date has the digits of the year and six more characters;
    that makes ten for a year of four digits. *)
Lemma strftime_ymd_shape (d : calendar) :
  length (strftime_ymd d) = length (decimal (Z.to_N (year d))) + 6
  /\ 7 <= length (strftime_ymd d)
  /\ ((1000 <= year d <= 9999)%Z -> length (strftime_ymd d) = 10).
Proof.
  assert (E : length (strftime_ymd d)
              = length (decimal (Z.to_N (year d))) + 6).
  { unfold strftime_ymd. rewrite !length_app. reflexivity. }
  pose proof (decimal_nonempty (Z.to_N (year d))) as Hone.
  split; [exact E|]. split; [lia|].
  intros Hyear. rewrite E, decimal_four_digits; [reflexivity | lia].
Qed.



(** A conversation without messages that matches no keyword is filed under
    "General Chat" with the tag "General", and scores below 0.2. *)
Example bare_conversation_built :
  option_map
    (fun record => (category record, tags record, relevance_score record,
                    date record, date_source record))
    (match @extract_conversation_details ascii_runtime bare_conversation with
     | Returns built => built
     | Raises => None
     end)
  = Some ([py "General Chat"], [py "General"], 0.19999999999999998%float,
          Some (py ""), py "missing").
Proof. vm_compute. reflexivity. Qed.

(** ** Properties of the description *)

(** The loop returns the first long message, cut at 200 characters, with an
    ellipsis; without a long message it leaves the description alone. *)
Lemma snippet_first_long (description : str) (messages : list str) :
  snippet description messages
  = match first_long messages with
    | Some msg => firstn 200 msg ++ py "..."
    | None => description
    end.
Proof.
  unfold first_long.
  induction messages as [|msg rest IH]; cbn [snippet find]; [reflexivity|].
  destruct (Nat.ltb 100 (length msg)); [reflexivity | exact IH].
Qed.

Lemma first_long_nonempty (messages : list str) (msg : str) :
  first_long messages = Some msg -> messages <> [].
Proof. destruct messages; [discriminate | discriminate]. Qed.

(** C9 as stated fails: with an empty combined description and one message
    of 120 letters, the description is not that message cut at 200
    characters; three dots follow it. *)
Lemma description_fallback_has_ellipsis :
  length (@combined_description ascii_runtime (py "Notes") [long_message])
    < 50
  /\ [long_message] <> []
  /\ first_long [long_message] = Some long_message
  /\ @create_intelligent_description ascii_runtime (py "Notes")
       [long_message]
     = long_message ++ py "..."
  /\ @create_intelligent_description ascii_runtime (py "Notes")
       [long_message]
     <> firstn 200 long_message.
Proof.
  split; [vm_compute; lia|].
  split; [discriminate|].
  split; [reflexivity|].
  split; [vm_compute; reflexivity|].
  vm_compute. discriminate.
Qed.

(** C9 (amended): whenever the combined description has fewer than 50
    characters and some message has more than 100, the description is the
    first 200 characters of the first such message followed by "..."; and
    for every input the description returned has at most 300 characters. *)
Theorem description_fallback `{R : Runtime} (title : str)
    (messages : list str) :
  (length (combined_description title messages) < 50 ->
   forall msg,
     first_long messages = Some msg ->
     create_intelligent_description title messages
     = firstn 200 msg ++ py "...")
  /\ length (create_intelligent_description title messages) <= 300.
Proof.
  split.
  - intros Hshort msg Hmsg.
    unfold create_intelligent_description. cbn zeta.
    apply Nat.ltb_lt in Hshort. rewrite Hshort.
    assert (Hne : messages <> [])
      by (eapply first_long_nonempty; exact Hmsg).
    destruct messages as [|m ms]; [contradiction Hne; reflexivity|].
    cbn [andb negb]. rewrite snippet_first_long, Hmsg.
    apply firstn_all2. rewrite length_app, length_firstn.
    change (length (py "...")) with 3. lia.
  - unfold create_intelligent_description. cbn zeta.
    rewrite length_firstn. lia.
Qed.

Lemma description_fallback_witness :
  (length (@combined_description ascii_runtime (py "Notes") [long_message])
     < 50 ->
   forall msg,
     first_long [long_message] = Some msg ->
     @create_intelligent_description ascii_runtime (py "Notes")
       [long_message]
     = firstn 200 msg ++ py "...")
  /\ length (@create_intelligent_description ascii_runtime (py "Notes")
               [long_message]) <= 300.
Proof.
  apply (@description_fallback ascii_runtime (py "Notes") [long_message]).
Defined.

(** Without a message of more than 100 characters the combined description
    is kept, cut at 300 characters. *)
Lemma description_without_long_message `{R : Runtime} (title : str)
    (messages : list str) :
  first_long messages = None ->
  create_intelligent_description title messages
  = firstn 300 (combined_description title messages).
Proof.
  intros Hnone. unfold create_intelligent_description. cbn zeta.
  destruct (_ && _); [|reflexivity].
  rewrite snippet_first_long, Hnone. reflexivity.
Qed.

(** ** Decoding: what [s.encode().decode('unicode_escape')] does to a text *)

Lemma Returns_inj {A} (a b : A) : Returns a = Returns b -> a = b.
Proof. congruence. Qed.

Lemma utf8_char_bytes (c : char) (bytes : list N) :
  utf8_char c = Returns bytes ->
  (c < 128 /\ bytes = [c])%N
  \/ ((128 <= c)%N /\ 2 <= length bytes
      /\ Forall (fun b => (128 <= b)%N) bytes).
Proof.
  unfold utf8_char, char in *.
  destruct (c <? 128)%N eqn:E1.
  { intros H. apply Returns_inj in H. subst bytes.
    left. apply N.ltb_lt in E1. auto. }
  apply N.ltb_ge in E1.
  destruct (c <? 2048)%N;
    [|destruct (c <? 65536)%N;
      [destruct ((55296 <=? c) && (c <=? 57343))%N; [discriminate|]
      |destruct (c <? 1114112)%N; [|discriminate]]];
    intros H; apply Returns_inj in H; subst bytes; right;
    (split; [exact E1|]); (split; [cbn [length]; lia|]);
    repeat (apply Forall_cons;
            [cbv beta;
             first [apply N.le_add_r
                   |eapply N.le_trans; [|apply N.le_add_r]; lia]|]);
    apply Forall_nil.
Qed.

Lemma encode_cons (c : char) (s : str) (bytes : list N) :
  encode (c :: s) = Returns bytes ->
  exists first rest,
    utf8_char c = Returns first /\ encode s = Returns rest
    /\ bytes = first ++ rest.
Proof.
  cbn [encode].
  destruct (utf8_char c) as [|first]; [discriminate|]. cbn [bind].
  destruct (encode s) as [|rest]; [discriminate|]. cbn [bind].
  intros [= <-]. eauto.
Qed.

(** Encoding adds no backslash, never shortens the text, and lengthens it
    as soon as one character is not ASCII. *)
Lemma encode_facts (s : str) :
  forall bytes,
    encode s = Returns bytes ->
    (~ In backslash s -> ~ In backslash bytes)
    /\ length s <= length bytes
    /\ (Exists (fun c => (128 <= c)%N) s -> length s < length bytes)
    /\ (Forall (fun c => (c < 128)%N) s -> bytes = s).
Proof.
  induction s as [|c s IH]; intros bytes H.
  - apply Returns_inj in H. subst bytes.
    split; [auto|]. split; [auto|]. split; [|auto].
    intros Hex. inversion Hex.
  - apply encode_cons in H.
    destruct H as (first & rest & Hc & Hs & ->).
    destruct (IH rest Hs) as (Hback & Hlen & Hgrow & Hascii).
    apply utf8_char_bytes in Hc.
    rewrite length_app. cbn [length].
    destruct Hc as [[Hlt ->] | (Hge & Hlen2 & Hall)].
    + split; [|split; [|split]].
      * intros Hno Hin. cbn [app] in Hin. destruct Hin as [Hin | Hin].
        -- apply Hno. left. exact Hin.
        -- apply Hback; [|exact Hin]. intros Hin'. apply Hno. right.
           exact Hin'.
      * cbn [length]. lia.
      * intros Hex. cbn [length].
        inversion Hex as [? ? Hc|? ? Hex']; subst.
        -- unfold char in *. lia.
        -- specialize (Hgrow Hex'). lia.
      * intros Hall. inversion Hall; subst. cbn [app]. f_equal. auto.
    + split; [|split; [|split]].
      * intros Hno Hin. apply in_app_or in Hin. destruct Hin as [Hin | Hin].
        -- rewrite Forall_forall in Hall. specialize (Hall _ Hin).
           unfold backslash in Hall. lia.
        -- apply Hback; [|exact Hin]. intros Hin'. apply Hno. right.
           exact Hin'.
      * lia.
      * intros _. lia.
      * intros Hall'. inversion Hall'; subst. unfold char in *. lia.
Qed.

(** Bytes without backslash decode to themselves. *)
Lemma unicode_escape_plain `{R : Runtime} (bytes : list N) :
  ~ In backslash bytes -> unicode_escape bytes = Returns bytes.
Proof.
  unfold unicode_escape.
  assert (Hfuel : length bytes <= S (length bytes)) by lia.
  revert Hfuel. generalize (S (length bytes)) as fuel. intros fuel.
  revert fuel. induction bytes as [|b bytes IH]; intros fuel Hfuel Hno.
  - destruct fuel; reflexivity.
  - destruct fuel as [|fuel]; [cbn [length] in Hfuel; lia|].
    cbn [unicode_escape_from].
    destruct (N.eqb b backslash) eqn:Eb.
    + apply N.eqb_eq in Eb. exfalso. apply Hno. left. congruence.
    + cbn [negb]. rewrite IH.
      * reflexivity.
      * cbn [length] in Hfuel. lia.
      * intros Hin. apply Hno. right. exact Hin.
Qed.

(** A text without backslash decodes to its UTF-8 bytes. *)
Lemma unescape_bytes `{R : Runtime} (s : str) (bytes : list N) :
  ~ In backslash s -> encode s = Returns bytes ->
  unescape s = Returns bytes.
Proof.
  intros Hno Henc. unfold unescape. rewrite Henc. cbn [bind].
  apply unicode_escape_plain. apply (encode_facts s Henc). exact Hno.
Qed.

(** A text without backslash decodes to its UTF-8 bytes, each read as one
    character: an ASCII text is unchanged, and a text with a character
    beyond ASCII comes out longer than it went in. *)
Theorem unescape_without_backslash `{R : Runtime} (s : str) (bytes : list N) :
  ~ In backslash s ->
  encode s = Returns bytes ->
  unescape s = Returns bytes
  /\ (Forall (fun c => (c < 128)%N) s -> bytes = s)
  /\ (Exists (fun c => (128 <= c)%N) s -> length s < length bytes).
Proof.
  intros Hno Henc.
  destruct (encode_facts s Henc) as (_ & _ & Hgrow & Hascii).
  split; [apply unescape_bytes; assumption | split; assumption].
Qed.

Lemma unescape_without_backslash_witness :
  @unescape ascii_runtime [233%N] = Returns [195%N; 169%N]
  /\ (Forall (fun c => (c < 128)%N) [233%N] -> [195%N; 169%N] = [233%N])
  /\ (Exists (fun c => (128 <= c)%N) [233%N] ->
      length [233%N] < length [195%N; 169%N]).
Proof.
  apply (@unescape_without_backslash ascii_runtime [233%N]).
  - intros [H | []]. discriminate H.
  - reflexivity.
Defined.

Lemma encode_ascii (s : str) :
  Forall (fun c => (c < 128)%N) s -> encode s = Returns s.
Proof.
  induction 1 as [|c s Hc _ IH]; [reflexivity|].
  cbn [encode]. unfold utf8_char. apply N.ltb_lt in Hc. rewrite Hc.
  cbn [bind]. rewrite IH. reflexivity.
Qed.

(** An ASCII text without backslash is decoded to itself. *)
Lemma unescape_plain `{R : Runtime} (s : str) :
  Forall (fun c => (c < 128)%N) s -> ~ In backslash s ->
  unescape s = Returns s.
Proof.
  intros Hascii Hno.
  apply unescape_bytes; [exact Hno | apply encode_ascii; exact Hascii].
Qed.

Lemma unicode_escape_trailing_backslash `{R : Runtime} (bytes : list N) :
  ~ In backslash bytes -> unicode_escape (bytes ++ [backslash]) = Raises.
Proof.
  unfold unicode_escape.
  generalize (S (length (bytes ++ [backslash]))) as fuel. intros fuel.
  revert fuel. induction bytes as [|b bytes IH]; intros fuel Hno.
  - destruct fuel; reflexivity.
  - destruct fuel as [|fuel]; [reflexivity|].
    cbn [app unicode_escape_from].
    destruct (N.eqb b backslash) eqn:Eb.
    + apply N.eqb_eq in Eb. exfalso. apply Hno. left. congruence.
    + cbn [negb]. rewrite IH; [reflexivity|].
      intros Hin. apply Hno. right. exact Hin.
Qed.

Lemma encode_app (a b : str) (bytes_a bytes_b : list N) :
  encode a = Returns bytes_a -> encode b = Returns bytes_b ->
  encode (a ++ b) = Returns (bytes_a ++ bytes_b).
Proof.
  revert bytes_a. induction a as [|c a IH]; intros bytes_a Ha Hb.
  - apply Returns_inj in Ha. subst. exact Hb.
  - apply encode_cons in Ha. destruct Ha as (first & rest & Hc & Ha & ->).
    cbn [app encode]. rewrite Hc. cbn [bind].
    rewrite (IH rest Ha Hb). cbn [bind]. rewrite app_assoc. reflexivity.
Qed.

Lemma encode_surrogate (s : str) (c : char) :
  In c s -> (55296 <= c)%N -> (c <= 57343)%N -> encode s = Raises.
Proof.
  intros Hin Hlo Hhi. induction s as [|x s IH]; [contradiction|].
  cbn [encode]. destruct Hin as [-> | Hin].
  - unfold utf8_char, char in *.
    replace (c <? 128)%N with false by (symmetry; apply N.ltb_ge; lia).
    replace (c <? 2048)%N with false by (symmetry; apply N.ltb_ge; lia).
    replace (c <? 65536)%N with true by (symmetry; apply N.ltb_lt; lia).
    replace (55296 <=? c)%N with true by (symmetry; apply N.leb_le; lia).
    replace (c <=? 57343)%N with true by (symmetry; apply N.leb_le; lia).
    reflexivity.
  - rewrite (IH Hin). destruct (utf8_char x); reflexivity.
Qed.

(** The decoding raises on a text that ends in a backslash after a part
    without backslash, and on a text that holds a surrogate code point. *)
Theorem unescape_raises `{R : Runtime} :
  (forall s bytes,
      ~ In backslash s -> encode s = Returns bytes ->
      unescape (s ++ [backslash]) = Raises)
  /\ (forall s c,
         In c s -> (55296 <= c)%N -> (c <= 57343)%N ->
         unescape s = Raises).
Proof.
  split.
  - intros s bytes Hno Henc. unfold unescape.
    rewrite (@encode_app s [backslash] bytes [backslash] Henc eq_refl).
    cbn [bind].
    apply unicode_escape_trailing_backslash.
    apply (encode_facts s Henc). exact Hno.
  - intros s c Hin Hlo Hhi. unfold unescape.
    rewrite (@encode_surrogate s c Hin Hlo Hhi). reflexivity.
Qed.

(** ** A title that cannot be decoded *)

Lemma unescape_windows_title `{R : Runtime} : unescape windows_title = Raises.
Proof. reflexivity. Qed.

(** A conversation whose title cannot be decoded makes the record builder
    raise. *)
Lemma undecodable_title_raises `{R : Runtime} (c : conv_data) (title : str) :
  conv_title c = Some title -> unescape title = Raises ->
  extract_conversation_details c = Raises.
Proof.
  intros Htitle Hraise. unfold extract_conversation_details.
  rewrite Htitle.
  destruct title as [|x title]; [discriminate Hraise|].
  cbn [orb].
  destruct (str_eqb (x :: title) (py "New conversation")) eqn:Enew.
  { apply str_eqb_eq in Enew. rewrite Enew in Hraise.
    rewrite unescape_plain in Hraise; [discriminate| |].
    - repeat constructor.
    - cbv. intuition discriminate. }
  destruct (convert_timestamp (conv_create_time c)) as [date_str src].
  match goal with
  | |- bind ?m _ = _ => destruct m as [|messages]; [reflexivity|]
  end.
  cbn [bind]. unfold clean_title. rewrite Hraise. reflexivity.
Qed.

(** One conversation whose title cannot be decoded makes the reading of
    the whole export raise, and the batch processor then takes nothing from
    that file: the conversations read before it are lost with it. *)
Theorem undecodable_title_loses_file `{R : Runtime}
    (file_path content : str) (c : conv_data) (title : str) :
  startswith (py "[") content = false ->
  startswith (py "{") content = false ->
  In c (parse_raw_text_export content) ->
  conv_title c = Some title ->
  unescape title = Raises ->
  parse_chatgpt_export content = Raises
  /\ conversations_of (file_path, content) = [].
Proof.
  intros Harray Hobject Hin Htitle Hraise.
  assert (H : parse_chatgpt_export content = Raises).
  { unfold parse_chatgpt_export. rewrite Harray, Hobject. cbn [bind].
    induction (parse_raw_text_export content) as [|d data IH];
      [contradiction|].
    cbn [parse_conversations]. destruct Hin as [-> | Hin].
    - rewrite (@undecodable_title_raises R c title Htitle Hraise).
      reflexivity.
    - rewrite (IH Hin).
      destruct (extract_conversation_details d); reflexivity. }
  split; [exact H|].
  unfold conversations_of. rewrite H. reflexivity.
Qed.

Lemma undecodable_title_loses_file_witness :
  @parse_chatgpt_export ascii_runtime windows_export = Raises
  /\ @conversations_of ascii_runtime
       (py "conv_part_aa.txt", windows_export) = [].
Proof.
  apply (@undecodable_title_loses_file ascii_runtime
           (py "conv_part_aa.txt") windows_export
           {| conv_title := Some windows_title;
              conv_create_time := No_time;
              conv_update_time := No_time;
              conv_messages := Some [];
              conv_raw_text := Some (py "C:\Users" ++ [dq] ++ py ", ") |}
           windows_title).
  - reflexivity.
  - reflexivity.
  - vm_compute. right. left. reflexivity.
  - reflexivity.
  - reflexivity.
Defined.

Lemma unescape_raises_witness :
  @unescape ascii_runtime (py "notes" ++ [backslash]) = Raises
  /\ @unescape ascii_runtime [55357%N] = Raises.
Proof.
  destruct (@unescape_raises ascii_runtime) as [Hback Hsur]. split.
  - apply (Hback (py "notes") (py "notes")); [|reflexivity].
    cbv. intuition discriminate.
  - apply (Hsur [55357%N] 55357%N); [left; reflexivity | |];
      discriminate.
Defined.

(** ** The raw-text reader: blocks and what they yield *)

(** A match of the boundary pattern starts with the quoted key and its
    colon. *)
Lemma title_boundary_match `{R : Runtime} (s rest : str)
    (cap : option str) :
  re_match title_boundary s = Some (cap, rest) ->
  startswith (quoted "title" ++ py ":") s = true.
Proof.
  intros H. apply re_match_sound in H. destruct H as (m & -> & H).
  unfold title_boundary in H.
  apply Matches_Then_inv in H. destruct H as (m1 & m2 & d & -> & Hkey & _).
  apply (Matches_Lit (quoted "title" ++ py ":")) in Hkey.
  destruct Hkey as [-> _].
  apply startswith_prefix. exists (m2 ++ rest).
  rewrite <- app_assoc. reflexivity.
Qed.

Lemma split_without_match (r : regex) (s : str) :
  (forall a b, s = a ++ b -> re_match r b = None) ->
  forall fuel piece,
    length s < fuel -> split_from fuel r s piece = [rev piece ++ s].
Proof.
  induction s as [|c s IH]; intros Hnone fuel piece Hfuel.
  - destruct fuel; [cbn [length] in Hfuel; lia|].
    cbn [split_from]. rewrite app_nil_r. reflexivity.
  - destruct fuel as [|fuel]; [lia|].
    cbn [split_from]. rewrite (Hnone [] (c :: s) eq_refl).
    rewrite IH.
    + cbn [rev]. rewrite <- app_assoc. reflexivity.
    + intros a b ->. apply (Hnone (c :: a) b). reflexivity.
    + cbn [length] in Hfuel. lia.
Qed.

Lemma contains_suffix (p a b : str) :
  contains p (a ++ b) = false -> contains p b = false.
Proof.
  induction a as [|c a IH]; [auto|].
  cbn [app contains]. intros H. apply orb_false_iff in H. tauto.
Qed.

Lemma contains_startswith (p s : str) :
  contains p s = false -> startswith p s = false.
Proof.
  destruct s; cbn [contains]; intros H; apply orb_false_iff in H; tauto.
Qed.

(** An export in which the quoted key "title" with its colon does not occur
    (the empty file, for one) holds no conversation. *)
Theorem no_title_no_conversation `{R : Runtime} (content : str) :
  contains (quoted "title" ++ py ":") content = false ->
  parse_raw_text_export content = [].
Proof.
  intros Hnone. unfold parse_raw_text_export, re_split. cbn zeta.
  rewrite split_without_match; [reflexivity| |lia].
  intros a b ->.
  destruct (re_match title_boundary b) as [[cap rest]|] eqn:E;
    [|reflexivity].
  apply title_boundary_match in E.
  apply contains_suffix, contains_startswith in Hnone. congruence.
Qed.

Lemma no_title_no_conversation_witness :
  @parse_raw_text_export ascii_runtime (py "{ mapping: none }") = [].
Proof.
  apply (@no_title_no_conversation ascii_runtime). reflexivity.
Defined.

Lemma parse_blocks_app `{R : Runtime} (before after : list str) :
  parse_blocks (before ++ after) = parse_blocks before ++ parse_blocks after.
Proof.
  induction before as [|block before IH]; [reflexivity|].
  cbn [app parse_blocks].
  destruct (parse_block block) as [|[conversation|]]; rewrite IH; reflexivity.
Qed.

(** A block that cannot be read (a number that [float] rejects, a message
    with a malformed escape) is passed over, and the blocks before and
    after it are read as if it were not there. *)
Theorem failing_block_skipped `{R : Runtime}
    (before after : list str) (block : str) :
  parse_block block = Raises ->
  parse_blocks (before ++ block :: after)
  = parse_blocks before ++ parse_blocks after.
Proof.
  intros Hraise. rewrite parse_blocks_app. cbn [parse_blocks].
  rewrite Hraise. reflexivity.
Qed.

Lemma failing_block_skipped_witness :
  @parse_blocks ascii_runtime
    ([skipn 10 literal_block]
       ++ (py "Broken" ++ [dq] ++ py ", " ++ quoted "create_time"
              ++ py ": 1.2.3") :: [skipn 10 literal_block])
  = @parse_blocks ascii_runtime [skipn 10 literal_block]
    ++ @parse_blocks ascii_runtime [skipn 10 literal_block].
Proof.
  apply (@failing_block_skipped ascii_runtime). reflexivity.
Defined.

Lemma Some_inj {A} (a b : A) : Some a = Some b -> a = b.
Proof. congruence. Qed.

Lemma parse_blocks_In `{R : Runtime} (blocks : list str) (c : conv_data) :
  In c (parse_blocks blocks) ->
  exists block, In block blocks /\ parse_block block = Returns (Some c).
Proof.
  induction blocks as [|block blocks IH]; [contradiction|].
  cbn [parse_blocks].
  destruct (parse_block block) as [|[conversation|]] eqn:E; cbn [In].
  - intros H. destruct (IH H) as (b & Hb & Hp). eauto.
  - intros [<- | H]; [eauto|]. destruct (IH H) as (b & Hb & Hp). eauto.
  - intros H. destruct (IH H) as (b & Hb & Hp). eauto.
Qed.

Lemma timestamp_of_cases `{R : Runtime} (key : string) (conv_text : str)
    (t : time_value) :
  timestamp_of key conv_text = Returns t ->
  t = No_time \/ exists f, t = Time (Float f).
Proof.
  unfold timestamp_of.
  destruct (re_search (number_field key) conv_text) as [m|].
  - destruct (float_of_str (group1 m)) as [|f]; [discriminate|].
    cbn [bind]. intros H. apply Returns_inj in H. subst. eauto.
  - intros H. apply Returns_inj in H. subst. auto.
Qed.

(** Every conversation the raw-text reader returns has a title that is not
    empty and holds no double quote, timestamps that are absent or floats,
    messages that are all longer than 20 characters and do not start with
    "You are", and at most 5000 characters of raw text. *)
Theorem raw_conversation_invariants `{R : Runtime} (content : str)
    (c : conv_data) :
  In c (parse_raw_text_export content) ->
  (exists title,
      conv_title c = Some title /\ title <> [] /\ ~ In dq title)
  /\ (conv_create_time c = No_time
      \/ exists f, conv_create_time c = Time (Float f))
  /\ (conv_update_time c = No_time
      \/ exists f, conv_update_time c = Time (Float f))
  /\ (exists messages,
         conv_messages c = Some messages
         /\ Forall (fun msg =>
                      20 < length msg
                      /\ ~ (exists rest, msg = py "You are" ++ rest))
                   messages)
  /\ (exists raw_text,
         conv_raw_text c = Some raw_text /\ length raw_text <= 5000).
Proof.
  unfold parse_raw_text_export. cbn zeta. intros Hin.
  apply parse_blocks_In in Hin. destruct Hin as (block & _ & H).
  unfold parse_block in H.
  destruct (re_match title_text block) as [[cap rest]|] eqn:Etitle;
    [|discriminate].
  destruct (timestamp_of "create_time" block) as [|created] eqn:Ec;
    [discriminate|]. cbn [bind] in H.
  destruct (timestamp_of "update_time" block) as [|updated] eqn:Eu;
    [discriminate|]. cbn [bind] in H.
  destruct (extract_messages_from_raw block) as [|messages] eqn:Em;
    [discriminate|]. cbn [bind] in H.
  apply Returns_inj, Some_inj in H. subst c.
  cbn [conv_title conv_create_time conv_update_time conv_messages
       conv_raw_text].
  split; [|split; [|split; [|split]]].
  - apply re_match_sound in Etitle. destruct Etitle as (m & _ & Hm).
    apply Matches_quoted_text in Hm.
    destruct Hm as (text & _ & -> & Hne & Hnq).
    exists text. auto.
  - eapply timestamp_of_cases. exact Ec.
  - eapply timestamp_of_cases. exact Eu.
  - exists messages. split; [reflexivity|].
    unfold extract_messages_from_raw in Em.
    apply clean_messages_filter in Em. destruct Em as (decoded & _ & ->).
    apply Forall_forall. intros msg Hmsg.
    apply filter_In in Hmsg. apply substantial_iff. tauto.
  - eexists. split; [reflexivity|]. apply firstn_le_length.
Qed.

Lemma raw_conversation_invariants_witness :
  (exists title,
      conv_title sample_conversation = Some title
      /\ title <> [] /\ ~ In dq title)
  /\ (conv_create_time sample_conversation = No_time
      \/ exists f, conv_create_time sample_conversation = Time (Float f))
  /\ (conv_update_time sample_conversation = No_time
      \/ exists f, conv_update_time sample_conversation = Time (Float f))
  /\ (exists messages,
         conv_messages sample_conversation = Some messages
         /\ Forall (fun msg =>
                      20 < length msg
                      /\ ~ (exists rest, msg = py "You are" ++ rest))
                   messages)
  /\ (exists raw_text,
         conv_raw_text sample_conversation = Some raw_text
         /\ length raw_text <= 5000).
Proof.
  apply (@raw_conversation_invariants ascii_runtime literal_block).
  assert (E : @parse_raw_text_export ascii_runtime literal_block
              = [sample_conversation]) by (vm_compute; reflexivity).
  rewrite E. left. reflexivity.
Defined.

(** ** Key phrases, deliverables and tools *)

Lemma re_search_match (r : regex) (s : str) (m : option str * str) :
  re_search r s = Some m ->
  exists before found_at,
    s = before ++ found_at /\ re_match r found_at = Some m.
Proof.
  induction s as [|c s IH]; cbn [re_search].
  - destruct (re_match r []) eqn:E; [|discriminate].
    intros H. apply Some_inj in H. subst. exists [], []. auto.
  - destruct (re_match r (c :: s)) eqn:E.
    + intros H. apply Some_inj in H. subst. exists [], (c :: s). auto.
    + intros H. destruct (IH H) as (before & found_at & -> & Hm).
      exists (c :: before), found_at. auto.
Qed.

Lemma Matches_phrase (m : str) (c0 c1 : option str) :
  Matches phrase m c0 c1 ->
  c1 = Some m /\ m <> [] /\ Forall (fun c => in_phrase c = true) m.
Proof.
  intros H. unfold phrase in H.
  apply Matches_Group_inv in H. destruct H as (-> & d & H).
  apply Matches_Plus_Class in H. destruct H as (Hne & Hall & _).
  auto.
Qed.

Lemma Matches_ends_with_phrase (a : regex) (m : str) (c0 c1 : option str) :
  Matches (Then a phrase) m c0 c1 ->
  exists text,
    c1 = Some text /\ text <> []
    /\ Forall (fun c => in_phrase c = true) text.
Proof.
  intros H. apply Matches_Then_inv in H.
  destruct H as (m1 & m2 & d & -> & _ & H).
  apply Matches_phrase in H. destruct H as (-> & Hne & Hall). eauto.
Qed.

Lemma cut_phrase (text : str) :
  text <> [] -> Forall (fun c => in_phrase c = true) text ->
  well_cut (firstn 30 text).
Proof.
  intros Hne Hall. split; [|split].
  - destruct text; [contradiction Hne; reflexivity | discriminate].
  - apply firstn_le_length.
  - apply Forall_forall. intros c Hc. rewrite Forall_forall in Hall.
    apply Hall. rewrite <- (firstn_skipn 30 text). apply in_or_app. auto.
Qed.

(** The phrase found by a pattern whose group is a phrase. *)
Lemma found_phrase (r : regex) (msg : str) :
  (forall m c0 c1,
      Matches r m c0 c1 ->
      exists text,
        c1 = Some text /\ text <> []
        /\ Forall (fun c => in_phrase c = true) text) ->
  match re_search r msg with
  | Some m => well_cut (firstn 30 (group1 m))
  | None => True
  end.
Proof.
  intros Hgroup.
  destruct (re_search r msg) as [[cap rest]|] eqn:E; [|exact I].
  apply re_search_match in E. destruct E as (before & found_at & _ & E).
  apply re_match_sound in E. destruct E as (m & _ & E).
  apply Hgroup in E. destruct E as (text & -> & Hne & Hall).
  cbn [group1 fst]. apply cut_phrase; assumption.
Qed.

Lemma create_or_build_phrase `{R : Runtime} (m : str) (c0 c1 : option str) :
  Matches create_or_build m c0 c1 ->
  exists text,
    c1 = Some text /\ text <> []
    /\ Forall (fun c => in_phrase c = true) text.
Proof.
  intros E. unfold create_or_build in E.
  apply Matches_Then_inv in E. destruct E as (m1 & m2 & d1 & -> & _ & E).
  apply Matches_Then_inv in E. destruct E as (m3 & m4 & d2 & -> & _ & E).
  apply Matches_ends_with_phrase in E. exact E.
Qed.

Lemma key_phrases_of_bounds `{R : Runtime} (msg : str) :
  length (key_phrases_of msg) <= 2 /\ Forall well_cut (key_phrases_of msg).
Proof.
  unfold key_phrases_of.
  pose proof (@found_phrase how_to msg
                (@Matches_ends_with_phrase (LitI (py "how to ")))) as H1.
  pose proof (@found_phrase create_or_build msg
                (@create_or_build_phrase R)) as H2.
  destruct (re_search how_to msg) as [m1|];
    destruct (re_search create_or_build msg) as [m2|];
    destruct (contains (py "how to") (lower msg));
    destruct (contains (py "create") (lower msg)
              || contains (py "build") (lower msg));
    cbn [app length]; (split; [lia|]);
    repeat (constructor; try assumption).
Qed.

Lemma well_cut_chars (p : str) :
  well_cut p ->
  1 <= length p <= 30
  /\ ~ In (chr ".") p /\ ~ In (chr "!") p /\ ~ In (chr "?") p.
Proof.
  intros (Hne & Hlen & Hall).
  split; [destruct p; [contradiction Hne; reflexivity
                      | cbn [length] in *; lia]|].
  rewrite Forall_forall in Hall.
  repeat split; intros Hin; specialize (Hall _ Hin); discriminate Hall.
Qed.

Lemma flat_map_key_phrases `{R : Runtime} (messages : list str) :
  length (flat_map key_phrases_of messages) <= 2 * length messages
  /\ Forall well_cut (flat_map key_phrases_of messages).
Proof.
  induction messages as [|msg messages [IHn IHall]]; cbn [flat_map length].
  - split; [lia | constructor].
  - destruct (key_phrases_of_bounds msg) as [Hn Hall].
    rewrite length_app. split; [lia|].
    apply Forall_app. split; assumption.
Qed.

(** [extract_key_phrases] returns at most six phrases (two for each of the
    first three messages); each has between 1 and 30 characters, none of
    them a full stop, an exclamation mark or a question mark. *)
Theorem key_phrases_bounds `{R : Runtime} (messages : list str) :
  length (extract_key_phrases messages) <= 6
  /\ forall p, In p (extract_key_phrases messages) ->
       1 <= length p <= 30
       /\ ~ In (chr ".") p /\ ~ In (chr "!") p /\ ~ In (chr "?") p.
Proof.
  unfold extract_key_phrases.
  destruct (flat_map_key_phrases (firstn 3 messages)) as [Hn Hall].
  pose proof (firstn_le_length 3 messages) as Hlen.
  split; [lia|].
  intros p Hp. apply well_cut_chars.
  rewrite Forall_forall in Hall. apply Hall. exact Hp.
Qed.

Lemma subsequence_firstn {A} (n : nat) (l : list A) :
  subsequence (firstn n l) l.
Proof.
  revert n; induction l as [|x l IH]; intros [|n]; cbn [firstn];
    try constructor; auto.
  - clear. induction l; constructor; assumption.
Qed.

Lemma subsequence_trans {A} (a b c : list A) :
  subsequence a b -> subsequence b c -> subsequence a c.
Proof.
  intros Hab Hbc. revert a Hab.
  induction Hbc as [|x b c _ IH|x b c _ IH]; intros a Hab.
  - exact Hab.
  - inversion Hab; subst; constructor; auto.
  - constructor. auto.
Qed.

Lemma subsequence_map {A B} (f : A -> B) (a b : list A) :
  subsequence a b -> subsequence (map f a) (map f b).
Proof. induction 1; cbn [map]; constructor; assumption. Qed.

Lemma subsequence_length {A} (a b : list A) :
  subsequence a b -> length a <= length b.
Proof. induction 1; cbn [length]; lia. Qed.

Lemma subsequence_NoDup {A} (a b : list A) :
  subsequence a b -> NoDup b -> NoDup a.
Proof.
  induction 1 as [|x a b Hsub IH|x a b Hsub IH]; intros Hb.
  - constructor.
  - inversion Hb; subst. constructor; auto.
    intros Hin. eauto using subsequence_In.
  - inversion Hb; subst. auto.
Qed.

Lemma names_found_subsequence `{R : Runtime}
    (patterns : list (str * regex)) (text : str) :
  subsequence (names_found patterns text) (map fst patterns).
Proof.
  unfold names_found. apply subsequence_map.
  apply subsequence_filter, subsequence_refl.
Qed.

(** [extract_deliverables] and [extract_tools] return at most three names,
    taken from their fixed lists, in the order of the list and each at most
    once. *)
Theorem names_from_fixed_lists `{R : Runtime} (text : str) :
  (length (extract_deliverables text) <= 3
   /\ subsequence (extract_deliverables text)
        (map py ["email sequence"; "landing page"; "sales page";
                 "VSL script"; "ad copy"; "headline"; "hook";
                 "framework"; "template"]%string)
   /\ NoDup (extract_deliverables text))
  /\ (length (extract_tools text) <= 3
      /\ subsequence (extract_tools text)
           (map py ["Claude"; "ChatGPT"; "n8n"; "Cursor"; "Zapier";
                    "Airtable"]%string)
      /\ NoDup (extract_tools text)).
Proof.
  assert (Hd : subsequence (extract_deliverables text)
                 (map fst deliverable_patterns)).
  { unfold extract_deliverables. cbn zeta.
    eapply subsequence_trans;
      [apply subsequence_firstn | apply names_found_subsequence]. }
  assert (Ht : subsequence (extract_tools text) (map fst tool_patterns)).
  { unfold extract_tools. cbn zeta.
    eapply subsequence_trans;
      [apply subsequence_firstn | apply names_found_subsequence]. }
  split; (split; [apply firstn_le_length|]); (split; [assumption|]).
  - apply (subsequence_NoDup Hd).
    repeat (constructor; [cbv; intuition discriminate|]). constructor.
  - apply (subsequence_NoDup Ht).
    repeat (constructor; [cbv; intuition discriminate|]). constructor.
Qed.

(** ** Categories *)

Section Sorting_facts.

Context {A : Type} (before : A -> A -> bool).

Hypothesis before_asym :
  forall a b, before a b = true -> before b a = false.
Hypothesis not_before_trans :
  forall a b c,
    before b a = false -> before c b = false -> before c a = false.

Lemma insert_sorted_sorted (x : A) (l : list A) :
  StronglySorted (fun a b => before b a = false) l ->
  StronglySorted (fun a b => before b a = false)
                 (insert_sorted before x l).
Proof.
  induction 1 as [|y l Hsorted IH Hall]; cbn [insert_sorted].
  - repeat constructor.
  - destruct (before y x) eqn:Hyx.
    + constructor; [exact IH|].
      apply Forall_forall. intros z Hz.
      apply (Permutation_in _ (insert_sorted_perm before x l)) in Hz.
      destruct Hz as [<- | Hz].
      * apply before_asym. exact Hyx.
      * rewrite Forall_forall in Hall. apply Hall. exact Hz.
    + constructor; [constructor; assumption|].
      constructor; [exact Hyx|].
      eapply Forall_impl; [|exact Hall].
      intros z Hz. eapply not_before_trans; eassumption.
Qed.

Lemma stable_sort_sorted (l : list A) :
  StronglySorted (fun a b => before b a = false) (stable_sort before l).
Proof.
  induction l as [|x l IH]; cbn; [constructor|].
  apply insert_sorted_sorted. exact IH.
Qed.

End Sorting_facts.

Lemma count_hits_zero (patterns : list str) (content : str) :
  count_hits patterns content = 0
  <-> forall pattern, In pattern patterns -> contains pattern content = false.
Proof.
  unfold count_hits. induction patterns as [|p patterns IH]; cbn [filter].
  - split; [intros _ q [] | reflexivity].
  - destruct (contains p content) eqn:E; cbn [length].
    + split; [discriminate|]. intros H.
      specialize (H p (or_introl eq_refl)). congruence.
    + rewrite IH. split.
      * intros H q [<- | Hq]; auto.
      * intros H q Hq. apply H. right. exact Hq.
Qed.

Lemma category_names_distinct : NoDup (map fst category_patterns).
Proof.
  repeat (constructor; [cbv; intuition discriminate|]). constructor.
Qed.

Lemma category_scores_names (content : str) :
  subsequence (map fst (category_scores content)) (map fst category_patterns).
Proof.
  unfold category_scores.
  induction category_patterns as [|entry table IH]; cbn [map filter].
  - constructor.
  - destruct (Nat.ltb 0 (snd (fst entry, count_hits (snd entry) content)));
      cbn [map fst]; constructor; exact IH.
Qed.

Lemma category_scores_empty (content : str) :
  category_scores content = []
  <-> forall entry pattern,
        In entry category_patterns -> In pattern (snd entry) ->
        contains pattern content = false.
Proof.
  unfold category_scores.
  induction category_patterns as [|entry table IH]; cbn [map filter].
  - split; [intros _ e p [] | reflexivity].
  - cbn [snd].
    destruct (Nat.ltb 0 (count_hits (snd entry) content)) eqn:E.
    + split; [discriminate|]. intros H. apply Nat.ltb_lt in E.
      assert (H0 : count_hits (snd entry) content = 0).
      { apply count_hits_zero. intros p Hp.
        apply (H entry p); [left; reflexivity | exact Hp]. }
      lia.
    + apply Nat.ltb_ge in E. rewrite IH. split.
      * intros H e p [<- | He] Hp; [|eauto].
        apply (proj1 (count_hits_zero (snd entry) content)); [lia|exact Hp].
      * intros H e p He Hp. apply (H e p); [right; exact He | exact Hp].
Qed.

Lemma any_in_false (words : list string) (content : str) :
  any_in words content = false
  <-> forall word, In word words -> contains (py word) content = false.
Proof.
  unfold any_in. induction words as [|w words IH]; cbn [existsb].
  - split; [intros _ x [] | reflexivity].
  - rewrite orb_false_iff, IH. split.
    + intros [Hw H] x [<- | Hx]; auto.
    + intros H. split; [apply H; left; reflexivity|].
      intros x Hx. apply H. right. exact Hx.
Qed.

Lemma any_in_true (words : list string) (content : str) :
  any_in words content = true ->
  incl words fallback_words ->
  ~ (forall word, In word fallback_words ->
                  contains (py word) content = false).
Proof.
  intros Hany Hincl Hnone.
  assert (H : any_in words content = false).
  { apply any_in_false. intros w Hw. apply Hnone, Hincl, Hw. }
  congruence.
Qed.

(** The body of [determine_categories] after the scoring. *)
Lemma determine_categories_cases `{R : Runtime} (title description : str)
    (messages : list str) :
  let content :=
    lower (title ++ py " " ++ description ++ py " "
                 ++ join (py " ") (firstn 5 messages)) in
  let sorted_categories :=
    stable_sort (fun a b => Nat.ltb (snd b) (snd a))
                (category_scores content) in
  (category_scores content <> []
   /\ determine_categories title description messages
      = map fst (firstn 3 sorted_categories))
  \/ (category_scores content = []
      /\ exists label,
           determine_categories title description messages = [label]
           /\ In label fallback_categories
           /\ (label = py "General Chat"
               <-> forall word, In word fallback_words ->
                                contains (py word) content = false)).
Proof.
  cbn zeta. unfold determine_categories. cbn zeta.
  set (content := lower _).
  destruct (category_scores content) as [|entry scores] eqn:Escores.
  - right. split; [reflexivity|].
    cbn [stable_sort fold_right firstn map].
    destruct (any_in ["prompt"; "template"; "system"]%string content)
      eqn:E1.
    { eexists. split; [reflexivity|]. split; [cbn; tauto|].
      split; [discriminate|]. intros H. exfalso.
      apply (@any_in_true _ _ E1); [|exact H].
      intros w Hw. cbn in Hw |- *. tauto. }
    destruct (any_in ["email"; "sequence"; "newsletter"]%string content)
      eqn:E2.
    { eexists. split; [reflexivity|]. split; [cbn; tauto|].
      split; [discriminate|]. intros H. exfalso.
      apply (@any_in_true _ _ E2); [|exact H].
      intros w Hw. cbn in Hw |- *. tauto. }
    destruct (any_in ["strategy"; "planning"; "framework"]%string content)
      eqn:E3.
    { eexists. split; [reflexivity|]. split; [cbn; tauto|].
      split; [discriminate|]. intros H. exfalso.
      apply (@any_in_true _ _ E3); [|exact H].
      intros w Hw. cbn in Hw |- *. tauto. }
    destruct (any_in ["research"; "customer"; "avatar"]%string content)
      eqn:E4.
    { eexists. split; [reflexivity|]. split; [cbn; tauto|].
      split; [discriminate|]. intros H. exfalso.
      apply (@any_in_true _ _ E4); [|exact H].
      intros w Hw. cbn in Hw |- *. tauto. }
    eexists. split; [reflexivity|]. split; [cbn; tauto|].
    split; [|reflexivity]. intros _ word Hword.
    rewrite any_in_false in E1, E2, E3, E4.
    cbn in Hword.
    repeat (destruct Hword as [<- | Hword];
            [first [solve [apply E1; cbn; tauto]
                   |solve [apply E2; cbn; tauto]
                   |solve [apply E3; cbn; tauto]
                   |solve [apply E4; cbn; tauto]]|]).
    contradiction.
  - left. split; [discriminate|].
    set (sorted := stable_sort _ (entry :: scores)).
    assert (Hperm : Permutation sorted (entry :: scores))
      by apply stable_sort_perm.
    destruct sorted as [|first sorted'] eqn:Esorted.
    + apply Permutation_nil in Hperm. discriminate Hperm.
    + reflexivity.
Qed.

Lemma scores_sorted (scores : list (str * nat)) :
  StronglySorted (fun a b => snd b <= snd a)
    (stable_sort (fun a b => Nat.ltb (snd b) (snd a)) scores).
Proof.
  eapply StronglySorted_ind with
    (P := fun l => StronglySorted (fun a b => snd b <= snd a) l);
    [constructor | |
     apply (stable_sort_sorted (fun a b => Nat.ltb (snd b) (snd a)))].
  - intros a l _ IH Hall. constructor; [exact IH|].
    eapply Forall_impl; [|exact Hall].
    cbv beta. intros b Hb. apply Nat.ltb_ge in Hb. exact Hb.
  - cbv beta. intros a b Hab. apply Nat.ltb_lt in Hab.
    apply Nat.ltb_ge. lia.
  - cbv beta. intros a b c Hab Hbc.
    apply Nat.ltb_ge in Hab, Hbc. apply Nat.ltb_ge. lia.
Qed.

Lemma NoDup_firstn {A} (n : nat) (l : list A) : NoDup l -> NoDup (firstn n l).
Proof. apply subsequence_NoDup, subsequence_firstn. Qed.

Lemma ranked_names (content : str) (n : nat) (c : str) :
  In c (map fst (firstn n
          (stable_sort (fun a b => Nat.ltb (snd b) (snd a))
                       (category_scores content)))) ->
  In c (map fst category_patterns).
Proof.
  intros Hc.
  eapply subsequence_In; [apply (category_scores_names content)|].
  eapply Permutation_in;
    [apply Permutation_map, stable_sort_perm|].
  apply in_map_iff in Hc. destruct Hc as (e & <- & He).
  apply in_map.
  rewrite <- (firstn_skipn n (stable_sort _ (category_scores content))).
  apply in_or_app. left. exact He.
Qed.

(** Every category is a key of the pattern table or a label of the fallback
    chain, and no category is returned twice. *)
Theorem categories_vocabulary `{R : Runtime} (title description : str)
    (messages : list str) :
  let categories := determine_categories title description messages in
  (forall c, In c categories ->
     In c (map fst category_patterns) \/ In c fallback_categories)
  /\ NoDup categories.
Proof.
  cbn zeta.
  destruct (determine_categories_cases title description messages)
    as [[_ ->] | [_ (label & -> & Hlabel & _)]].
  - set (scores := category_scores _).
    set (sorted := stable_sort _ scores).
    assert (Hperm : Permutation sorted scores) by apply stable_sort_perm.
    assert (Hnames : NoDup (map fst sorted)).
    { eapply Permutation_NoDup;
        [apply Permutation_map, Permutation_sym, Hperm|].
      eapply subsequence_NoDup;
        [apply category_scores_names | exact category_names_distinct]. }
    split.
    + intros c Hc. left. eapply ranked_names. exact Hc.
    + rewrite <- firstn_map. apply NoDup_firstn. exact Hnames.
  - split.
    + intros c [<- | []]. right. exact Hlabel.
    + repeat constructor. intros [].
Qed.

(** "General Chat" is returned exactly when the text holds no keyword of
    the pattern table and no word of the fallback chain, and then it is the
    only category. *)
Theorem general_chat_iff `{R : Runtime} (title description : str)
    (messages : list str) :
  let content :=
    lower (title ++ py " " ++ description ++ py " "
                 ++ join (py " ") (firstn 5 messages)) in
  let categories := determine_categories title description messages in
  (In (py "General Chat") categories
   <-> categories = [py "General Chat"])
  /\ (categories = [py "General Chat"]
      <-> (forall entry pattern,
              In entry category_patterns -> In pattern (snd entry) ->
              contains pattern content = false)
          /\ (forall word, In word fallback_words ->
                           contains (py word) content = false)).
Proof.
  cbn zeta.
  destruct (determine_categories_cases title description messages)
    as [[Hscored E] | [Hnone (label & E & Hlabel & Hgeneral)]].
  - assert (Hnot : ~ In (py "General Chat")
                       (determine_categories title description messages)).
    { rewrite E. intros Hin.
      assert (Hkey : In (py "General Chat") (map fst category_patterns))
        by (eapply ranked_names; exact Hin).
      revert Hkey. cbv. intuition discriminate. }
    split.
    + split; [intros H; contradiction|].
      intros H. rewrite H in Hnot. exfalso. apply Hnot. left. reflexivity.
    + split.
      * intros H. rewrite H in Hnot. exfalso. apply Hnot. left.
        reflexivity.
      * intros [Hkeys _]. apply category_scores_empty in Hkeys.
        contradiction.
  - rewrite E. split.
    + split.
      * intros [-> | []]. reflexivity.
      * intros H. apply (f_equal (@hd str [])) in H. cbn [hd] in H.
        left. exact H.
    + split.
      * intros H. apply (f_equal (@hd str [])) in H. cbn [hd] in H.
        split; [apply category_scores_empty; exact Hnone|].
        apply Hgeneral. exact H.
      * intros [_ Hwords]. apply Hgeneral in Hwords. rewrite Hwords.
        reflexivity.
Qed.

Lemma StronglySorted_app_inv {A} (R : A -> A -> Prop) (l1 l2 : list A) :
  StronglySorted R (l1 ++ l2) ->
  forall x y, In x l1 -> In y l2 -> R x y.
Proof.
  induction l1 as [|a l1 IH]; intros Hs x y Hx Hy; [contradiction|].
  cbn [app] in Hs. inversion Hs as [|? ? Hs' Hall]; subst.
  destruct Hx as [<- | Hx].
  - rewrite Forall_forall in Hall. apply Hall. apply in_or_app. auto.
  - apply IH; assumption.
Qed.

(** When some keyword of the pattern table occurs, the categories returned
    are the scored categories with the most hits, three at most, by
    descending number of hits: a scored category that is left out has no
    more hits than any category returned. *)
Theorem categories_ranked `{R : Runtime} (title description : str)
    (messages : list str) :
  let content :=
    lower (title ++ py " " ++ description ++ py " "
                 ++ join (py " ") (firstn 5 messages)) in
  category_scores content <> [] ->
  exists ranked omitted,
    Permutation (ranked ++ omitted) (category_scores content)
    /\ determine_categories title description messages = map fst ranked
    /\ length ranked = Nat.min 3 (length (category_scores content))
    /\ StronglySorted (fun a b => snd b <= snd a) ranked
    /\ (forall kept left_out,
           In kept ranked -> In left_out omitted ->
           snd left_out <= snd kept).
Proof.
  cbn zeta. intros Hscored.
  destruct (determine_categories_cases title description messages)
    as [[_ E] | [Hnone _]]; [|contradiction].
  set (scores := category_scores _) in *.
  set (sorted := stable_sort _ scores) in *.
  pose proof (scores_sorted scores) as Hsorted. fold sorted in Hsorted.
  pose proof (stable_sort_perm (fun a b => Nat.ltb (snd b) (snd a)) scores)
    as Hperm. fold sorted in Hperm.
  exists (firstn 3 sorted), (skipn 3 sorted).
  rewrite firstn_skipn. split; [exact Hperm|]. split; [exact E|].
  split; [rewrite length_firstn, (Permutation_length Hperm); reflexivity|].
  rewrite <- (firstn_skipn 3 sorted) in Hsorted.
  split.
  - clear -Hsorted. induction (firstn 3 sorted) as [|a l IH];
      [constructor|].
    cbn [app] in Hsorted. inversion Hsorted as [|? ? Hs Hall]; subst.
    constructor; [apply IH; exact Hs|].
    apply Forall_app in Hall. tauto.
  - intros kept left_out Hk Hl.
    apply (@StronglySorted_app_inv _ (fun a b : str * nat => snd b <= snd a)
             _ _ Hsorted kept left_out Hk Hl).
Qed.

Lemma categories_ranked_witness :
  exists ranked omitted,
    Permutation (ranked ++ omitted)
      (category_scores
         (@lower ascii_runtime
            (py "Email strategy" ++ py " " ++ [] ++ py " "
                ++ join (py " ") (firstn 5 []))))
    /\ @determine_categories ascii_runtime (py "Email strategy") [] []
       = map fst ranked
    /\ length ranked
       = Nat.min 3
           (length (category_scores
                      (@lower ascii_runtime
                         (py "Email strategy" ++ py " " ++ [] ++ py " "
                             ++ join (py " ") (firstn 5 [])))))
    /\ StronglySorted (fun a b => snd b <= snd a) ranked
    /\ (forall kept left_out,
           In kept ranked -> In left_out omitted ->
           snd left_out <= snd kept).
Proof.
  apply (@categories_ranked ascii_runtime (py "Email strategy") [] []).
  vm_compute. discriminate.
Defined.

(** ** Tags, titles and the fields of a record *)

Lemma set_add_NoDup (x : str) (members : list str) :
  NoDup members -> NoDup (set_add x members).
Proof.
  intros H. unfold set_add.
  destruct (str_in x members) eqn:E; [exact H|].
  apply NoDup_app; [exact H | repeat constructor; intros [] |].
  intros y Hy [E' | []]. subst y.
  assert (Hx : str_in x members = true) by (apply str_in_In; exact Hy).
  congruence.
Qed.

Lemma add_if_NoDup (test : bool) (tag : string) (members : list str) :
  NoDup members -> NoDup (add_if test tag members).
Proof.
  intros H. unfold add_if. destruct test; [apply set_add_NoDup|]; exact H.
Qed.

Lemma fold_set_add_NoDup (content : str) (patterns : list str) :
  forall members,
    NoDup members ->
    NoDup (fold_left
             (fun tags pattern =>
                if contains pattern content
                then set_add (title_case pattern) tags else tags)
             patterns members).
Proof.
  induction patterns as [|p patterns IH]; intros members H; [exact H|].
  cbn [fold_left]. apply IH.
  destruct (contains p content); [apply set_add_NoDup|]; exact H.
Qed.

(** No tag is returned twice, whatever the order in which the set yields
    its members. *)
Theorem tags_distinct `{R : Runtime} (title description : str)
    (messages : list str) :
  NoDup (generate_specific_tags title description messages).
Proof.
  unfold generate_specific_tags. cbn zeta.
  match goal with
  | |- NoDup (match ?t with [] => _ | _ :: _ => _ end) =>
      assert (H : NoDup t)
        by (repeat apply add_if_NoDup; apply fold_set_add_NoDup;
            constructor);
      destruct t as [|tag members]
  end.
  - repeat constructor. intros [].
  - apply NoDup_firstn.
    eapply Permutation_NoDup;
      [apply Permutation_sym, set_order_perm | exact H].
Qed.

Lemma subsequence_filter_self {A} (f : A -> bool) (l : list A) :
  subsequence (filter f l) l.
Proof. apply subsequence_filter, subsequence_refl. Qed.

Lemma filter_kept {A} (f : A -> bool) (l : list A) :
  Forall (fun x => f x = true) l -> filter f l = l.
Proof.
  induction 1 as [|x l Hx _ IH]; cbn [filter]; [reflexivity|].
  rewrite Hx, IH. reflexivity.
Qed.

(** A cleaned title has at most 100 characters, all of them word
    characters, white space or the punctuation the pattern lists, taken in
    order from the decoded title; and a title of at most 100 such
    characters, ASCII and without backslash, is returned as it is. *)
Theorem clean_title_result `{R : Runtime} (title : str) :
  (forall cleaned,
      clean_title title = Returns cleaned ->
      length cleaned <= 100
      /\ Forall (fun c => kept_in_title c = true) cleaned
      /\ exists decoded,
           unescape title = Returns decoded /\ subsequence cleaned decoded)
  /\ (Forall (fun c => (c < 128)%N) title ->
      ~ In backslash title ->
      Forall (fun c => kept_in_title c = true) title ->
      length title <= 100 ->
      clean_title title = Returns title).
Proof.
  unfold clean_title. split.
  - intros cleaned H.
    destruct (unescape title) as [|decoded]; [discriminate|].
    cbn [bind] in H. apply Returns_inj in H. subst cleaned.
    split; [apply firstn_le_length|]. split.
    + apply Forall_forall. intros c Hc.
      assert (Hin : In c (filter kept_in_title decoded)).
      { rewrite <- (firstn_skipn 100 (filter kept_in_title decoded)).
        apply in_or_app. left. exact Hc. }
      apply filter_In in Hin. tauto.
    + exists decoded. split; [reflexivity|].
      eapply subsequence_trans;
        [apply subsequence_firstn | apply subsequence_filter_self].
  - intros Hascii Hno Hkept Hlen.
    rewrite (unescape_plain Hascii Hno). cbn [bind].
    rewrite (filter_kept _ Hkept), firstn_all2; [reflexivity | exact Hlen].
Qed.

Lemma clean_title_result_witness :
  (forall cleaned,
      @clean_title ascii_runtime (py "Plan: Q3 (draft)") = Returns cleaned ->
      length cleaned <= 100
      /\ Forall (fun c => @kept_in_title ascii_runtime c = true) cleaned
      /\ exists decoded,
           @unescape ascii_runtime (py "Plan: Q3 (draft)") = Returns decoded
           /\ subsequence cleaned decoded)
  /\ @clean_title ascii_runtime (py "Plan: Q3 (draft)")
     = Returns (py "Plan: Q3 (draft)").
Proof.
  destruct (@clean_title_result ascii_runtime (py "Plan: Q3 (draft)"))
    as [Hbounds Hplain].
  split; [exact Hbounds|]. apply Hplain.
  - repeat constructor.
  - cbv. intuition discriminate.
  - repeat constructor.
  - cbn. lia.
Defined.

(** The fields of a returned record that come from the title and from the
    messages given. *)
Lemma built_record_fields `{R : Runtime} (conv_data : conv_data)
    (record : conversation_record) :
  extract_conversation_details conv_data = Returns (Some record) ->
  exists title id,
    conv_title conv_data = Some title
    /\ clean_title title = Returns (name record)
    /\ generate_id title = Returns id
    /\ url record = py "https://chat.openai.com/c/" ++ id
    /\ creator record = py "Piet Weinman"
    /\ type record = py "chatgpt"
    /\ (forall m ms,
           conv_messages conv_data = Some (m :: ms) ->
           message_volume record = S (length ms)).
Proof.
  unfold extract_conversation_details.
  destruct (conv_title conv_data) as [title|]; [|discriminate].
  destruct title as [|c title]; [discriminate|].
  cbn [orb].
  destruct (str_eqb (c :: title) (py "New conversation")); [discriminate|].
  destruct (convert_timestamp (conv_create_time conv_data))
    as [date_str src].
  destruct (conv_messages conv_data) as [[|m ms]|];
    destruct (conv_raw_text conv_data) as [raw|];
    cbn [bind];
    try (destruct (extract_messages_from_raw raw) as [|messages];
         [discriminate|]; cbn [bind]);
    (destruct (clean_title (c :: title)) as [|cleaned] eqn:Ec;
     [discriminate|]; cbn [bind];
     destruct (generate_id (c :: title)) as [|id] eqn:Ei;
     [discriminate|]; cbn [bind];
     intros H; apply Returns_inj, Some_inj in H; subst record;
     exists (c :: title), id;
     cbn [name url creator type message_volume];
     repeat split; try reflexivity; try assumption;
     try (intros m' ms' E; discriminate E);
     try (intros m' ms' E; apply Some_inj in E; injection E as <- <-;
          reflexivity)).
Qed.

(** The shape of a record: a name of at most 100 characters, a description
    of at most 300, a date that is empty or a rendered date (at least seven
    characters, ten when the year has four digits), one of the two date
    sources, the fixed creator and type, the address ending in an
    identifier of at most 12 characters, no source file yet, and as message
    volume the number of messages given when there are some. *)
Theorem built_record_shape `{R : Runtime} (conv_data : conv_data)
    (record : conversation_record) :
  extract_conversation_details conv_data = Returns (Some record) ->
  length (name record) <= 100
  /\ length (description record) <= 300
  /\ (exists d,
         date record = Some d
         /\ (d = []
             \/ exists date_obj,
                  d = strftime_ymd date_obj
                  /\ 7 <= length d
                  /\ ((1000 <= year date_obj <= 9999)%Z -> length d = 10)))
  /\ (date_source record = py "exact" \/ date_source record = py "missing")
  /\ creator record = py "Piet Weinman"
  /\ type record = py "chatgpt"
  /\ (exists id,
         url record = py "https://chat.openai.com/c/" ++ id
         /\ length id <= 12)
  /\ source_file record = None
  /\ (forall m ms,
         conv_messages conv_data = Some (m :: ms) ->
         message_volume record = S (length ms)).
Proof.
  intros H.
  destruct (built_record_fields _ H)
    as (title & id & _ & Hname & Hid & Hurl & Hcreator & Htype & Hvolume).
  apply built_record in H.
  destruct H as (title' & messages & _ & _ & _ & Hdesc & _ & _ & _ & _
                 & Hdate & Hsource & Hfile).
  split.
  { unfold clean_title in Hname.
    destruct (unescape title) as [|decoded]; [discriminate|].
    cbn [bind] in Hname. apply Returns_inj in Hname. rewrite <- Hname.
    apply firstn_le_length. }
  split.
  { rewrite Hdesc. unfold create_intelligent_description. cbn zeta.
    apply firstn_le_length. }
  split.
  { rewrite Hdate.
    destruct (convert_timestamp_cases (conv_create_time conv_data))
      as [E | (n & date_obj & _ & _ & E)]; rewrite E; cbn [fst].
    - exists []. auto.
    - eexists. split; [reflexivity|]. right. exists date_obj.
      split; [reflexivity|]. apply strftime_ymd_shape. }
  split.
  { rewrite Hsource.
    destruct (convert_timestamp_cases (conv_create_time conv_data))
      as [E | (n & date_obj & _ & _ & E)]; rewrite E; cbn [snd]; auto. }
  split; [exact Hcreator|]. split; [exact Htype|].
  split.
  { exists id. split; [exact Hurl|].
    unfold generate_id in Hid.
    destruct (encode title) as [|bytes]; [discriminate|].
    cbn [bind] in Hid. apply Returns_inj in Hid. subst id.
    apply firstn_le_length. }
  split; [exact Hfile | exact Hvolume].
Qed.

Lemma built_record_shape_witness :
  length (name sample_built) <= 100
  /\ length (description sample_built) <= 300
  /\ (exists d,
         date sample_built = Some d
         /\ (d = []
             \/ exists date_obj,
                  d = strftime_ymd date_obj
                  /\ 7 <= length d
                  /\ ((1000 <= year date_obj <= 9999)%Z -> length d = 10)))
  /\ (date_source sample_built = py "exact"
      \/ date_source sample_built = py "missing")
  /\ creator sample_built = py "Piet Weinman"
  /\ type sample_built = py "chatgpt"
  /\ (exists id,
         url sample_built = py "https://chat.openai.com/c/" ++ id
         /\ length id <= 12)
  /\ source_file sample_built = None
  /\ (forall m ms,
         conv_messages sample_conversation = Some (m :: ms) ->
         message_volume sample_built = S (length ms)).
Proof.
  apply (@built_record_shape ascii_runtime sample_conversation).
  vm_compute. reflexivity.
Defined.

(** ** More on the batch processor *)

Lemma first_occurrences_distinct (records : list conversation_record) :
  NoDup (map dedup_key records) -> first_occurrences records = records.
Proof.
  induction records as [|conv rest IH]; cbn [map first_occurrences];
    intros H; [reflexivity|].
  inversion H as [|k ks Hnotin Hrest]; subst.
  rewrite (IH Hrest). f_equal. apply filter_kept.
  apply Forall_forall. intros later Hlater.
  apply negb_true_iff, not_true_iff_false. intros E.
  apply has_key_iff in E. apply Hnotin. rewrite <- E.
  apply in_map. exact Hlater.
Qed.

(** Removing duplicates a second time changes nothing, and a list without
    two records of the same name and date is returned as it is. *)
Theorem dedup_idempotent (all_conversations : list conversation_record) :
  remove_duplicates (remove_duplicates all_conversations)
  = remove_duplicates all_conversations
  /\ (NoDup (map dedup_key all_conversations) ->
      remove_duplicates all_conversations = all_conversations)
  /\ length (remove_duplicates all_conversations)
     <= length all_conversations.
Proof.
  rewrite !remove_duplicates_first_occurrences.
  split; [|split].
  - apply first_occurrences_distinct, first_occurrences_NoDup.
  - apply first_occurrences_distinct.
  - apply subsequence_length, first_occurrences_subsequence.
Qed.

Lemma filter_insert_sorted {A} (before : A -> A -> bool) (keep : A -> bool)
    (x : A) (l : list A) :
  (forall y, before y x = true -> keep x = true -> keep y = false) ->
  filter keep (insert_sorted before x l)
  = if keep x then x :: filter keep l else filter keep l.
Proof.
  intros Hskip. induction l as [|y l IH]; cbn [insert_sorted filter].
  - reflexivity.
  - destruct (before y x) eqn:Eyx; cbn [filter].
    + rewrite IH. destruct (keep x) eqn:Ex.
      * rewrite (Hskip y Eyx eq_refl). reflexivity.
      * reflexivity.
    + reflexivity.
Qed.

(** The final sort returns the same records in ascending order of their
    key, and records with the same key keep the order they had. *)
Theorem final_sort_order (unique_conversations : list conversation_record) :
  Permutation (sort_by_date unique_conversations) unique_conversations
  /\ StronglySorted
       (fun a b => str_ltb (sort_key b) (sort_key a) = false)
       (sort_by_date unique_conversations)
  /\ forall key,
       filter (fun conv => str_eqb (sort_key conv) key)
              (sort_by_date unique_conversations)
       = filter (fun conv => str_eqb (sort_key conv) key)
                unique_conversations.
Proof.
  destruct (sort_by_date_sorted unique_conversations) as [Hperm Hsorted].
  split; [exact Hperm|]. split; [exact Hsorted|].
  intros key. unfold sort_by_date.
  induction unique_conversations as [|x l IH]; [reflexivity|].
  cbn [stable_sort fold_right]. fold (stable_sort
    (fun a b => str_ltb (sort_key a) (sort_key b)) l).
  rewrite filter_insert_sorted.
  - cbn [filter]. rewrite IH.
    + reflexivity.
    + apply stable_sort_perm.
    + apply sort_by_date_sorted.
  - intros y Hyx Hx. apply str_eqb_eq in Hx.
    apply not_true_iff_false. intros Hy. apply str_eqb_eq in Hy.
    rewrite Hx, Hy, str_ltb_irrefl in Hyx. discriminate.
Qed.

Lemma conversations_of_sources `{R : Runtime} (file : str * str)
    (conv : conversation_record) :
  In conv (conversations_of file) ->
  source_file conv = Some (basename (fst file))
  /\ exists parsed record,
       parse_chatgpt_export (snd file) = Returns parsed
       /\ In record parsed
       /\ conv = set_source_file (basename (fst file)) record.
Proof.
  destruct file as [file_path content]. unfold conversations_of.
  cbn [fst snd].
  destruct (parse_chatgpt_export content) as [|parsed] eqn:E;
    [contradiction|].
  intros Hin. apply in_map_iff in Hin. destruct Hin as (record & <- & Hr).
  split; [reflexivity|]. exists parsed, record.
  split; [reflexivity|]. split; [exact Hr | reflexivity].
Qed.

(** ** The table: chunks and their files *)

Lemma chunks_from_closed {A} (size : nat) (l : list A) :
  forall count i,
    chunks_from count i size l
    = map (fun k => (i + k * size,
                     firstn size (skipn (i + k * size) l)))
          (seq 0 count).
Proof.
  induction count as [|count IH]; intros i; [reflexivity|].
  cbn [chunks_from seq map]. rewrite Nat.mul_0_l, Nat.add_0_r. f_equal.
  rewrite IH, <- seq_shift, map_map. apply map_ext. intros k.
  replace (i + size + k * size) with (i + S k * size) by (cbn; lia).
  reflexivity.
Qed.

Lemma chunks_concat {A} (size : nat) (l : list A) :
  forall count i,
    length l <= i + count * size ->
    concat (map snd (chunks_from count i size l)) = skipn i l.
Proof.
  induction count as [|count IH]; intros i Hlen.
  - cbn [chunks_from map concat]. symmetry. apply skipn_all2. lia.
  - cbn [chunks_from map concat snd]. rewrite IH by (cbn in Hlen; lia).
    etransitivity; [|apply (firstn_skipn size (skipn i l))].
    f_equal. rewrite skipn_skipn. f_equal. lia.
Qed.

Lemma ceiling_covers (n size : nat) :
  0 < size -> n <= (n + size - 1) / size * size.
Proof.
  intros Hsize.
  pose proof (Nat.div_mod_eq (n + size - 1) size) as Hdiv.
  pose proof (Nat.mod_upper_bound (n + size - 1) size) as Hmod.
  nia.
Qed.

Lemma below_ceiling (n size k : nat) :
  0 < size -> k < (n + size - 1) / size -> k * size < n.
Proof.
  intros Hsize Hk.
  pose proof (Nat.div_mod_eq (n + size - 1) size) as Hdiv.
  pose proof (Nat.mod_upper_bound (n + size - 1) size) as Hmod.
  nia.
Qed.

Lemma csv_rows_app (a b : list conversation_record)
    (rows_a rows_b : list csv_row) :
  csv_rows a = Returns rows_a -> csv_rows b = Returns rows_b ->
  csv_rows (a ++ b) = Returns (rows_a ++ rows_b).
Proof.
  revert rows_a. induction a as [|conv a IH]; intros rows_a Ha Hb.
  - apply Returns_inj in Ha. subst. exact Hb.
  - cbn [csv_rows app] in *.
    destruct (csv_row_of conv) as [|row]; [discriminate|]. cbn [bind] in *.
    destruct (csv_rows a) as [|rows]; [discriminate|]. cbn [bind] in *.
    apply Returns_inj in Ha. subst rows_a.
    rewrite (IH rows eq_refl Hb). reflexivity.
Qed.

Lemma csv_rows_length (chunk : list conversation_record)
    (rows : list csv_row) :
  csv_rows chunk = Returns rows -> length rows = length chunk.
Proof.
  revert rows. induction chunk as [|conv chunk IH]; intros rows H.
  - apply Returns_inj in H. subst. reflexivity.
  - cbn [csv_rows] in H.
    destruct (csv_row_of conv) as [|row]; [discriminate|]. cbn [bind] in H.
    destruct (csv_rows chunk) as [|rest]; [discriminate|]. cbn [bind] in H.
    apply Returns_inj in H. subst rows. cbn [length].
    rewrite (IH rest eq_refl). reflexivity.
Qed.

Lemma write_chunks_facts (output_path : str) (size : nat)
    (chunks : list (nat * list conversation_record)) :
  forall files,
    write_chunks output_path size chunks = Returns files ->
    csv_rows (concat (map snd chunks)) = Returns (concat (map snd files))
    /\ map fst files
       = map (fun c => chunk_filename output_path (fst c / size + 1)) chunks
    /\ map (fun f => length (snd f)) files
       = map (fun c => length (snd c)) chunks.
Proof.
  induction chunks as [|[i chunk] chunks IH]; intros files H.
  - apply Returns_inj in H. subst. auto.
  - cbn [write_chunks] in H.
    destruct (csv_rows chunk) as [|rows] eqn:Erows; [discriminate|].
    cbn [bind] in H.
    destruct (to_csv rows) as [|written]; [discriminate|].
    cbn [bind] in H.
    destruct (write_chunks output_path size chunks) as [|rest];
      [discriminate|].
    cbn [bind] in H. apply Returns_inj in H. subst files.
    destruct (IH rest eq_refl) as (Hrows & Hnames & Hlens).
    cbn [map concat fst snd]. split; [|split].
    + apply csv_rows_app; assumption.
    + rewrite Hnames. reflexivity.
    + rewrite Hlens, (csv_rows_length _ Erows). reflexivity.
Qed.

(** [convert_to_csv] with a chunk size above zero is the loop over the
    chunks, of which there are as many as the size requires. *)
Lemma convert_to_csv_positive (conversations : list conversation_record)
    (output_path : str) (chunk_size : Z) :
  (0 < chunk_size)%Z ->
  let size := Z.to_nat chunk_size in
  0 < size
  /\ convert_to_csv conversations output_path chunk_size
     = write_chunks output_path size
         (chunks_from ((length conversations + size - 1) / size) 0 size
                      conversations).
Proof.
  intros Hsize. cbn zeta. split; [lia|]. unfold convert_to_csv.
  destruct (Z.eqb_spec chunk_size 0) as [E | _]; [lia|].
  destruct (Z.ltb_spec chunk_size 0) as [E | _]; [lia|].
  reflexivity.
Qed.

Lemma convert_to_csv_files (conversations : list conversation_record)
    (output_path : str) (chunk_size : Z)
    (files : list (str * list csv_row)) :
  (0 < chunk_size)%Z ->
  convert_to_csv conversations output_path chunk_size = Returns files ->
  let size := Z.to_nat chunk_size in
  csv_rows conversations = Returns (concat (map snd files))
  /\ length files = (length conversations + size - 1) / size
  /\ Forall (fun file => 1 <= length (snd file) <= size) files
  /\ map fst files
     = map (chunk_filename output_path) (seq 1 (length files)).
Proof.
  intros Hpositive H. cbn zeta.
  destruct (convert_to_csv_positive conversations output_path Hpositive)
    as (Hsize & E).
  rewrite E in H. clear E.
  set (size := Z.to_nat chunk_size) in *.
  set (count := (length conversations + size - 1) / size) in *.
  apply write_chunks_facts in H.
  destruct H as (Hrows & Hnames & Hlens).
  assert (Hcount : length files = count).
  { rewrite <- (length_map fst), Hnames, length_map.
    rewrite chunks_from_closed, length_map, length_seq. reflexivity. }
  split.
  { rewrite chunks_concat in Hrows; [exact Hrows|].
    cbn [Nat.add]. apply ceiling_covers. exact Hsize. }
  split; [exact Hcount|].
  split.
  { apply Forall_forall. intros file Hfile.
    assert (Hin : In (length (snd file))
                     (map (fun f => length (snd f)) files))
      by (apply in_map_iff; eauto).
    rewrite Hlens, chunks_from_closed, map_map in Hin.
    apply in_map_iff in Hin. destruct Hin as (k & <- & Hk).
    apply in_seq in Hk. cbn [snd Nat.add].
    assert (Hbelow : k * size < length conversations)
      by (apply below_ceiling; [exact Hsize | fold count; lia]).
    rewrite length_firstn, length_skipn. lia. }
  rewrite Hnames, Hcount, chunks_from_closed, map_map.
  rewrite <- seq_shift, map_map. apply map_ext. intros k.
  cbn [fst Nat.add]. rewrite Nat.div_mul by lia.
  rewrite Nat.add_1_r. reflexivity.
Qed.

Lemma convert_to_csv_negative (conversations : list conversation_record)
    (output_path : str) (chunk_size : Z) :
  (chunk_size < 0)%Z ->
  convert_to_csv conversations output_path chunk_size = Returns [].
Proof.
  intros Hsize. unfold convert_to_csv.
  destruct (Z.eqb_spec chunk_size 0) as [E | _]; [lia|].
  destruct (Z.ltb_spec chunk_size 0) as [_ | E]; [reflexivity | lia].
Qed.

(** When [convert_to_csv] returns: for a negative chunk size it has
    written no file at all; for a chunk size above zero the lines of its
    files, put end to end, are the lines of all the conversations in
    order, there are as many files as chunks of the given size are needed,
    every file has at least one line and at most [chunk_size], and the
    files are numbered from 1. *)
Theorem csv_chunks (conversations : list conversation_record)
    (output_path : str) (chunk_size : Z)
    (files : list (str * list csv_row)) :
  convert_to_csv conversations output_path chunk_size = Returns files ->
  let size := Z.to_nat chunk_size in
  ((chunk_size < 0)%Z -> files = [])
  /\ ((0 < chunk_size)%Z ->
      csv_rows conversations = Returns (concat (map snd files))
      /\ length files = (length conversations + size - 1) / size
      /\ Forall (fun file => 1 <= length (snd file) <= size) files
      /\ map fst files
         = map (chunk_filename output_path) (seq 1 (length files))).
Proof.
  intros H. cbn zeta. split.
  - intros Hnegative.
    rewrite (convert_to_csv_negative conversations output_path Hnegative)
      in H.
    apply Returns_inj in H. symmetry. exact H.
  - intros Hpositive.
    apply (convert_to_csv_files conversations output_path Hpositive H).
Qed.

Lemma csv_chunks_witness :
  csv_rows (repeat sample_built 7)
  = Returns (concat (map snd
               [ (chunk_filename (py "out") 1,
                  repeat (Csv_row (py "Test")
                            (py "AI persona development for GTR quiz funnel")
                            (join (py "|") (category sample_built))
                            (py "Funnel,Sage,GTR") (py "2023-11-14")
                            (py "exact") 0.6%float 1 (py "Piet Weinman")
                            (py "chatgpt")
                            (py "https://chat.openai.com/c/0cbc6611f554")) 3);
                 (chunk_filename (py "out") 2,
                  repeat (Csv_row (py "Test")
                            (py "AI persona development for GTR quiz funnel")
                            (join (py "|") (category sample_built))
                            (py "Funnel,Sage,GTR") (py "2023-11-14")
                            (py "exact") 0.6%float 1 (py "Piet Weinman")
                            (py "chatgpt")
                            (py "https://chat.openai.com/c/0cbc6611f554")) 3);
                 (chunk_filename (py "out") 3,
                  repeat (Csv_row (py "Test")
                            (py "AI persona development for GTR quiz funnel")
                            (join (py "|") (category sample_built))
                            (py "Funnel,Sage,GTR") (py "2023-11-14")
                            (py "exact") 0.6%float 1 (py "Piet Weinman")
                            (py "chatgpt")
                            (py "https://chat.openai.com/c/0cbc6611f554")) 1)
               ]))
  /\ 3 = (length (repeat sample_built 7) + 3 - 1) / 3.
Proof.
  destruct (@csv_chunks (repeat sample_built 7) (py "out") 3%Z _
              ltac:(vm_compute; reflexivity))
    as (_ & H).
  destruct (H ltac:(lia)) as (Hrows & Hcount & _).
  split; [exact Hrows | exact Hcount].
Defined.

(** ** The table: when it cannot be written, and the scores it shows *)

Lemma encodable_false (text : str) :
  encodable text = false <-> encode text = Raises.
Proof.
  unfold encodable. destruct (encode text); split;
    congruence || reflexivity || discriminate.
Qed.

Lemma can_be_written_false (conv : conversation_record) :
  can_be_written conv = false
  <-> date conv = None
      \/ exists row text,
           csv_row_of conv = Returns row
           /\ In text (row_texts row) /\ encode text = Raises.
Proof.
  unfold can_be_written.
  destruct (csv_row_of conv) as [|row] eqn:Erow.
  - split; [intros _; left | reflexivity].
    unfold csv_row_of in Erow. destruct (date conv); [discriminate|].
    reflexivity.
  - split.
    + intros H. right.
      destruct (forallb encodable (row_texts row)) eqn:Eall;
        [discriminate|].
      assert (Hex : existsb (fun text => negb (encodable text))
                            (row_texts row) = true).
      { clear -Eall. induction (row_texts row) as [|t l IH];
          [discriminate|].
        cbn [forallb existsb] in *. destruct (encodable t); cbn [negb orb];
          [apply IH; exact Eall | reflexivity]. }
      apply existsb_exists in Hex. destruct Hex as (text & Hin & Htext).
      exists row, text. split; [reflexivity|]. split; [exact Hin|].
      apply encodable_false. destruct (encodable text);
        [discriminate Htext | reflexivity].
    + intros [Hnone | (row' & text & Hrow & Hin & Htext)].
      * unfold csv_row_of in Erow. rewrite Hnone in Erow. discriminate.
      * apply Returns_inj in Hrow. subst row'.
        destruct (forallb encodable (row_texts row)) eqn:Eall;
          [|reflexivity].
        rewrite forallb_forall in Eall. specialize (Eall text Hin).
        apply encodable_false in Htext. congruence.
Qed.

Lemma to_csv_cons (row : csv_row) (rows : list csv_row) :
  to_csv (row :: rows)
  = if forallb encodable (row_texts row) then to_csv rows else Raises.
Proof.
  unfold to_csv. cbn [forallb].
  destruct (forallb encodable (row_texts row)); reflexivity.
Qed.

Lemma chunk_outcome (chunk : list conversation_record) :
  if forallb can_be_written chunk
  then exists rows, csv_rows chunk = Returns rows /\ to_csv rows = Returns tt
  else csv_rows chunk = Raises
       \/ exists rows, csv_rows chunk = Returns rows /\ to_csv rows = Raises.
Proof.
  induction chunk as [|conv chunk IH]; cbn [forallb csv_rows].
  - exists []. split; reflexivity.
  - unfold can_be_written at 1.
    destruct (csv_row_of conv) as [|row]; cbn [bind andb];
      [left; reflexivity|].
    destruct (forallb can_be_written chunk).
    + destruct IH as (rows & Erows & Ewritten). rewrite Erows. cbn [bind].
      destruct (forallb encodable (row_texts row)) eqn:Erow; cbn [andb].
      * exists (row :: rows). split; [reflexivity|].
        rewrite to_csv_cons, Erow. exact Ewritten.
      * right. exists (row :: rows). split; [reflexivity|].
        rewrite to_csv_cons, Erow. reflexivity.
    + rewrite andb_false_r.
      destruct IH as [Erows | (rows & Erows & Ewritten)]; rewrite Erows;
        cbn [bind]; [left; reflexivity|].
      right. exists (row :: rows). split; [reflexivity|].
      rewrite to_csv_cons, Ewritten.
      destruct (forallb encodable (row_texts row)); reflexivity.
Qed.

Lemma write_chunks_outcome (output_path : str) (size : nat)
    (chunks : list (nat * list conversation_record)) :
  if forallb can_be_written (concat (map snd chunks))
  then exists files, write_chunks output_path size chunks = Returns files
  else write_chunks output_path size chunks = Raises.
Proof.
  induction chunks as [|[i chunk] chunks IH];
    cbn [map concat snd write_chunks].
  - exists []. reflexivity.
  - rewrite forallb_app. pose proof (chunk_outcome chunk) as Hchunk.
    destruct (forallb can_be_written chunk); cbn [andb].
    + destruct Hchunk as (rows & Erows & Ewritten).
      rewrite Erows. cbn [bind]. rewrite Ewritten. cbn [bind].
      destruct (forallb can_be_written (concat (map snd chunks))).
      * destruct IH as (files & Efiles). rewrite Efiles. cbn [bind].
        eexists. reflexivity.
      * rewrite IH. reflexivity.
    + destruct Hchunk as [Erows | (rows & Erows & Ewritten)];
        rewrite Erows; cbn [bind]; [reflexivity|].
      rewrite Ewritten. reflexivity.
Qed.

Lemma forallb_false_exists {A} (f : A -> bool) (l : list A) :
  forallb f l = false <-> exists x, In x l /\ f x = false.
Proof.
  induction l as [|y l IH]; cbn [forallb In].
  - split; [discriminate | intros (x & [] & _)].
  - rewrite andb_false_iff, IH. split.
    + intros [H | (x & Hin & H)]; eauto.
    + intros (x & [<- | Hin] & H); eauto.
Qed.

(** With a chunk size above zero [convert_to_csv] raises exactly when some
    record does not get its line written. *)
Lemma convert_to_csv_raises (conversations : list conversation_record)
    (output_path : str) (chunk_size : Z) :
  (0 < chunk_size)%Z ->
  convert_to_csv conversations output_path chunk_size = Raises
  <-> exists conv, In conv conversations /\ can_be_written conv = false.
Proof.
  intros Hpositive.
  destruct (convert_to_csv_positive conversations output_path Hpositive)
    as (Hsize & E).
  rewrite E. clear E.
  pose proof (write_chunks_outcome output_path (Z.to_nat chunk_size)
                (chunks_from ((length conversations + Z.to_nat chunk_size
                               - 1) / Z.to_nat chunk_size)
                             0 (Z.to_nat chunk_size) conversations))
    as Hout.
  rewrite chunks_concat in Hout
    by (cbn [Nat.add]; apply ceiling_covers; exact Hsize).
  cbn [skipn] in Hout. rewrite <- forallb_false_exists.
  destruct (forallb can_be_written conversations).
  - destruct Hout as (files & Efiles). rewrite Efiles.
    split; discriminate.
  - rewrite Hout. split; reflexivity.
Qed.


Ltac pick_member := solve [left; reflexivity | right; pick_member].

Lemma rounded_score (title description : str)
    (categories tags messages : list str) :
  In (py_round2 (calculate_relevance_score title description categories
                   tags messages))
     table_scores.
Proof.
  relevance_cases categories tags messages; vm_compute; pick_member.
Qed.

Lemma parsed_records_built `{R : Runtime} (data : list conv_data) :
  forall conversations,
    parse_conversations data = Returns conversations ->
    Forall (fun record =>
              exists conv_data,
                extract_conversation_details conv_data
                = Returns (Some record))
           conversations.
Proof.
  induction data as [|d data IH]; intros conversations H;
    cbn [parse_conversations] in H.
  - apply Returns_inj in H. subst. constructor.
  - destruct (extract_conversation_details d) as [|parsed] eqn:Ed;
      [discriminate|].
    cbn [bind] in H.
    destruct (parse_conversations data) as [|rest]; [discriminate|].
    cbn [bind] in H. apply Returns_inj in H. subst conversations.
    specialize (IH rest eq_refl).
    destruct parsed as [record|]; [|exact IH].
    constructor; [exists d; exact Ed | exact IH].
Qed.

Lemma export_records_built `{R : Runtime} (content : str)
    (conversations : list conversation_record) :
  parse_chatgpt_export content = Returns conversations ->
  Forall (fun record =>
            exists conv_data,
              extract_conversation_details conv_data
              = Returns (Some record))
         conversations.
Proof.
  unfold parse_chatgpt_export.
  match goal with
  | |- bind ?m _ = _ -> _ => destruct m as [|data]; [discriminate|]
  end.
  cbn [bind]. apply parsed_records_built.
Qed.

Lemma built_record_dated `{R : Runtime} (conv_data : conv_data)
    (record : conversation_record) :
  extract_conversation_details conv_data = Returns (Some record) ->
  exists d, date record = Some d.
Proof.
  intros H. apply built_record in H.
  destruct H as (title & messages & _ & _ & _ & _ & _ & _ & _ & _ & Hd & _).
  eauto.
Qed.

Lemma csv_rows_scores `{R : Runtime}
    (conversations : list conversation_record) :
  Forall (fun record =>
            exists conv_data,
              extract_conversation_details conv_data
              = Returns (Some record))
         conversations ->
  forall rows,
    csv_rows conversations = Returns rows ->
    Forall (fun row => In (row_relevance_score row) table_scores) rows.
Proof.
  induction 1 as [|record conversations (d & Hd) _ IH]; intros rows Hrows.
  - apply Returns_inj in Hrows. subst. constructor.
  - cbn [csv_rows] in Hrows. unfold csv_row_of at 1 in Hrows.
    destruct (date record) as [day|]; [|discriminate].
    cbn [bind] in Hrows.
    destruct (csv_rows conversations) as [|rest]; [discriminate|].
    cbn [bind] in Hrows. apply Returns_inj in Hrows. subst rows.
    constructor; [|apply IH; reflexivity].
    cbn [row_relevance_score].
    apply built_record in Hd.
    destruct Hd as (title & messages & _ & _ & _ & _ & _ & _ & Hs & _).
    rewrite Hs. apply rounded_score.
Qed.

(** For records that have a date, as those of the record builder all have,
    what keeps a line from being written is a text that cannot be
    encoded. *)
Lemma dated_not_written (conversations : list conversation_record) :
  Forall (fun c => exists d, date c = Some d) conversations ->
  (exists conv, In conv conversations /\ can_be_written conv = false)
  <-> exists conv row text,
        In conv conversations
        /\ csv_row_of conv = Returns row
        /\ In text (row_texts row) /\ encode text = Raises.
Proof.
  intros Hdated. rewrite Forall_forall in Hdated. split.
  - intros (conv & Hin & Hconv). apply can_be_written_false in Hconv.
    destruct Hconv as [Hnone | (row & text & Hrow & Htext & Hraise)].
    + destruct (Hdated conv Hin) as (d & Hd). congruence.
    + exists conv, row, text. auto.
  - intros (conv & row & text & Hin & Hrow & Htext & Hraise).
    exists conv. split; [exact Hin|]. apply can_be_written_false.
    right. exists row, text. auto.
Qed.

(** The table of an export that was read, with a chunk size above zero:
    [convert_to_csv] raises exactly when the line of some conversation
    holds a text that cannot be encoded for the file (a description with a
    surrogate code point, say); and when it returns, every score in its
    files is one of sixteen decimals with two places, from 0.2 to 1.0. *)
Theorem exported_scores `{R : Runtime} (content output_path : str)
    (chunk_size : Z) (conversations : list conversation_record) :
  parse_chatgpt_export content = Returns conversations ->
  (0 < chunk_size)%Z ->
  (convert_to_csv conversations output_path chunk_size = Raises
   <-> exists conv row text,
         In conv conversations
         /\ csv_row_of conv = Returns row
         /\ In text (row_texts row) /\ encode text = Raises)
  /\ forall files,
       convert_to_csv conversations output_path chunk_size = Returns files ->
       Forall (fun row => In (row_relevance_score row) table_scores)
              (concat (map snd files)).
Proof.
  intros Hparse Hsize.
  pose proof (export_records_built _ Hparse) as Hbuilt.
  split.
  - rewrite (convert_to_csv_raises conversations output_path Hsize).
    apply dated_not_written.
    eapply Forall_impl; [|exact Hbuilt].
    intros record (d & Hd). apply (built_record_dated _ Hd).
  - intros files Hfiles.
    destruct (convert_to_csv_files conversations output_path Hsize Hfiles)
      as (Hrows & _).
    eapply csv_rows_scores; eassumption.
Qed.

Lemma exported_scores_witness :
  (convert_to_csv [sample_built] (py "gemini_ready") 500 = Raises
   <-> exists conv row text,
         In conv [sample_built]
         /\ csv_row_of conv = Returns row
         /\ In text (row_texts row) /\ encode text = Raises)
  /\ forall files,
       convert_to_csv [sample_built] (py "gemini_ready") 500 = Returns files ->
       Forall (fun row => In (row_relevance_score row) table_scores)
              (concat (map snd files)).
Proof.
  apply (@exported_scores ascii_runtime literal_block (py "gemini_ready")
           500%Z [sample_built]).
  - vm_compute. reflexivity.
  - lia.
Defined.

(** ** The names of the files *)

Lemma digits_value_app (a b : str) :
  digits_value (a ++ b)
  = fold_left (fun acc c => (acc * 10 + (c - 48))%N) b (digits_value a).
Proof. unfold digits_value. apply fold_left_app. Qed.

Lemma digits_value_zeros (k : nat) (s : str) :
  digits_value (repeat 48%N k ++ s) = digits_value s.
Proof.
  rewrite digits_value_app.
  replace (digits_value (repeat 48%N k)) with 0%N; [reflexivity|].
  unfold digits_value. induction k as [|k IH]; [reflexivity|].
  cbn [repeat fold_left]. exact IH.
Qed.

Lemma decimal_from_value (fuel : nat) :
  forall n : N,
    (n < 2 ^ N.of_nat fuel)%N -> digits_value (decimal_from fuel n) = n.
Proof.
  induction fuel as [|fuel IH]; intros n Hn.
  - cbn in Hn. unfold digits_value. cbn [decimal_from fold_left].
    symmetry. apply N.lt_1_r. exact Hn.
  - cbn [decimal_from]. destruct (N.ltb_spec n 10) as [Hsmall | Hbig].
    + unfold digits_value. cbn [fold_left]. unfold char in *. lia.
    + rewrite digits_value_app. cbn [fold_left]. rewrite IH.
      * pose proof (N.div_mod n 10 ltac:(lia)) as Hdiv.
        remember (n / 10)%N as q eqn:Eq. remember (n mod 10)%N as r eqn:Er.
        clear Eq Er IH. unfold char in *. lia.
      * rewrite Nat2N.inj_succ, N.pow_succ_r' in Hn.
        apply N.Div0.div_lt_upper_bound; lia.
Qed.

Lemma pad3_value (n : N) : digits_value (pad3 n) = n.
Proof.
  unfold pad3. rewrite digits_value_zeros. unfold decimal.
  apply decimal_from_value.
  rewrite Nat2N.inj_succ, N2Nat.id.
  destruct n as [|p]; [reflexivity|].
  apply N.log2_spec. reflexivity.
Qed.

Lemma chunk_filename_inj (output_path : str) (a b : nat) :
  chunk_filename output_path a = chunk_filename output_path b -> a = b.
Proof.
  unfold chunk_filename. intros H.
  apply app_inv_head, app_inv_head in H.
  apply app_inv_tail in H.
  apply (f_equal digits_value) in H. rewrite !pad3_value in H.
  apply Nat2N.inj. exact H.
Qed.

(** The files of one call of [convert_to_csv] have names that differ from
    one another, so no chunk overwrites the file of an earlier one; and
    the number of a chunk can be read back from the digits in its name. *)
Theorem chunk_files_distinct (conversations : list conversation_record)
    (output_path : str) (chunk_size : Z)
    (files : list (str * list csv_row)) :
  convert_to_csv conversations output_path chunk_size = Returns files ->
  NoDup (map fst files)
  /\ forall k, k < length files ->
       exists digits,
         nth k (map fst files) []
         = output_path ++ py "_chunk_" ++ digits ++ py ".csv"
         /\ 3 <= length digits
         /\ digits_value digits = N.of_nat (S k).
Proof.
  intros H.
  assert (E : map fst files
              = map (chunk_filename output_path) (seq 1 (length files))).
  { destruct (Z.lt_trichotomy chunk_size 0) as [Hneg | [Hzero | Hpos]].
    - rewrite (convert_to_csv_negative conversations output_path Hneg)
        in H.
      apply Returns_inj in H. subst files. reflexivity.
    - subst chunk_size. discriminate H.
    - apply (convert_to_csv_files conversations output_path Hpos H). }
  split.
  - rewrite E. apply Finite.Injective_map_NoDup; [|apply seq_NoDup].
    intros a b. apply chunk_filename_inj.
  - intros k Hk. rewrite E.
    rewrite (nth_indep _ [] (chunk_filename output_path 0))
      by (rewrite length_map, length_seq; lia).
    rewrite map_nth, seq_nth by lia.
    exists (pad3 (N.of_nat (1 + k))). split; [reflexivity|].
    split; [|apply pad3_value].
    unfold pad3. rewrite length_app, repeat_length.
    unfold str, char in *. lia.
Qed.

Lemma chunk_files_distinct_witness :
  NoDup [py "out_chunk_001.csv"; py "out_chunk_002.csv"]
  /\ forall k, k < 2 ->
       exists digits,
         nth k [py "out_chunk_001.csv"; py "out_chunk_002.csv"] []
         = py "out" ++ py "_chunk_" ++ digits ++ py ".csv"
         /\ 3 <= length digits
         /\ digits_value digits = N.of_nat (S k).
Proof.
  destruct (convert_to_csv (repeat sample_built 3) (py "out") 2)
    as [|files] eqn:E; [vm_compute in E; discriminate E|].
  pose proof (@chunk_files_distinct (repeat sample_built 3) (py "out") 2%Z
                files E) as H.
  vm_compute in E. apply Returns_inj in E. subst files. exact H.
Defined.

(** ** Counting in the reports *)

Lemma str_eqb_sym (a b : str) : str_eqb a b = str_eqb b a.
Proof.
  destruct (str_eqb a b) eqn:E1, (str_eqb b a) eqn:E2; try reflexivity.
  - apply str_eqb_eq in E1. subst. rewrite str_eqb_refl in E2. discriminate.
  - apply str_eqb_eq in E2. subst. rewrite str_eqb_refl in E1. discriminate.
Qed.

Lemma str_eqb_neq (a b : str) : str_eqb a b = false <-> a <> b.
Proof.
  split.
  - intros E H. subst. rewrite str_eqb_refl in E. discriminate.
  - intros H. destruct (str_eqb a b) eqn:E; [|reflexivity].
    apply str_eqb_eq in E. contradiction.
Qed.

Lemma get_count_one (d : list (str * nat)) (k k' : str) :
  get_count (count_one d k) k'
  = if str_eqb k k' then S (get_count d k') else get_count d k'.
Proof.
  induction d as [|[k0 n] d IH]; cbn [count_one get_count].
  - reflexivity.
  - destruct (str_eqb k0 k) eqn:E0; cbn [get_count].
    + apply str_eqb_eq in E0. subst k0.
      destruct (str_eqb k k'); reflexivity.
    + rewrite IH. destruct (str_eqb k0 k') eqn:E1; [|reflexivity].
      apply str_eqb_eq in E1. subst k0.
      rewrite (str_eqb_sym k k'), E0. reflexivity.
Qed.

Lemma count_one_keys (d : list (str * nat)) (k : str) :
  map fst (count_one d k)
  = if existsb (str_eqb k) (map fst d) then map fst d
    else map fst d ++ [k].
Proof.
  induction d as [|[k0 n] d IH]; cbn [count_one map fst existsb app].
  - reflexivity.
  - rewrite (str_eqb_sym k k0).
    destruct (str_eqb k0 k); cbn [orb map fst]; [reflexivity|].
    rewrite IH. destruct (existsb (str_eqb k) (map fst d)); reflexivity.
Qed.

Lemma existsb_str_eqb (k : str) (l : list str) :
  existsb (str_eqb k) l = true <-> In k l.
Proof.
  rewrite existsb_exists. split.
  - intros (x & Hin & E). apply str_eqb_eq in E. subst. exact Hin.
  - intros Hin. exists k. split; [exact Hin | apply str_eqb_refl].
Qed.

Lemma count_one_NoDup (d : list (str * nat)) (k : str) :
  NoDup (map fst d) -> NoDup (map fst (count_one d k)).
Proof.
  intros Hd. rewrite count_one_keys.
  destruct (existsb (str_eqb k) (map fst d)) eqn:E; [exact Hd|].
  apply NoDup_app; [exact Hd | repeat constructor; intros [] |].
  intros x Hx [E' | []]. subst x.
  apply existsb_str_eqb in Hx. congruence.
Qed.

Lemma count_one_total (d : list (str * nat)) (k : str) :
  list_sum (map snd (count_one d k)) = S (list_sum (map snd d)).
Proof.
  induction d as [|[k0 n] d IH];
    cbn [count_one map snd list_sum fold_right].
  - reflexivity.
  - unfold list_sum in *.
    destruct (str_eqb k0 k); cbn [map snd fold_right]; [lia|].
    rewrite IH. lia.
Qed.

Lemma subsequence_app_r {A} (a b c : list A) :
  subsequence a b -> subsequence a (b ++ c).
Proof.
  induction 1 as [|x a b _ IH|x a b _ IH]; cbn [app].
  - induction c; constructor; assumption.
  - constructor. exact IH.
  - constructor. exact IH.
Qed.

Lemma subsequence_app_tail {A} (a b c : list A) :
  subsequence a b -> subsequence (a ++ c) (b ++ c).
Proof.
  induction 1 as [|x a b _ IH|x a b _ IH]; cbn [app].
  - apply subsequence_refl.
  - constructor. exact IH.
  - constructor. exact IH.
Qed.

Lemma occurrences_cons (k x : str) (keys : list str) :
  occurrences k (x :: keys)
  = (if str_eqb x k then 1 else 0) + occurrences k keys.
Proof.
  unfold occurrences. cbn [filter]. rewrite (str_eqb_sym k x).
  destruct (str_eqb x k); reflexivity.
Qed.

Lemma occurrences_positive (k : str) (keys : list str) :
  In k keys <-> 0 < occurrences k keys.
Proof.
  induction keys as [|x keys IH]; [cbn; split; [contradiction | lia]|].
  rewrite occurrences_cons. cbn [In].
  destruct (str_eqb x k) eqn:E.
  - apply str_eqb_eq in E. split; [lia | auto].
  - apply str_eqb_neq in E. rewrite IH. cbn [Nat.add].
    split; [intros [H | H]; [contradiction | exact H] | auto].
Qed.

Lemma fold_counts (keys : list str) :
  forall d prefix,
    NoDup (map fst d) ->
    subsequence (map fst d) prefix ->
    let result := fold_left count_one keys d in
    NoDup (map fst result)
    /\ subsequence (map fst result) (prefix ++ keys)
    /\ (forall k, get_count result k = get_count d k + occurrences k keys)
    /\ (forall k, In k (map fst result) <-> In k (map fst d) \/ In k keys)
    /\ list_sum (map snd result) = list_sum (map snd d) + length keys.
Proof.
  induction keys as [|x keys IH]; intros d prefix Hd Hsub; cbn zeta.
  - cbn [fold_left]. rewrite app_nil_r. split; [exact Hd|].
    split; [exact Hsub|]. split; [intros k; cbn; lia|].
    split; [intros k; cbn; tauto | cbn; lia].
  - cbn [fold_left].
    assert (Hsub' : subsequence (map fst (count_one d x)) (prefix ++ [x])).
    { rewrite count_one_keys.
      destruct (existsb (str_eqb x) (map fst d)).
      - apply subsequence_app_r. exact Hsub.
      - apply subsequence_app_tail. exact Hsub. }
    destruct (IH (count_one d x) (prefix ++ [x])
                 (@count_one_NoDup d x Hd) Hsub')
      as (H1 & H2 & H3 & H4 & H5).
    split; [exact H1|].
    split; [rewrite <- app_assoc in H2; exact H2|].
    split.
    { intros k. rewrite H3, get_count_one, occurrences_cons.
      destruct (str_eqb x k); lia. }
    split.
    { intros k. rewrite H4, count_one_keys. cbn [In].
      destruct (existsb (str_eqb x) (map fst d)) eqn:E.
      - apply existsb_str_eqb in E. split; [tauto|].
        intros [H | [<- | H]]; auto.
      - rewrite in_app_iff. cbn [In]. tauto. }
    rewrite H5, count_one_total. cbn [length]. lia.
Qed.

Lemma get_count_In (d : list (str * nat)) (k : str) (n : nat) :
  NoDup (map fst d) ->
  In (k, n) d <-> In k (map fst d) /\ get_count d k = n.
Proof.
  induction d as [|[k0 m] d IH]; cbn [map fst In get_count]; intros Hd.
  - tauto.
  - inversion Hd as [|? ? Hnotin Hd']; subst. specialize (IH Hd').
    destruct (str_eqb k0 k) eqn:E.
    + apply str_eqb_eq in E. subst k0. split.
      * intros [H | H].
        -- injection H as <-. auto.
        -- exfalso. apply Hnotin. apply IH in H. tauto.
      * intros [_ <-]. left. reflexivity.
    + apply str_eqb_neq in E. split.
      * intros [H | H]; [injection H as <- _; contradiction|].
        apply IH in H. tauto.
      * intros [[H | H] Hn]; [contradiction|].
        right. apply IH. tauto.
Qed.

Lemma counts_facts (keys : list str) :
  NoDup (map fst (counts keys))
  /\ subsequence (map fst (counts keys)) keys
  /\ (forall k n,
         In (k, n) (counts keys)
         <-> In k keys /\ n = occurrences k keys)
  /\ list_sum (map snd (counts keys)) = length keys.
Proof.
  destruct (@fold_counts keys [] [] (NoDup_nil _) subsequence_nil)
    as (H1 & H2 & H3 & H4 & H5).
  fold (counts keys) in H1, H2, H3, H4, H5.
  split; [exact H1|]. split; [exact H2|]. split; [|exact H5].
  intros k n. rewrite (@get_count_In _ k n H1), H4, H3.
  cbn [map In get_count Nat.add]. split.
  - intros [[[] | H] <-]. auto.
  - intros [H ->]. auto.
Qed.

Lemma filter_twice {A} (f g : A -> bool) (l : list A) :
  filter f (filter g l) = filter (fun x => g x && f x) l.
Proof.
  induction l as [|x l IH]; [reflexivity|]. cbn [filter].
  destruct (g x); cbn [filter andb]; rewrite IH; reflexivity.
Qed.

Lemma fold_counts_keys (keys : list str) :
  forall d,
    map fst (fold_left count_one keys d)
    = map fst d
        ++ filter (fun k => negb (existsb (str_eqb k) (map fst d)))
                  (first_seen keys).
Proof.
  induction keys as [|k keys IH]; intros d; cbn [fold_left first_seen].
  - cbn [filter]. rewrite app_nil_r. reflexivity.
  - rewrite IH, count_one_keys. cbn [filter].
    destruct (existsb (str_eqb k) (map fst d)) eqn:Ek; cbn [negb].
    + f_equal. rewrite filter_twice. apply filter_ext_in. intros x _.
      destruct (str_eqb k x) eqn:Ex; cbn [negb andb]; [|reflexivity].
      apply str_eqb_eq in Ex. subst x. rewrite Ek. reflexivity.
    + rewrite <- app_assoc. cbn [app]. f_equal. f_equal.
      rewrite filter_twice. apply filter_ext_in. intros x _.
      rewrite existsb_app. cbn [existsb]. rewrite orb_false_r.
      rewrite (str_eqb_sym x k).
      destruct (str_eqb k x), (existsb (str_eqb x) (map fst d));
        reflexivity.
Qed.

(** The dictionaries that the reports fill by counting: the keys of the
    dictionary are the keys of the list, each once, in the order of their
    first occurrence; every key has the number of its occurrences, which is
    also what [get] with the default 0 finds for any key; and the counts
    add up to the length of the list. *)
Theorem counting_loops (keys : list str) :
  map fst (counts keys) = first_seen keys
  /\ NoDup (map fst (counts keys))
  /\ (forall k, get_count (counts keys) k = occurrences k keys)
  /\ (forall k n,
         In (k, n) (counts keys)
         <-> In k keys /\ n = occurrences k keys)
  /\ list_sum (map snd (counts keys)) = length keys.
Proof.
  destruct (@fold_counts keys [] [] (NoDup_nil _) subsequence_nil)
    as (Hkeys & Hsub & Hget & Hin & Hsum).
  fold (counts keys) in Hkeys, Hsub, Hget, Hin, Hsum.
  split.
  { unfold counts. rewrite fold_counts_keys. cbn [map app existsb negb].
    apply filter_kept. apply Forall_forall. reflexivity. }
  split; [exact Hkeys|].
  split; [intros k; rewrite Hget; reflexivity|].
  split; [|exact Hsum].
  intros k n. rewrite (@get_count_In _ k n Hkeys), Hin, Hget.
  cbn [map In get_count Nat.add]. split.
  - intros [[[] | H] <-]. auto.
  - intros [H ->]. auto.
Qed.

Lemma StronglySorted_firstn {A} (R : A -> A -> Prop) (n : nat) (l : list A) :
  StronglySorted R l -> StronglySorted R (firstn n l).
Proof.
  intros Hs. revert n. induction Hs as [|a l Hs IH Hall]; intros [|n];
    cbn [firstn]; try constructor.
  - apply IH.
  - rewrite Forall_forall in *. intros x Hx. apply Hall.
    apply (@subsequence_In _ _ _ x (subsequence_firstn n l)). exact Hx.
Qed.

Lemma most_common_facts (n : nat) (counter : list (str * nat)) :
  NoDup (map fst counter) ->
  let top := most_common n counter in
  length top = Nat.min n (length counter)
  /\ NoDup (map fst top)
  /\ incl top counter
  /\ StronglySorted (fun a b => snd b <= snd a) top
  /\ (forall kept left_out,
         In kept top -> In left_out counter -> ~ In left_out top ->
         snd left_out <= snd kept).
Proof.
  intros Hkeys. cbn zeta. unfold most_common.
  set (sorted := stable_sort _ counter).
  pose proof (scores_sorted counter) as Hsorted. fold sorted in Hsorted.
  pose proof (stable_sort_perm (fun a b => Nat.ltb (snd b) (snd a)) counter)
    as Hperm. fold sorted in Hperm.
  split; [rewrite length_firstn, (Permutation_length Hperm); reflexivity|].
  split.
  { apply (@subsequence_NoDup _ _ (map fst sorted)).
    - apply subsequence_map, subsequence_firstn.
    - apply (Permutation_NoDup
               (Permutation_map fst (Permutation_sym Hperm))).
      exact Hkeys. }
  split.
  { intros x Hx. apply (Permutation_in _ Hperm).
    apply (@subsequence_In _ _ _ x (subsequence_firstn n sorted)).
    exact Hx. }
  split; [apply StronglySorted_firstn; exact Hsorted|].
  intros kept left_out Hk Hl Hnot.
  apply (Permutation_in _ (Permutation_sym Hperm)) in Hl.
  rewrite <- (firstn_skipn n sorted) in Hl, Hsorted.
  apply in_app_or in Hl. destruct Hl as [Hl | Hl]; [contradiction|].
  apply (@StronglySorted_app_inv _ (fun a b : str * nat => snd b <= snd a)
           _ _ Hsorted kept left_out Hk Hl).
Qed.

(** The tags listed as [top_tags] by the two reports: twenty at most, no
    tag twice, each with the number of times it occurs in the records, the
    largest number first; a tag that occurs in the records and is not
    listed occurs no more often than any tag listed. *)
Theorem top_tags_ranked (now : str)
    (conversations : list conversation_record) (source_files : list str) :
  let all_tags := flat_map tags conversations in
  let top :=
    Batch_report.top_tags
      (Batch_report.stats
         (create_batch_report now conversations source_files)) in
  (forall report,
      create_summary_report conversations = Returns report ->
      top_tags report = top)
  /\ length top = Nat.min 20 (length (counts all_tags))
  /\ NoDup (map fst top)
  /\ (forall tag n,
         In (tag, n) top -> In tag all_tags /\ n = occurrences tag all_tags)
  /\ StronglySorted (fun a b => snd b <= snd a) top
  /\ (forall tag entry,
         In tag all_tags -> ~ In tag (map fst top) -> In entry top ->
         occurrences tag all_tags <= snd entry).
Proof.
  cbn zeta. cbn [create_batch_report Batch_report.stats Batch_report.top_tags].
  set (all_tags := flat_map tags conversations).
  destruct (counts_facts all_tags) as (Hkeys & _ & Hcount & _).
  destruct (@most_common_facts 20 (counts all_tags) Hkeys)
    as (Hlen & Hnodup & Hincl & Hsorted & Hleft).
  split.
  { intros report H. unfold create_summary_report in H.
    destruct (nonempty_dates conversations) as [|dates]; [discriminate|].
    cbn [bind] in H.
    destruct (min_str dates); [discriminate|]. cbn [bind] in H.
    destruct (max_str dates); [discriminate|]. cbn [bind] in H.
    destruct (count_missing_dates conversations); [discriminate|].
    cbn [bind] in H. apply Returns_inj in H. subst report. reflexivity. }
  split; [exact Hlen|]. split; [exact Hnodup|].
  split; [intros tag n Hin; apply Hcount, Hincl, Hin|].
  split; [exact Hsorted|].
  intros tag entry Htag Hnot Hentry.
  apply (Hleft entry (tag, occurrences tag all_tags) Hentry).
  - apply Hcount. auto.
  - intros Hin. apply Hnot. apply (in_map fst) in Hin. exact Hin.
Qed.

(** ** The summary report *)

Lemma str_le_trans (a b c : str) :
  str_ltb b a = false -> str_ltb c b = false -> str_ltb c a = false.
Proof.
  intros Hba Hcb. destruct (str_ltb c a) eqn:Hca; [|reflexivity].
  destruct (str_ltb a b) eqn:Hab.
  - rewrite (str_ltb_trans _ _ _ Hca Hab) in Hcb. discriminate.
  - rewrite (str_ltb_total _ _ Hab Hba) in Hca. congruence.
Qed.

Lemma fold_min (rest : list str) :
  forall x,
    let m := fold_left (fun m y => if str_ltb y m then y else m) rest x in
    In m (x :: rest)
    /\ str_ltb x m = false
    /\ Forall (fun d => str_ltb d m = false) rest.
Proof.
  induction rest as [|y rest IH]; intros x; cbn zeta; cbn [fold_left].
  - split; [left; reflexivity|]. split; [apply str_ltb_irrefl|constructor].
  - destruct (str_ltb y x) eqn:Hyx.
    + destruct (IH y) as (Hin & Hle & Hall). cbn zeta in *.
      split; [right; exact Hin|].
      split; [|constructor; assumption].
      apply (str_le_trans _ y); [exact Hle|].
      destruct (str_ltb x y) eqn:Hxy; [|reflexivity].
      pose proof (str_ltb_trans _ _ _ Hyx Hxy) as C.
      rewrite str_ltb_irrefl in C. discriminate C.
    + destruct (IH x) as (Hin & Hle & Hall). cbn zeta in *.
      split; [destruct Hin as [<- | Hin]; [left; reflexivity | right; right; exact Hin]|].
      split; [exact Hle|]. constructor; [|exact Hall].
      apply (str_le_trans _ x); assumption.
Qed.

Lemma fold_max (rest : list str) :
  forall x,
    let m := fold_left (fun m y => if str_ltb m y then y else m) rest x in
    In m (x :: rest)
    /\ str_ltb m x = false
    /\ Forall (fun d => str_ltb m d = false) rest.
Proof.
  induction rest as [|y rest IH]; intros x; cbn zeta; cbn [fold_left].
  - split; [left; reflexivity|]. split; [apply str_ltb_irrefl|constructor].
  - destruct (str_ltb x y) eqn:Hxy.
    + destruct (IH y) as (Hin & Hle & Hall). cbn zeta in *.
      split; [right; exact Hin|].
      split; [|constructor; assumption].
      apply (str_le_trans _ y); [|exact Hle].
      destruct (str_ltb y x) eqn:Hyx; [|reflexivity].
      pose proof (str_ltb_trans _ _ _ Hxy Hyx) as C.
      rewrite str_ltb_irrefl in C. discriminate C.
    + destruct (IH x) as (Hin & Hle & Hall). cbn zeta in *.
      split; [destruct Hin as [<- | Hin]; [left; reflexivity | right; right; exact Hin]|].
      split; [exact Hle|]. constructor; [|exact Hall].
      apply (str_le_trans _ x); assumption.
Qed.

Lemma min_str_spec (l : list str) (m : str) :
  min_str l = Returns m ->
  In m l /\ Forall (fun d => str_ltb d m = false) l.
Proof.
  destruct l as [|x rest]; [discriminate|]. cbn [min_str]. intros H.
  apply Returns_inj in H. subst m.
  destruct (fold_min rest x) as (Hin & Hle & Hall).
  split; [exact Hin | constructor; assumption].
Qed.

Lemma max_str_spec (l : list str) (m : str) :
  max_str l = Returns m ->
  In m l /\ Forall (fun d => str_ltb m d = false) l.
Proof.
  destruct l as [|x rest]; [discriminate|]. cbn [max_str]. intros H.
  apply Returns_inj in H. subst m.
  destruct (fold_max rest x) as (Hin & Hle & Hall).
  split; [exact Hin | constructor; assumption].
Qed.

Lemma nonempty_dates_cases (conversations : list conversation_record) :
  (nonempty_dates conversations = Raises
   /\ exists c, In c conversations /\ date c = None)
  \/ (nonempty_dates conversations = Returns (dates_present conversations)
      /\ Forall (fun c => date c <> None) conversations).
Proof.
  induction conversations as [|c rest IH]; cbn [nonempty_dates].
  - right. split; [reflexivity | constructor].
  - destruct (date c) as [d|] eqn:Ed.
    + destruct IH as [(E & c' & Hin & Hc') | (E & Hall)]; rewrite E;
        cbn [bind].
      * left. split; [reflexivity|]. exists c'. split; [right|]; assumption.
      * right. split.
        -- unfold dates_present. cbn [flat_map]. rewrite Ed.
           destruct d; reflexivity.
        -- constructor; [congruence | exact Hall].
    + left. split; [reflexivity|]. exists c. split; [left; reflexivity|].
      exact Ed.
Qed.

Lemma count_missing_dates_spec (conversations : list conversation_record) :
  Forall (fun c => date c <> None) conversations ->
  exists n,
    count_missing_dates conversations = Returns n
    /\ n + length (dates_present conversations) = length conversations.
Proof.
  induction 1 as [|c rest Hc _ (n & E & Hn)]; cbn [count_missing_dates].
  - exists 0. split; reflexivity.
  - destruct (date c) as [d|] eqn:Ed; [|contradiction].
    rewrite E. cbn [bind]. unfold dates_present in *. cbn [flat_map].
    rewrite Ed. destruct d as [|x d].
    + exists (S n). split; [reflexivity|]. cbn [app length]. lia.
    + exists n. split; [reflexivity|]. cbn [app length]. lia.
Qed.


Lemma relevance_counts_total (scores : list float) :
  forall d,
    let r := fold_left count_relevance scores d in
    high r + medium r + low r
    = high d + medium d + low d + length scores.
Proof.
  induction scores as [|s scores IH]; intros d; cbn zeta; cbn [fold_left].
  - cbn [length]. lia.
  - rewrite IH. unfold count_relevance.
    destruct (PrimFloat.leb 0.8 s); [|destruct (PrimFloat.leb 0.5 s)];
      cbn [high medium low length]; lia.
Qed.

Lemma summary_report_cases (conversations : list conversation_record) :
  (create_summary_report conversations = Raises
   /\ ((exists c, In c conversations /\ date c = None)
       \/ dates_present conversations = []))
  \/ (exists first_date last_date missing,
        Forall (fun c => date c <> None) conversations
        /\ min_str (dates_present conversations) = Returns first_date
        /\ max_str (dates_present conversations) = Returns last_date
        /\ missing + length (dates_present conversations)
           = length conversations
        /\ create_summary_report conversations
           = Returns
               {| total_conversations := length conversations;
                  earliest := first_date;
                  latest := last_date;
                  categories_distribution :=
                    counts (flat_map category conversations);
                  top_tags :=
                    most_common 20 (counts (flat_map tags conversations));
                  relevance :=
                    relevance_counts (map relevance_score conversations);
                  missing_dates := missing |}).
Proof.
  unfold create_summary_report.
  destruct (nonempty_dates_cases conversations)
    as [(E & Hnone) | (E & Hall)]; rewrite E; cbn [bind].
  - left. split; [reflexivity | left; exact Hnone].
  - destruct (dates_present conversations) as [|d dates] eqn:Edates.
    + left. split; [reflexivity | right; reflexivity].
    + right. cbn [min_str max_str bind].
      destruct (count_missing_dates_spec Hall) as (n & En & Hn).
      rewrite En. cbn [bind]. rewrite Edates in Hn.
      eexists _, _, n. split; [exact Hall|].
      split; [reflexivity|]. split; [reflexivity|].
      split; [exact Hn | reflexivity].
Qed.


(** What the summary report holds when it is written: the number of
    records; three relevance counters that add up to it; the number of
    empty dates, which with the dates that are not empty adds up to it;
    and as earliest and latest date the least and the greatest of the
    dates that are not empty, each the date of some record. *)
Theorem summary_report_counts (conversations : list conversation_record)
    (report : summary_report) :
  create_summary_report conversations = Returns report ->
  total_conversations report = length conversations
  /\ high (relevance report) + medium (relevance report)
     + low (relevance report) = length conversations
  /\ missing_dates report + length (dates_present conversations)
     = length conversations
  /\ In (earliest report) (dates_present conversations)
  /\ In (latest report) (dates_present conversations)
  /\ (forall d, In d (dates_present conversations) ->
        str_ltb d (earliest report) = false
        /\ str_ltb (latest report) d = false)
  /\ categories_distribution report
     = counts (flat_map category conversations).
Proof.
  intros H.
  destruct (summary_report_cases conversations)
    as [(E & _) | (first_date & last_date & missing & _ & Hmin & Hmax
                   & Hmissing & E)];
    [congruence|].
  rewrite E in H. apply Returns_inj in H. subst report.
  cbn [total_conversations relevance missing_dates earliest latest
       categories_distribution].
  apply min_str_spec in Hmin. apply max_str_spec in Hmax.
  destruct Hmin as (Hmin_in & Hmin). destruct Hmax as (Hmax_in & Hmax).
  split; [reflexivity|].
  split.
  { unfold relevance_counts.
    rewrite (relevance_counts_total (map relevance_score conversations)).
    cbn [high medium low]. rewrite length_map. lia. }
  split; [exact Hmissing|]. split; [exact Hmin_in|].
  split; [exact Hmax_in|]. split; [|reflexivity].
  intros d Hd. rewrite Forall_forall in Hmin, Hmax. auto.
Qed.

Lemma summary_report_counts_witness :
  let report :=
    {| total_conversations := 2;
       earliest := py "2023-11-14";
       latest := py "2024-03-01";
       categories_distribution :=
         counts (flat_map category
                   [sample_built; sample_record "March" "2024-03-01" "a"]);
       top_tags :=
         most_common 20
           (counts (flat_map tags
                      [sample_built; sample_record "March" "2024-03-01" "a"]));
       relevance := {| high := 0; medium := 1; low := 1 |};
       missing_dates := 0 |} in
  total_conversations report = 2
  /\ high (relevance report) + medium (relevance report)
     + low (relevance report) = 2
  /\ missing_dates report + 2 = 2
  /\ In (earliest report) [py "2023-11-14"; py "2024-03-01"]
  /\ In (latest report) [py "2023-11-14"; py "2024-03-01"]
  /\ (forall d, In d [py "2023-11-14"; py "2024-03-01"] ->
        str_ltb d (earliest report) = false
        /\ str_ltb (latest report) d = false)
  /\ categories_distribution report
     = counts (flat_map category
                 [sample_built; sample_record "March" "2024-03-01" "a"]).
Proof.
  exact (@summary_report_counts
           [sample_built; sample_record "March" "2024-03-01" "a"] _
           eq_refl).
Defined.

(** ** The command line *)

Lemma built_records_dated `{R : Runtime}
    (conversations : list conversation_record) :
  Forall (fun record =>
            exists conv_data,
              extract_conversation_details conv_data
              = Returns (Some record))
         conversations ->
  Forall (fun c => exists d, date c = Some d) conversations.
Proof.
  apply Forall_impl. intros record (d & Hd).
  apply (built_record_dated _ Hd).
Qed.

Lemma dates_present_nil (conversations : list conversation_record) :
  Forall (fun c => exists d, date c = Some d) conversations ->
  dates_present conversations = []
  <-> Forall (fun c => date c = Some []) conversations.
Proof.
  induction 1 as [|c rest (d & Hd) _ IH]; unfold dates_present in *;
    cbn [flat_map].
  - split; [constructor | reflexivity].
  - rewrite Hd. destruct d as [|x d]; cbn [app].
    + rewrite IH. split; [intros H; constructor; assumption|].
      intros H. inversion H. assumption.
    + split; [discriminate|]. intros H. inversion H. congruence.
Qed.

(** Leaving the file system and the console aside, [main] fails in three
    cases only: the export cannot be read; it was read and the line of some
    conversation holds a text that cannot be encoded, so that the table is
    not written; or it was read and the table written, but none of the
    conversations has a date, an export without any conversation included,
    so that the report raises. *)
Theorem main_raises_iff `{R : Runtime} (content output_prefix : str) :
  main content output_prefix = Raises
  <-> parse_chatgpt_export content = Raises
      \/ exists conversations,
           parse_chatgpt_export content = Returns conversations
           /\ ((exists conv row text,
                   In conv conversations
                   /\ csv_row_of conv = Returns row
                   /\ In text (row_texts row) /\ encode text = Raises)
               \/ ((exists files,
                       convert_to_csv conversations output_prefix 500
                       = Returns files)
                   /\ Forall (fun c => date c = Some []) conversations)).
Proof.
  unfold main.
  destruct (parse_chatgpt_export content) as [|conversations] eqn:Eparse;
    cbn [bind].
  { split; [left; reflexivity | reflexivity]. }
  pose proof (built_records_dated (export_records_built _ Eparse))
    as Hdated.
  assert (Hpositive : (0 < 500)%Z) by lia.
  pose proof (convert_to_csv_raises conversations output_prefix Hpositive)
    as Hcsv.
  rewrite (dated_not_written Hdated) in Hcsv.
  destruct (convert_to_csv conversations output_prefix 500)
    as [|files] eqn:Ecsv; cbn [bind].
  { split; [intros _ | reflexivity]. right. exists conversations.
    split; [reflexivity|]. left. apply Hcsv. reflexivity. }
  assert (Hwritten : ~ exists conv row text,
                         In conv conversations
                         /\ csv_row_of conv = Returns row
                         /\ In text (row_texts row)
                         /\ encode text = Raises).
  { intros H. apply Hcsv in H. discriminate H. }
  destruct (summary_report_cases conversations)
    as [(E & H) | (first_date & last_date & missing & _ & Hmin & _ & _ & E)];
    rewrite E; cbn [bind].
  - split; [intros _ | reflexivity]. right. exists conversations.
    split; [reflexivity|]. right. split; [exists files; exact Ecsv|].
    destruct H as [(c & Hin & Hnone) | H].
    + rewrite Forall_forall in Hdated. destruct (Hdated c Hin) as (d & Hd).
      congruence.
    + apply dates_present_nil; assumption.
  - split; [discriminate|].
    intros [H | (conversations' & H & Hcase)]; [discriminate H|].
    apply Returns_inj in H. subst conversations'.
    destruct Hcase as [Hbad | (_ & Hempty)]; [contradiction|].
    apply dates_present_nil in Hempty; [|exact Hdated].
    rewrite Hempty in Hmin. discriminate Hmin.
Qed.

(** ** The batch processor as a whole, and its report *)

(** The list the batch processor has built when it writes the table. *)
Lemma collected_list `{R : Runtime} (files : list (str * str))
    (conv : conversation_record) (all : list conversation_record) :
  flat_map conversations_of files = conv :: all ->
  let result := sort_by_date (remove_duplicates (conv :: all)) in
  result <> []
  /\ NoDup (map dedup_key result)
  /\ StronglySorted
       (fun a b => str_ltb (sort_key b) (sort_key a) = false) result
  /\ forall c, In c result ->
       exists file,
         In file files
         /\ In c (conversations_of file)
         /\ source_file c = Some (basename (fst file)).
Proof.
  intros Eall. cbn zeta.
  set (unique := remove_duplicates (conv :: all)).
  destruct (sort_by_date_sorted unique) as [Hperm Hsorted].
  pose proof (first_occurrences_subsequence (conv :: all)) as Hsub.
  pose proof (first_occurrences_NoDup (conv :: all)) as Hnodup.
  pose proof (first_occurrences_first (conv :: all)) as Hfirst.
  rewrite <- remove_duplicates_first_occurrences in Hsub, Hnodup, Hfirst.
  fold unique in Hsub, Hnodup, Hfirst.
  split.
  { intros E. rewrite E in Hperm. apply Permutation_nil in Hperm.
    destruct (Hfirst conv (or_introl eq_refl)) as (kept & _ & Hkept & _).
    rewrite Hperm in Hkept. contradiction. }
  split.
  { eapply Permutation_NoDup;
      [apply Permutation_map, Permutation_sym, Hperm | exact Hnodup]. }
  split; [exact Hsorted|].
  intros c Hc.
  apply (Permutation_in _ Hperm) in Hc.
  apply (@subsequence_In _ unique (conv :: all) c Hsub) in Hc.
  rewrite <- Eall in Hc. apply in_flat_map in Hc.
  destruct Hc as (f & Hf & Hc). exists f.
  split; [exact Hf|]. split; [exact Hc|].
  apply (@conversations_of_sources R f c Hc).
Qed.

(** The three ways [process_multiple_files] can end. *)
Lemma process_multiple_files_cases `{R : Runtime} (now : str)
    (files : list (str * str)) :
  let all := flat_map conversations_of files in
  let result := sort_by_date (remove_duplicates all) in
  (all = [] /\ process_multiple_files now files = Returns None)
  \/ (all <> []
      /\ convert_to_csv result (py "complete_archive") 500 = Raises
      /\ process_multiple_files now files = Raises)
  \/ (all <> []
      /\ (exists output_files,
             convert_to_csv result (py "complete_archive") 500
             = Returns output_files)
      /\ process_multiple_files now files = Returns (Some result)).
Proof.
  cbn zeta. unfold process_multiple_files.
  destruct files as [|file files]; [left; split; reflexivity|].
  destruct (flat_map conversations_of (file :: files))
    as [|conv all] eqn:Eall; [left; split; reflexivity|].
  right.
  destruct (convert_to_csv (sort_by_date (remove_duplicates (conv :: all)))
              (py "complete_archive") 500) as [|output_files];
    cbn [bind].
  - left. split; [discriminate|]. split; reflexivity.
  - right. split; [discriminate|].
    split; [exists output_files; reflexivity | reflexivity].
Qed.

Lemma batch_records_dated `{R : Runtime} (files : list (str * str)) :
  Forall (fun c => exists d, date c = Some d)
         (flat_map conversations_of files).
Proof.
  apply Forall_forall. intros c Hc. apply in_flat_map in Hc.
  destruct Hc as (file & _ & Hc).
  apply conversations_of_sources in Hc.
  destruct Hc as (_ & parsed & record & Hparse & Hrecord & ->).
  pose proof (export_records_built _ Hparse) as Hbuilt.
  rewrite Forall_forall in Hbuilt.
  destruct (Hbuilt record Hrecord) as (d & Hd).
  apply built_record_dated in Hd. exact Hd.
Qed.

(** What [process_multiple_files] does, the file system and the console
    aside. It returns nothing exactly when no conversation was read. It
    raises exactly when, among the conversations left after the removal of
    duplicates, the line of one holds a text that cannot be encoded: the
    table is then not written. Otherwise it returns a list that is not
    empty, whose records all come from the files and carry the name of
    their file, in which no name and date occur twice, in ascending order
    of the sort key. *)
Theorem batch_result `{R : Runtime} (now : str)
    (files : list (str * str)) :
  (process_multiple_files now files = Returns None
   <-> flat_map conversations_of files = [])
  /\ (process_multiple_files now files = Raises
      <-> exists conv row text,
            In conv (remove_duplicates (flat_map conversations_of files))
            /\ csv_row_of conv = Returns row
            /\ In text (row_texts row) /\ encode text = Raises)
  /\ forall result,
       process_multiple_files now files = Returns (Some result) ->
       result <> []
       /\ NoDup (map dedup_key result)
       /\ StronglySorted
            (fun a b => str_ltb (sort_key b) (sort_key a) = false) result
       /\ forall conv, In conv result ->
            exists file,
              In file files
              /\ In conv (conversations_of file)
              /\ source_file conv = Some (basename (fst file)).
Proof.
  pose proof (batch_records_dated files) as Hdated.
  assert (Hkept : Forall (fun c => exists d, date c = Some d)
                    (sort_by_date
                       (remove_duplicates
                          (flat_map conversations_of files)))).
  { rewrite Forall_forall in *. intros c Hc. apply Hdated.
    apply (Permutation_in _ (stable_sort_perm _ _)) in Hc.
    pose proof (first_occurrences_subsequence
                  (flat_map conversations_of files)) as Hsub.
    rewrite <- remove_duplicates_first_occurrences in Hsub.
    apply (@subsequence_In _ _ _ c Hsub). exact Hc. }
  assert (Hpositive : (0 < 500)%Z) by lia.
  pose proof (convert_to_csv_raises
                (sort_by_date
                   (remove_duplicates (flat_map conversations_of files)))
                (py "complete_archive") Hpositive) as Hcsv.
  rewrite (dated_not_written Hkept) in Hcsv.
  assert (Hsame : (exists conv row text,
                      In conv (sort_by_date
                                 (remove_duplicates
                                    (flat_map conversations_of files)))
                      /\ csv_row_of conv = Returns row
                      /\ In text (row_texts row) /\ encode text = Raises)
                  <-> (exists conv row text,
                         In conv (remove_duplicates
                                    (flat_map conversations_of files))
                         /\ csv_row_of conv = Returns row
                         /\ In text (row_texts row)
                         /\ encode text = Raises)).
  { split; intros (conv & row & text & Hin & H); exists conv, row, text;
      (split; [|exact H]).
    - apply (Permutation_in _ (stable_sort_perm _ _)) in Hin. exact Hin.
    - apply (Permutation_in _ (Permutation_sym (stable_sort_perm _ _))).
      exact Hin. }
  rewrite Hsame in Hcsv. clear Hsame.
  destruct (process_multiple_files_cases now files)
    as [(Hall & E) | [(Hall & Eraise & E) | (Hall & (out & Eout) & E)]];
    rewrite E.
  - split; [split; [intros _; exact Hall | reflexivity]|].
    split; [|discriminate].
    split; [discriminate|].
    intros (conv & _ & _ & Hin & _). rewrite Hall in Hin.
    contradiction Hin.
  - split; [split; [discriminate | intros H; contradiction]|].
    split; [|discriminate].
    split; [intros _; apply Hcsv; exact Eraise | reflexivity].
  - split; [split; [discriminate | intros H; contradiction]|].
    split.
    { split; [discriminate|]. intros H. apply Hcsv in H. congruence. }
    intros result H. apply Returns_inj, Some_inj in H. subst result.
    destruct (flat_map conversations_of files) as [|conv all] eqn:Eall;
      [contradiction Hall; reflexivity|].
    apply (collected_list files Eall).
Qed.

Lemma batch_records_from_files `{R : Runtime} (now : str)
    (files : list (str * str)) (result : list conversation_record) :
  process_multiple_files now files = Returns (Some result) ->
  forall conv, In conv result ->
    exists file, In file files /\ In conv (conversations_of file).
Proof.
  intros H.
  destruct (process_multiple_files_cases now files)
    as [(Hall & E) | [(Hall & Eraise & E) | (Hall & _ & E)]];
    rewrite E in H; try discriminate H.
  apply Returns_inj, Some_inj in H. subst result.
  destruct (flat_map conversations_of files) as [|conv all] eqn:Eall;
    [contradiction Hall; reflexivity|].
  destruct (collected_list files Eall) as (_ & _ & _ & Hfrom).
  intros c Hc. destruct (Hfrom c Hc) as (file & Hfile & Hin & _).
  exists file. auto.
Qed.

Lemma months_length (conversations : list conversation_record) :
  length (months conversations) = length (dates_present conversations)
  /\ Forall (fun month => 1 <= length month <= 7) (months conversations).
Proof.
  unfold months, dates_present.
  induction conversations as [|c rest (IH1 & IH2)]; cbn [flat_map].
  - split; [reflexivity | constructor].
  - destruct (date c) as [[|x d]|]; cbn [app length];
      try (split; assumption).
    split; [rewrite IH1; reflexivity|].
    constructor; [|exact IH2].
    rewrite length_firstn. cbn [length]. lia.
Qed.

(** What the batch report holds for the list [process_multiple_files]
    returns: the counts by source file add up to the number of records and
    their keys are base names of the files processed; the counts by month
    add up to the number of records with a date, under keys of at most
    seven characters; the three relevance counters add up to the number of
    records; the counts by category add up to the number of category
    labels; and the projects listed are ten at most, each a category whose
    name contains the word Project. *)
Theorem batch_report_counts `{R : Runtime} (now : str)
    (files : list (str * str)) (result : list conversation_record) :
  process_multiple_files now files = Returns (Some result) ->
  let report := create_batch_report now result (map fst files) in
  let statistics := Batch_report.stats report in
  Batch_report.total_conversations report = length result
  /\ list_sum (map snd (Batch_report.by_source_file statistics))
     = length result
  /\ (forall source,
         In source (map fst (Batch_report.by_source_file statistics)) ->
         exists file, In file files /\ source = basename (fst file))
  /\ list_sum (map snd (Batch_report.by_date statistics))
     = length (dates_present result)
  /\ Forall (fun month => 1 <= length month <= 7)
            (map fst (Batch_report.by_date statistics))
  /\ high (Batch_report.by_relevance statistics)
     + medium (Batch_report.by_relevance statistics)
     + low (Batch_report.by_relevance statistics) = length result
  /\ list_sum (map snd (Batch_report.by_category statistics))
     = length (flat_map category result)
  /\ length (Batch_report.top_projects statistics) <= 10
  /\ Forall (fun entry => contains (py "Project") (fst entry) = true)
            (Batch_report.top_projects statistics).
Proof.
  intros Hbatch. cbn zeta.
  cbn [create_batch_report Batch_report.stats
       Batch_report.total_conversations Batch_report.by_source_file
       Batch_report.by_date Batch_report.by_relevance
       Batch_report.by_category Batch_report.top_projects].
  split; [reflexivity|].
  split.
  { destruct (counts_facts (map get_source_file result)) as (_ & _ & _ & H).
    rewrite H, length_map. reflexivity. }
  split.
  { intros source Hsource.
    destruct (counts_facts (map get_source_file result)) as (_ & Hsub & _).
    apply (@subsequence_In _ _ _ source Hsub) in Hsource.
    apply in_map_iff in Hsource. destruct Hsource as (conv & <- & Hconv).
    destruct (@batch_records_from_files R now files result Hbatch conv
                Hconv)
      as (file & Hfile & Hin).
    exists file. split; [exact Hfile|].
    apply conversations_of_sources in Hin. destruct Hin as (Hsource & _).
    unfold get_source_file. rewrite Hsource. reflexivity. }
  destruct (months_length result) as (Hmonths & Hshort).
  split.
  { destruct (counts_facts (months result)) as (_ & _ & _ & H).
    rewrite H. exact Hmonths. }
  split.
  { destruct (counts_facts (months result)) as (_ & Hsub & _).
    rewrite Forall_forall in *. intros month Hmonth.
    apply Hshort. apply (@subsequence_In _ _ _ month Hsub). exact Hmonth. }
  split.
  { unfold relevance_counts.
    rewrite (relevance_counts_total (map relevance_score result)).
    cbn [high medium low]. rewrite length_map. lia. }
  split.
  { destruct (counts_facts (flat_map category result)) as (_ & _ & _ & H).
    exact H. }
  set (project_cats :=
         filter (contains (py "Project")) (flat_map category result)).
  destruct (counts_facts project_cats) as (Hkeys & Hsub & _).
  destruct (@most_common_facts 10 (counts project_cats) Hkeys)
    as (Hlen & _ & Hincl & _).
  split; [rewrite Hlen; apply Nat.le_min_l|].
  apply Forall_forall. intros entry Hentry.
  apply Hincl in Hentry. apply (in_map fst) in Hentry.
  apply (@subsequence_In _ _ _ (fst entry) Hsub) in Hentry.
  apply filter_In in Hentry. tauto.
Qed.

Lemma batch_report_counts_witness :
  let report :=
    create_batch_report (py "2024-05-01 09:30") sample_batch
                        (map fst sample_files) in
  let statistics := Batch_report.stats report in
  Batch_report.total_conversations report = length sample_batch
  /\ list_sum (map snd (Batch_report.by_source_file statistics))
     = length sample_batch
  /\ (forall source,
         In source (map fst (Batch_report.by_source_file statistics)) ->
         exists file, In file sample_files /\ source = basename (fst file))
  /\ list_sum (map snd (Batch_report.by_date statistics))
     = length (dates_present sample_batch)
  /\ Forall (fun month => 1 <= length month <= 7)
            (map fst (Batch_report.by_date statistics))
  /\ high (Batch_report.by_relevance statistics)
     + medium (Batch_report.by_relevance statistics)
     + low (Batch_report.by_relevance statistics) = length sample_batch
  /\ list_sum (map snd (Batch_report.by_category statistics))
     = length (flat_map category sample_batch)
  /\ length (Batch_report.top_projects statistics) <= 10
  /\ Forall (fun entry => contains (py "Project") (fst entry) = true)
            (Batch_report.top_projects statistics).
Proof.
  apply (@batch_report_counts ascii_runtime (py "2024-05-01 09:30")
           sample_files sample_batch).
  vm_compute. reflexivity.
Defined.

(** ** The vocabulary of the tags *)

Lemma set_add_In (x t : str) (members : list str) :
  In t (set_add x members) <-> In t members \/ t = x.
Proof.
  unfold set_add. destruct (str_in x members) eqn:E.
  - apply str_in_In in E. split; [auto|]. intros [H | ->]; assumption.
  - rewrite in_app_iff. cbn [In]. split.
    + intros [H | [H | []]]; auto.
    + intros [H | H]; auto.
Qed.

Lemma add_if_In (test : bool) (tag : string) (t : str)
    (members : list str) :
  In t (add_if test tag members)
  <-> In t members \/ (test = true /\ t = py tag).
Proof.
  unfold add_if. destruct test.
  - rewrite set_add_In. split; intros [H | H]; auto.
    + destruct H as [_ H]. auto.
  - split; [auto|]. intros [H | [H _]]; [exact H | discriminate H].
Qed.

Lemma fold_set_add_In (content : str) (patterns : list str) (t : str) :
  forall members,
    In t (fold_left
            (fun tags pattern =>
               if contains pattern content
               then set_add (title_case pattern) tags else tags)
            patterns members)
    <-> In t members
        \/ exists pattern,
             In pattern patterns /\ contains pattern content = true
             /\ t = title_case pattern.
Proof.
  induction patterns as [|p patterns IH]; intros members; cbn [fold_left].
  - split; [auto|]. intros [H | (p & [] & _)]. exact H.
  - rewrite IH. destruct (contains p content) eqn:E.
    + rewrite set_add_In. split.
      * intros [[H | ->] | (q & Hq & Hc & Ht)]; auto.
        -- right. exists p. cbn [In]. auto.
        -- right. exists q. cbn [In]. auto.
      * intros [H | (q & [<- | Hq] & Hc & Ht)]; auto.
        right. exists q. auto.
    + split.
      * intros [H | (q & Hq & Hc & Ht)]; auto.
        right. exists q. cbn [In]. auto.
      * intros [H | (q & [<- | Hq] & Hc & Ht)]; auto; [congruence|].
        right. exists q. auto.
Qed.

Lemma found_tags_In (content t : str) :
  In t (found_tags content)
  <-> (exists pattern,
          In pattern (flat_map snd tag_patterns)
          /\ contains pattern content = true /\ t = title_case pattern)
      \/ (mentions content "gtr" || mentions content "receipts" = true
          /\ t = py "GTR")
      \/ (mentions content "tnt" = true /\ t = py "TNT")
      \/ (mentions content "paleohacks" = true /\ t = py "PaleoHacks")
      \/ (mentions content "framework" = true /\ t = py "Framework")
      \/ (mentions content "template" = true /\ t = py "Template")
      \/ (mentions content "automation" || mentions content "n8n" = true
          /\ t = py "Automation")
      \/ (mentions content "analysis" || mentions content "audit" = true
          /\ t = py "Analysis")
      \/ (mentions content "email sequence" = true
          /\ t = py "Email Sequence")
      \/ (mentions content "landing page" = true /\ t = py "Landing Page")
      \/ (mentions content "sales page" = true /\ t = py "Sales Page")
      \/ (mentions content "vsl" = true /\ t = py "VSL").
Proof.
  unfold found_tags. cbn zeta. rewrite !add_if_In, fold_set_add_In.
  cbn [In]. tauto.
Qed.

Lemma title_case_not_general :
  forallb (fun pattern =>
             negb (str_eqb (title_case pattern) (py "General")))
          (flat_map snd tag_patterns) = true.
Proof. vm_compute. reflexivity. Qed.

Lemma found_tags_not_general (content : str) :
  ~ In (py "General") (found_tags content).
Proof.
  rewrite found_tags_In.
  intros [(pattern & Hin & _ & E) | H].
  - pose proof title_case_not_general as Hall.
    rewrite forallb_forall in Hall. specialize (Hall pattern Hin).
    rewrite <- E, str_eqb_refl in Hall. discriminate Hall.
  - repeat (destruct H as [[_ H] | H]; [discriminate H|]).
    destruct H as [_ H]. discriminate H.
Qed.

Lemma found_tags_empty (content : str) :
  found_tags content = []
  <-> (forall pattern,
          In pattern (flat_map snd tag_patterns) ->
          contains pattern content = false)
      /\ (forall word, In word tag_words ->
                       contains (py word) content = false).
Proof.
  split.
  - intros E.
    assert (Hnone : forall t, ~ In t (found_tags content))
      by (intros t; rewrite E; intros []).
    split.
    + intros pattern Hin.
      destruct (contains pattern content) eqn:Ec; [|reflexivity].
      exfalso. apply (Hnone (title_case pattern)).
      apply found_tags_In. left. exists pattern. auto.
    + intros word Hword.
      destruct (contains (py word) content) eqn:Ec; [|reflexivity].
      exfalso. unfold tag_words in Hword. cbn [In] in Hword.
      repeat (destruct Hword as [<- | Hword];
              [match goal with
               | |- False =>
                   first
                     [ apply (Hnone (py "GTR")); apply found_tags_In;
                       unfold mentions; rewrite Ec, ?orb_true_r; cbn [orb];
                       tauto
                     | apply (Hnone (py "TNT")); apply found_tags_In;
                       unfold mentions; rewrite Ec; tauto
                     | apply (Hnone (py "PaleoHacks")); apply found_tags_In;
                       unfold mentions; rewrite Ec; tauto
                     | apply (Hnone (py "Framework")); apply found_tags_In;
                       unfold mentions; rewrite Ec; tauto
                     | apply (Hnone (py "Template")); apply found_tags_In;
                       unfold mentions; rewrite Ec; tauto
                     | apply (Hnone (py "Automation")); apply found_tags_In;
                       unfold mentions; rewrite Ec, ?orb_true_r; cbn [orb];
                       tauto
                     | apply (Hnone (py "Analysis")); apply found_tags_In;
                       unfold mentions; rewrite Ec, ?orb_true_r; cbn [orb];
                       tauto
                     | apply (Hnone (py "Email Sequence"));
                       apply found_tags_In; unfold mentions; rewrite Ec;
                       tauto
                     | apply (Hnone (py "Landing Page"));
                       apply found_tags_In; unfold mentions; rewrite Ec;
                       tauto
                     | apply (Hnone (py "Sales Page"));
                       apply found_tags_In; unfold mentions; rewrite Ec;
                       tauto
                     | apply (Hnone (py "VSL")); apply found_tags_In;
                       unfold mentions; rewrite Ec; tauto ]
               end|]).
      contradiction.
  - intros [Hpatterns Hwords].
    destruct (found_tags content) as [|t tags] eqn:E; [reflexivity|].
    exfalso.
    assert (Hin : In t (found_tags content)) by (rewrite E; left; reflexivity).
    apply found_tags_In in Hin.
    assert (Hw : forall word, In word tag_words ->
                              mentions content word = false)
      by (intros word Hword; apply Hwords; exact Hword).
    unfold tag_words in Hw. cbn [In] in Hw.
    rewrite !Hw in Hin by tauto. cbn [orb] in Hin.
    destruct Hin as [(pattern & Hp & Hc & _) | Hin].
    + rewrite (Hpatterns pattern Hp) in Hc. discriminate Hc.
    + repeat (destruct Hin as [[Hin _] | Hin]; [discriminate Hin|]).
      destruct Hin as [Hin _]. discriminate Hin.
Qed.

(** The tags [generate_specific_tags] can return: the tag "General", one
    of the eleven fixed tags, or a pattern of the tag table that occurs in
    the text, in title case. "General" is returned exactly when no pattern
    of the table and none of the fourteen words looked for occurs, and
    then it is the only tag. *)
Theorem tags_vocabulary `{R : Runtime} (title description : str)
    (messages : list str) :
  let content :=
    lower (title ++ py " " ++ description ++ py " "
                 ++ join (py " ") (firstn 3 messages)) in
  let result := generate_specific_tags title description messages in
  (forall tag, In tag result ->
     tag = py "General"
     \/ In tag fixed_tags
     \/ exists pattern,
          In pattern (flat_map snd tag_patterns)
          /\ contains pattern content = true
          /\ tag = title_case pattern)
  /\ (In (py "General") result <-> result = [py "General"])
  /\ (result = [py "General"]
      <-> (forall pattern,
              In pattern (flat_map snd tag_patterns) ->
              contains pattern content = false)
          /\ (forall word, In word tag_words ->
                           contains (py word) content = false)).
Proof.
  cbn zeta.
  set (content := lower _).
  assert (E : generate_specific_tags title description messages
              = match found_tags content with
                | [] => [py "General"]
                | _ :: _ => firstn 5 (set_order (found_tags content))
                end) by reflexivity.
  rewrite E. clear E.
  pose proof (found_tags_not_general content) as Hnot.
  pose proof (found_tags_empty content) as Hempty.
  destruct (found_tags content) as [|t tags] eqn:Etags.
  - split; [intros tag [<- | []]; left; reflexivity|].
    split; [split; [reflexivity | intros _; left; reflexivity]|].
    split; [intros _; apply Hempty; reflexivity | reflexivity].
  - assert (Hsub : forall tag,
               In tag (firstn 5 (set_order (t :: tags))) ->
               In tag (found_tags content)).
    { intros tag Hin. rewrite Etags.
      apply (Permutation_in _ (set_order_perm (t :: tags))).
      apply (@subsequence_In _ _ _ tag (subsequence_firstn 5 _)).
      exact Hin. }
    assert (Hno : ~ In (py "General") (firstn 5 (set_order (t :: tags)))).
    { intros Hin. rewrite <- Etags in Hnot. exact (Hnot (Hsub _ Hin)). }
    split.
    { intros tag Hin. apply Hsub, found_tags_In in Hin. right.
      destruct Hin as [Hin | Hin]; [right; exact Hin | left].
      unfold fixed_tags. cbn [map In].
      repeat (destruct Hin as [[_ ->] | Hin]; [tauto|]).
      destruct Hin as [_ ->]. tauto. }
    split.
    { split; [intros Hin; contradiction|].
      intros Hresult. rewrite Hresult in Hno. exfalso. apply Hno. left.
      reflexivity. }
    split.
    { intros Hresult. rewrite Hresult in Hno. exfalso. apply Hno. left.
      reflexivity. }
    intros H. apply Hempty in H. discriminate H.
Qed.

(** ** The order in which the chunks are merged *)

Lemma str_ltb_prefix (p x y : str) :
  str_ltb (p ++ x) (p ++ y) = str_ltb x y.
Proof.
  induction p as [|c p IH]; [reflexivity|].
  cbn [app str_ltb]. rewrite N.ltb_irrefl, N.eqb_refl, IH. reflexivity.
Qed.

Lemma str_ltb_asym (a b : str) :
  str_ltb a b = true -> str_ltb b a = false.
Proof.
  intros Hab. destruct (str_ltb b a) eqn:Hba; [|reflexivity].
  pose proof (str_ltb_trans _ _ _ Hab Hba) as C.
  rewrite str_ltb_irrefl in C. discriminate C.
Qed.

Lemma ascending_sorted (l : list str) :
  ascending l = true ->
  StronglySorted (fun a b => str_ltb a b = true) l.
Proof.
  intros H. apply Sorted_StronglySorted.
  - intros a b c. apply str_ltb_trans.
  - induction l as [|x l IH]; [constructor|]. constructor.
    + apply IH. destruct l as [|y rest]; [reflexivity|].
      cbn [ascending] in H. apply andb_prop in H.
      destruct H as [_ H]. exact H.
    + destruct l as [|y rest]; constructor.
      cbn [ascending] in H. apply andb_prop in H.
      destruct H as [H _]. exact H.
Qed.

Lemma StronglySorted_map {A B} (f : A -> B) (R : A -> A -> Prop)
    (S : B -> B -> Prop) (l : list A) :
  (forall a b, R a b -> S (f a) (f b)) ->
  StronglySorted R l -> StronglySorted S (map f l).
Proof.
  intros Hf. induction 1 as [|a l _ IH Hall]; cbn [map]; constructor.
  - exact IH.
  - rewrite Forall_forall in *. intros b Hb. apply in_map_iff in Hb.
    destruct Hb as (x & <- & Hx). apply Hf, Hall, Hx.
Qed.

Lemma sorted_unique (l1 : list str) :
  forall l2,
    StronglySorted (fun a b => str_ltb b a = false) l1 ->
    StronglySorted (fun a b => str_ltb a b = true) l2 ->
    Permutation l1 l2 -> l1 = l2.
Proof.
  induction l1 as [|x1 l1 IH]; intros l2 H1 H2 Hperm.
  - apply Permutation_nil in Hperm. subst. reflexivity.
  - destruct l2 as [|x2 l2];
      [apply Permutation_sym, Permutation_nil in Hperm; discriminate|].
    inversion H1 as [|? ? H1' Hall1]; subst.
    inversion H2 as [|? ? H2' Hall2]; subst.
    rewrite Forall_forall in Hall1, Hall2.
    assert (E : x1 = x2).
    { assert (Hx1 : In x1 (x2 :: l2))
        by (apply (Permutation_in _ Hperm); left; reflexivity).
      assert (Hx2 : In x2 (x1 :: l1))
        by (apply (Permutation_in _ (Permutation_sym Hperm)); left;
            reflexivity).
      destruct Hx1 as [E | Hx1]; [symmetry; exact E|].
      destruct Hx2 as [E | Hx2]; [exact E|].
      pose proof (Hall2 x1 Hx1) as Hlt. pose proof (Hall1 x2 Hx2) as Hle.
      congruence. }
    subst x2. f_equal. apply IH; [exact H1' | exact H2'|].
    apply Permutation_cons_inv in Hperm. exact Hperm.
Qed.

Lemma firstn_seq_prefix (n : nat) :
  forall start len, n <= len -> firstn n (seq start len) = seq start n.
Proof.
  induction n as [|n IH]; intros start [|len] Hn; try reflexivity; [lia|].
  cbn [seq firstn]. rewrite IH by lia. reflexivity.
Qed.

Lemma numbered_names_ascending :
  ascending (map (fun k => pad3 (N.of_nat k) ++ py ".csv") (seq 1 999))
  = true.
Proof. vm_compute. reflexivity. Qed.

Lemma chunk_names_sorted (output_path : str) (count : nat) :
  count <= 999 ->
  StronglySorted (fun a b => str_ltb a b = true)
                 (map (chunk_filename output_path) (seq 1 count)).
Proof.
  intros Hcount.
  replace (seq 1 count) with (firstn count (seq 1 999))
    by (apply firstn_seq_prefix; exact Hcount).
  rewrite <- firstn_map. apply StronglySorted_firstn.
  pose proof (ascending_sorted _ numbered_names_ascending) as Hsorted.
  apply (@StronglySorted_map _ _
           (fun name => output_path ++ py "_chunk_" ++ name)
           (fun a b => str_ltb a b = true)
           (fun a b => str_ltb a b = true)) in Hsorted.
  - rewrite map_map in Hsorted. exact Hsorted.
  - intros a b Hab. rewrite !str_ltb_prefix. exact Hab.
Qed.

Lemma sorted_files_sorted (matching : list str) :
  StronglySorted (fun a b => str_ltb b a = false) (sorted_files matching).
Proof.
  apply stable_sort_sorted.
  - apply str_ltb_asym.
  - apply str_le_trans.
Qed.

(** [merge_csv_files] reads the files in the sorted order of their names.
    For at most 999 chunks this is the order in which [convert_to_csv]
    wrote them, whatever the order in which [glob] finds them. From the
    thousandth chunk on it is not: the name of chunk 1000 sorts before the
    name of chunk 101. *)
Theorem merge_order (output_path : str) (count : nat) :
  let names := map (chunk_filename output_path) (seq 1 count) in
  (count <= 999 ->
   forall matching,
     Permutation matching names -> sorted_files matching = names)
  /\ (1000 <= count -> sorted_files names <> names).
Proof.
  cbn zeta. split.
  - intros Hcount matching Hperm. apply sorted_unique.
    + apply sorted_files_sorted.
    + apply chunk_names_sorted. exact Hcount.
    + unfold sorted_files. rewrite stable_sort_perm. exact Hperm.
  - intros Hcount E.
    pose proof (sorted_files_sorted
                  (map (chunk_filename output_path) (seq 1 count)))
      as Hsorted.
    rewrite E in Hsorted.
    replace count with (101 + (count - 101)) in Hsorted by lia.
    rewrite seq_app, map_app in Hsorted.
    assert (H : str_ltb (chunk_filename output_path 1000)
                        (chunk_filename output_path 101) = false).
    { apply (@StronglySorted_app_inv _
               (fun a b : str => str_ltb b a = false) _ _ Hsorted).
      - apply in_map, in_seq. lia.
      - apply in_map, in_seq. lia. }
    unfold chunk_filename in H. rewrite !str_ltb_prefix in H.
    vm_compute in H. discriminate H.
Qed.
